(** * FirestoreRepository: the object/document mapping layer

    A shallow embedding of [src/main/repositories/FirestoreRepository.js]
    (the trait that translates between domain entities and Firestore
    documents) together with the properties its specification states.

    JavaScript values are a first-order datatype; functions are named by an
    identifier and run through an environment, objects that the code
    mutates live in a heap, thrown errors are results that keep the state
    reached so far. *)

From Stdlib Require Import ZArith String List Bool Lia.
From Stdlib Require PrimFloat FloatOps SpecFloat.
From stdpp Require Import base option list gmap strings pretty.

Import ListNotations.
#[local] Set Warnings "-register-all".
Local Open Scope string_scope.
Local Open Scope list_scope.
Local Open Scope Z_scope.

(** ** IEEE doubles *)

Module Double.

Definition double : Type := PrimFloat.float.

(** The double nearest to an integer. *)
Definition of_Z (z : Z) : double :=
  FloatOps.SF2Prim (SpecFloat.binary_normalize 53 1024 z 0 false).

Definition is_nan (f : double) : bool := PrimFloat.is_nan f.
Definition is_zero (f : double) : bool := PrimFloat.eqb f (of_Z 0).

(** The integer a double is, when it is one. *)
Definition integer (f : double) : option Z :=
  match FloatOps.Prim2SF f with
  | SpecFloat.S754_zero _ => Some 0
  | SpecFloat.S754_finite s m e =>
      let v := if s then Z.neg m else Z.pos m in
      if 0 <=? e then Some (v * 2 ^ e)
      else if Z.pos m mod 2 ^ (- e) =? 0 then Some (v / 2 ^ (- e)) else None
  | _ => None
  end.

(** Its integral part (towards zero), when it is finite. *)
Definition truncate (f : double) : option Z :=
  match FloatOps.Prim2SF f with
  | SpecFloat.S754_zero _ => Some 0
  | SpecFloat.S754_finite s m e =>
      let magnitude := if 0 <=? e then Z.pos m * 2 ^ e else Z.pos m / 2 ^ (- e) in
      Some (if s then - magnitude else magnitude)
  | _ => None
  end.

(** [Math.floor] *)
Definition floor (f : double) : double :=
  match FloatOps.Prim2SF f with
  | SpecFloat.S754_finite s m e =>
      if 0 <=? e then f
      else of_Z ((if s then Z.neg m else Z.pos m) / 2 ^ (- e))
  | _ => f
  end.

End Double.

(** ** JavaScript values *)

Module JS.

(** Numbers are doubles.  [NInt z] is the double nearest to the integer
    [z]; the integers of magnitude below [2^53] are doubles themselves, and
    the arithmetic of the layer (epoch milliseconds, seconds, nanoseconds)
    is exact on them as long as its results stay below that bound.  [NaN]
    is what invalid dates and failed coercions carry.  [NFloat] is any
    other double: a fraction, an infinity, or the outcome of arithmetic
    that left the exact range. *)
Inductive number : Type :=
| NInt (z : Z)
| NaN
| NFloat (f : Double.double).

(** The integers on which the arithmetic of doubles is exact. *)
Definition safe (z : Z) : bool := Z.abs z <? 9007199254740992.

Definition to_double (n : number) : Double.double :=
  match n with
  | NInt z => Double.of_Z z
  | NaN => PrimFloat.nan
  | NFloat f => f
  end.

Definition of_double (f : Double.double) : number :=
  if Double.is_nan f then NaN else NFloat f.

(** The integer a number is ([n % 1 === 0]), when it is one. *)
Definition integer_value (n : number) : option Z :=
  match n with
  | NInt z => if safe z then Some z else Double.integer (Double.of_Z z)
  | NaN => None
  | NFloat f => Double.integer f
  end.

(** A Firestore [Timestamp]: the fields [_seconds] and [_nanoseconds]. *)
Record timestamp : Type := mkTimestamp { _seconds : Z; _nanoseconds : Z }.

(** A [moment]: the number its date was made from and whether it is in
    UTC mode. *)
Record moment : Type := mkMoment { m_valueOf : number; m_isUTC : bool }.

(** A class as [instanceof] and [constructor.name] see it: its own name and
    the names of the classes it extends. *)
Record class : Type := mkClass { cname : string; csupers : list string }.

#[export] Instance class_eq_dec : EqDecision class.
Proof. solve_decision. Defined.

Definition fid := string.

Inductive value : Type :=
| VUndefined
| VNull
| VBool (b : bool)
| VNum (n : number)
| VStr (s : string)
| VFun (f : fid) (props : list (string * value))
| VEnum (enumeration : string) (name : string)
| VMoment (m : moment)
| VDate (t : number)
| VTimestamp (ts : timestamp)
| VArr (elems : list value)
| VObj (c : class) (props : list (string * value)).

Definition Object_class : class := mkClass "Object" [].

(** An object literal [{ k1: v1, ... }]. *)
Definition plain (props : list (string * value)) : value := VObj Object_class props.

Inductive jstype : Type :=
| TUndefined | TObject | TBoolean | TNumber | TString | TFunction.

Definition typeof (v : value) : jstype :=
  match v with
  | VUndefined => TUndefined
  | VBool _ => TBoolean
  | VNum _ => TNumber
  | VStr _ => TString
  | VFun _ _ => TFunction
  | VNull | VEnum _ _ | VMoment _ | VDate _ | VTimestamp _ | VArr _ | VObj _ _ => TObject
  end.

Definition jstype_eqb (a b : jstype) : bool :=
  match a, b with
  | TUndefined, TUndefined | TObject, TObject | TBoolean, TBoolean
  | TNumber, TNumber | TString, TString | TFunction, TFunction => true
  | _, _ => false
  end.

(** ToBoolean: what [!it], [a || b] and [a && b] test. *)
Definition truthy (v : value) : bool :=
  match v with
  | VUndefined | VNull => false
  | VBool b => b
  | VNum (NInt z) => negb (z =? 0)
  | VNum NaN => false
  | VNum (NFloat f) => negb (Double.is_nan f) && negb (Double.is_zero f)
  | VStr s => negb (String.eqb s "")
  | _ => true
  end.

(** [a || b] and [a && b] on values. *)
Definition js_or (a b : value) : value := if truthy a then a else b.
Definition js_and (a b : value) : value := if truthy a then b else a.

(** [v === undefined] *)
Definition is_undefined (v : value) : bool :=
  match v with VUndefined => true | _ => false end.

Definition isArray (v : value) : bool :=
  match v with VArr _ => true | _ => false end.

(** Property tables keep insertion order, as [Object.keys] reports it. *)
Fixpoint lookup_prop (k : string) (props : list (string * value)) : option value :=
  match props with
  | [] => None
  | (k', v) :: rest => if String.eqb k' k then Some v else lookup_prop k rest
  end.

(** [obj[k] = v] on a data property: overwrite in place, or append. *)
Fixpoint assign_prop (k : string) (v : value) (props : list (string * value))
  : list (string * value) :=
  match props with
  | [] => [(k, v)]
  | (k', v') :: rest =>
      if String.eqb k' k then (k, v) :: rest else (k', v') :: assign_prop k v rest
  end.

(** The element of an array under the key of an index. *)
Fixpoint element_at (k : string) (i : nat) (elems : list value) : option value :=
  match elems with
  | [] => None
  | x :: rest => if String.eqb (pretty i) k then Some x else element_at k (S i) rest
  end.

(** The properties a value carries itself.  Functions (classes included)
    carry [name], [length] and their statics in their table; a Timestamp
    has its two fields; an Enum instance its [name]; an array its
    [length] and its elements. *)
Definition own_property (v : value) (k : string) : option value :=
  match v with
  | VFun _ props | VObj _ props => lookup_prop k props
  | VTimestamp ts =>
      if String.eqb k "_seconds" then Some (VNum (NInt (_seconds ts)))
      else if String.eqb k "_nanoseconds" then Some (VNum (NInt (_nanoseconds ts)))
      else None
  | VEnum _ n => if String.eqb k "name" then Some (VStr n) else None
  | VArr elems =>
      if String.eqb k "length" then Some (VNum (NInt (Z.of_nat (length elems))))
      else element_at k 0 elems
  | _ => None
  end.

(** [v.k] for the names the trait itself reads ([_seconds], [_begin],
    [enumValues], [of], [name], [id], [_id], ...): the property the value
    carries under the name.  Reading a property of [undefined] or [null]
    is guarded by [?.] or [&&] wherever the source does it, so the result
    there is [undefined]. *)
Definition get (v : value) (k : string) : value :=
  default VUndefined (own_property v k).

(** [v instanceof C] for an object of a user class. *)
Definition instanceof (v : value) (C : string) : bool :=
  match v with
  | VObj c _ => bool_decide (C ∈ cname c :: csupers c)
  | _ => false
  end.

Definition isTimestamp (v : value) : bool :=
  match v with VTimestamp _ => true | _ => false end.

Definition isMoment (v : value) : bool :=
  match v with VMoment _ => true | _ => false end.

Definition isDate (v : value) : bool :=
  match v with VDate _ => true | _ => false end.

(** ** Thrown errors *)

Inductive errClass : Type :=
| Error_                       (* the built-in Error *)
| TypeError_                   (* the built-in TypeError *)
| ObjectNotFoundError_
| ObjectExistsError_
| IllegalArgumentError_
| MethodNotImplementedError_.

(** An error object: its class and the argument its constructor was given. *)
Record error : Type := mkError { eclass : errClass; earg : value }.

Inductive result (A : Type) : Type :=
| Ok (a : A)
| Throw (e : error).
Arguments Ok {A} a.
Arguments Throw {A} e.

#[export] Instance result_ret : MRet result := fun A a => Ok a.
#[export] Instance result_bind : MBind result := fun A B f r =>
  match r with
  | Ok a => f a
  | Throw e => Throw e
  end.
#[export] Instance result_fmap : FMap result := fun A B f r =>
  match r with
  | Ok a => Ok (f a)
  | Throw e => Throw e
  end.

(** [try { body } catch (e) { throw handler }] *)
Definition try_catch {A} (body : result A) (handler : error) : result A :=
  match body with
  | Ok a => Ok a
  | Throw _ => Throw handler
  end.

(** ** Objects that are passed by reference *)

(** An object that a call mutates in place: its class and its own
    enumerable data fields. *)
Record object : Type := mkObject { oclass : class; ofields : list (string * value) }.

Definition empty_object : object := mkObject Object_class [].

(** The object as a value, for reading. *)
Definition snapshot (o : object) : value := VObj (oclass o) (ofields o).

(** What a prototype chain defines under a name: a method (or any other
    inherited data property), or an accessor, [get k ()] and [set k (v)]. *)
Inductive member : Type :=
| Method (v : value)
| Accessor (getter setter : option fid).

(** The properties every object inherits from [Object.prototype]. *)
Definition Object_prototype_names : list string :=
  ["constructor"; "__defineGetter__"; "__defineSetter__"; "hasOwnProperty";
   "__lookupGetter__"; "__lookupSetter__"; "isPrototypeOf"; "propertyIsEnumerable";
   "toString"; "valueOf"; "__proto__"; "toLocaleString"].

(** What reading one of them gives: the built-in function, and for
    [__proto__] the prototype, an object. *)
Definition Object_prototype (k : string) : option value :=
  if bool_decide (k ∈ Object_prototype_names)
  then Some (if String.eqb k "__proto__" then plain []
             else VFun ("Object.prototype." +:+ k) [("name", VStr k)])
  else None.

(** What every function inherits from [Function.prototype]: its methods,
    and the two accessors that throw on the functions of strict code. *)
Definition ThrowTypeError : fid := "%ThrowTypeError%".

Definition Function_prototype (k : string) : option member :=
  if bool_decide (k ∈ ["apply"; "bind"; "call"; "toString"; "constructor"])
  then Some (Method (VFun ("Function.prototype." +:+ k) [("name", VStr k)]))
  else if bool_decide (k ∈ ["arguments"; "caller"])
       then Some (Accessor (Some ThrowTypeError) (Some ThrowTypeError))
       else None.

(** The class whose prototype a value of a built-in kind inherits from. *)
Definition class_of (v : value) : class :=
  match v with
  | VObj c _ => c
  | VFun _ _ => mkClass "Function" []
  | VArr _ => mkClass "Array" []
  | VStr _ => mkClass "String" []
  | VNum _ => mkClass "Number" []
  | VBool _ => mkClass "Boolean" []
  | VTimestamp _ => mkClass "Timestamp" []
  | VMoment _ => mkClass "Moment" []
  | VDate _ => mkClass "Date" []
  | VEnum e _ => mkClass e ["Enum"]
  | VUndefined | VNull => Object_class
  end.

End JS.
Import JS.

(** The error classes exported by [@scispike/nodejs-support]. *)
Module errors.
Definition ObjectNotFoundError : errClass := ObjectNotFoundError_.
Definition ObjectExistsError : errClass := ObjectExistsError_.
Definition IllegalArgumentError : errClass := IllegalArgumentError_.
Definition MethodNotImplementedError : errClass := MethodNotImplementedError_.
End errors.

(** ** The Firestore [Timestamp] class ([@google-cloud/firestore]) *)

Module Timestamp.

Definition MS_TO_NANOS : Z := 1000000.

(** [validateInteger]: an integer, within the bounds when given. *)
Definition validateInteger (v : value) (lo hi : option Z) : result Z :=
  match v with
  | VNum n =>
      match integer_value n with
      | Some z =>
          if (from_option (fun l => z <? l) false lo || from_option (fun h => h <? z) false hi)%bool
          then Throw (mkError Error_ v)
          else Ok z
      | None => Throw (mkError Error_ v)
      end
  | _ => Throw (mkError Error_ v)
  end.

(** [new Timestamp(seconds, nanoseconds)] *)
Definition new (seconds nanoseconds : value) : result timestamp :=
  s ← validateInteger seconds None None;
  n ← validateInteger nanoseconds (Some 0) (Some 999999999);
  mret (mkTimestamp s n).

(** [Timestamp.fromMillis(ms)] in the arithmetic of doubles. *)
Definition fromMillis_double (ms : Double.double) : result timestamp :=
  let seconds := Double.floor (PrimFloat.div ms (Double.of_Z 1000)) in
  let nanos := PrimFloat.mul (PrimFloat.sub ms (PrimFloat.mul seconds (Double.of_Z 1000)))
                             (Double.of_Z MS_TO_NANOS) in
  new (VNum (of_double seconds)) (VNum (of_double nanos)).

(** [Timestamp.fromMillis(ms)]:
    [seconds = Math.floor(ms / 1000)],
    [nanos = (ms - seconds * 1000) * MS_TO_NANOS].
    On an integer below [2^53] every step is exact: the quotient is
    rounded by less than the thousandth that separates it from the next
    integer, [seconds * 1000] is a multiple of eight below [2^54], and the
    difference lies between 0 and 999. *)
Definition fromMillis (ms : number) : result timestamp :=
  match ms with
  | NInt z =>
      if safe z then
        let seconds := z / 1000 in
        let nanos := (z - seconds * 1000) * MS_TO_NANOS in
        new (VNum (NInt seconds)) (VNum (NInt nanos))
      else fromMillis_double (Double.of_Z z)
  | NaN => new (VNum NaN) (VNum NaN)
  | NFloat f => fromMillis_double f
  end.

(** When [seconds * 1000 + Math.floor(nanoseconds / MS_TO_NANOS)] is
    exact: the product is a multiple of eight below [2^56], the quotient
    is below 1000, and the sum is below [2^53]. *)
Definition exact_millis (ts : timestamp) : bool :=
  (Z.abs (_seconds ts) * 1000 <? 72057594037927936)
  && (Z.abs (_nanoseconds ts) <=? 999999999)
  && safe (_seconds ts * 1000 + _nanoseconds ts / MS_TO_NANOS).

(** [ts.toMillis()]:
    [seconds * 1000 + Math.floor(nanoseconds / MS_TO_NANOS)]. *)
Definition toMillis (ts : timestamp) : number :=
  if exact_millis ts
  then NInt (_seconds ts * 1000 + _nanoseconds ts / MS_TO_NANOS)
  else of_double
         (PrimFloat.add
            (PrimFloat.mul (Double.of_Z (_seconds ts)) (Double.of_Z 1000))
            (Double.floor (PrimFloat.div (Double.of_Z (_nanoseconds ts))
                                         (Double.of_Z MS_TO_NANOS)))).

(** The class invariant the constructor establishes. *)
Definition wf (ts : timestamp) : Prop :=
  0 <= _nanoseconds ts <= 999999999.

End Timestamp.

(** ** [moment] and [Date] *)

Module Moment.

(** The largest time value a [Date] holds; beyond it the date is invalid. *)
Definition MAX_TIME : Z := 8640000000000000.

(** The time value a [Date] keeps of a number: its integral part when that
    is within range, [NaN] otherwise. *)
Definition TimeClip (n : number) : number :=
  match n with
  | NInt z => if Z.abs z <=? MAX_TIME then NInt z else NaN
  | NaN => NaN
  | NFloat f =>
      match Double.truncate f with
      | Some z => if Z.abs z <=? MAX_TIME then NInt z else NaN
      | None => NaN
      end
  end.

(** [m.valueOf()] *)
Definition valueOf (m : moment) : number := TimeClip (m_valueOf m).

(** [m.isValid()] *)
Definition isValid (m : moment) : bool :=
  match valueOf m with NInt _ => true | _ => false end.

End Moment.

(** ** What the surrounding runtime supplies

    The behaviour of code that is not part of the repository trait: calling
    a function value, [moment]'s parser for anything that is not a number,
    a date or a moment, the language's own coercions, what the classes of
    the application and of the libraries put on their prototypes, and the
    identifiers [uuid] generates. *)

Class Host : Type := {
  (** [f(arg1, ..., argn)] for the function named [f] *)
  apply_fn : fid -> list value -> result value;
  (** the epoch milliseconds [moment.utc(v)] parses out of [v] *)
  moment_parse : value -> number;
  (** ToNumber and ToString of the language *)
  ToNumber : value -> number;
  ToString : value -> string;
  (** what walking the own fields of a library object (a moment, a Date,
      an Enum instance) as [_toFirestoreDocument] does comes to *)
  lib_document : value -> result value;
  (** the n-th identifier [uuid()] hands out *)
  uuid : nat -> string;
  (** what the prototype chain of a class defines under a name, short of
      [Object.prototype]: the classes of the application, and the built-in
      and library classes of [class_of] *)
  class_member : class -> string -> option member;
  (** [get k () { ... }] run on a value *)
  run_getter : fid -> value -> result value;
  (** [set k (v) { ... }] run on an object: the object afterwards, or the
      error thrown *)
  run_setter : fid -> object -> value -> result object;
  (** [o.__proto__ = v]: the object afterwards *)
  set_prototype : object -> value -> object;
  (** whether a property that a function carries is its own and
      enumerable, as [Object.keys] has it *)
  enumerable : fid -> string -> bool;
}.

Section PureConversions.
Context `{Host}.

Definition IllegalArgumentError : errClass := errors.IllegalArgumentError.
Definition MethodNotImplementedError : errClass := errors.MethodNotImplementedError.

(** What the instances of a class inherit from the class and the classes
    it extends; an object literal has no class but [Object]. *)
Definition class_chain (c : class) (k : string) : option member :=
  if bool_decide (c = Object_class) then None else class_member c k.

(** What a value inherits under a name: from its class or
    [Function.prototype] first, from [Object.prototype] last. *)
Definition inherited (v : value) (k : string) : option member :=
  match (match v with
         | VFun _ _ => Function_prototype k
         | _ => class_chain (class_of v) k
         end) with
  | Some m => Some m
  | None => Method <$> Object_prototype k
  end.

(** Running a getter. *)
Definition call_getter (g : fid) (this : value) : result value :=
  if String.eqb g ThrowTypeError then Throw (mkError TypeError_ this)
  else run_getter g this.

(** [f(arg1, ..., argn)] for a value [f]. *)
Definition call_function (f : value) (args : list value) : result value :=
  match f with
  | VFun f _ => apply_fn f args
  | _ => Throw (mkError TypeError_ f)
  end.

(** [v[k]] for a key that the caller supplies: the value's own property,
    or what its prototype chain has under the name. *)
Definition get_property (v : value) (k : string) : result value :=
  match v with
  | VUndefined | VNull => Throw (mkError TypeError_ v)
  | _ =>
      match own_property v k with
      | Some x => Ok x
      | None =>
          match inherited v k with
          | Some (Method x) => Ok x
          | Some (Accessor (Some g) _) => call_getter g v
          | Some (Accessor None _) | None => Ok VUndefined
          end
      end
  end.

(** A numeric argument as the callee's arithmetic sees it. *)
Definition as_number (v : value) : number :=
  match v with
  | VNum n => n
  | _ => ToNumber v
  end.

(** [moment.utc(it)] *)
Definition moment_utc (it : value) : moment :=
  mkMoment
    (Moment.TimeClip
       match it with
       | VNum n => n
       | VMoment m => m_valueOf m
       | VDate t => t
       | _ => moment_parse it
       end)
    true.

(** [Timestamp.fromDate(date)] is [Timestamp.fromMillis(date.getTime())]. *)
Definition Timestamp_fromDate (t : number) : result timestamp :=
  Timestamp.fromMillis (Moment.TimeClip t).

(** [_toTimestamp (it)] *)
Definition _toTimestamp (it : value) : result value :=
  let it' :=
    match it with
    | VTimestamp ts => VNum (Timestamp.toMillis ts)
    | VMoment m => VNum (Moment.valueOf m)
    | VDate t => VNum (Moment.TimeClip t)
    | _ => it
    end in
  try_catch (VTimestamp <$> Timestamp.fromMillis (as_number it'))
            (mkError IllegalArgumentError (plain [("msg", it')])).

(** [_isTimestampLike (it, valueIfInstanceOf)] *)
Definition _isTimestampLike (it valueIfInstanceOf : value) : value :=
  if isTimestamp it then valueIfInstanceOf
  else VBool (jstype_eqb (typeof (get it "_seconds")) TNumber
              && jstype_eqb (typeof (get it "_nanoseconds")) TNumber).

(** [_fromTimestampDocument (plain)] *)
Definition _fromTimestampDocument (doc : value) : result value :=
  if truthy doc
  then VTimestamp <$> Timestamp.new (get doc "_seconds") (get doc "_nanoseconds")
  else Ok doc.

(** [_toMoment (it)] *)
Definition _toMoment (it : value) : result value :=
  if negb (truthy it) then Ok it
  else
    it1 ← (if truthy (_isTimestampLike it (VBool false))
           then _fromTimestampDocument it else Ok it);
    let it2 := match it1 with
               | VTimestamp ts => VNum (Timestamp.toMillis ts)
               | _ => it1
               end in
    let m := moment_utc it2 in
    if Moment.isValid m then Ok (VMoment m)
    else Throw (mkError IllegalArgumentError it2).

(** [get _toTreeCustomizer ()]: the replacement for [it], or nothing when
    [it] is to be cloned as it is. *)
Definition _toTreeCustomizer (it : value) : option (result value) :=
  match it with
  | VEnum _ name => Some (Ok (VStr name))
  | VMoment m => Some (VTimestamp <$> Timestamp.fromMillis (Moment.valueOf m))
  | VDate t => Some (VTimestamp <$> Timestamp_fromDate t)
  | VTimestamp _ => Some (Ok it)
  | _ => None
  end.

(** lodash's [cloneDeepWith(value, customizer)]: the customizer's answer
    where it gives one; arrays and objects are rebuilt with their class
    and their fields cloned; a function is kept when it is a field, and at
    the root becomes a fresh object with clones of its own enumerable
    properties; primitives are themselves. *)
Fixpoint cloneDeepWith_at (root : bool) (customizer : value -> option (result value))
    (v : value) {struct v} : result value :=
  match customizer v with
  | Some r => r
  | None =>
      match v with
      | VArr elems =>
          VArr <$>
            (fix each (l : list value) : result (list value) :=
               match l with
               | [] => Ok []
               | x :: xs =>
                   x' ← cloneDeepWith_at false customizer x;
                   xs' ← each xs;
                   mret (x' :: xs')
               end) elems
      | VObj c props =>
          VObj c <$>
            (fix each (l : list (string * value)) : result (list (string * value)) :=
               match l with
               | [] => Ok []
               | (k, x) :: xs =>
                   x' ← cloneDeepWith_at false customizer x;
                   xs' ← each xs;
                   mret ((k, x') :: xs')
               end) props
      | VFun f props =>
          if root
          then plain <$>
                 (fix each (l : list (string * value)) : result (list (string * value)) :=
                    match l with
                    | [] => Ok []
                    | (k, x) :: xs =>
                        if enumerable f k
                        then x' ← cloneDeepWith_at false customizer x;
                             xs' ← each xs;
                             mret ((k, x') :: xs')
                        else each xs
                    end) props
          else Ok v
      | _ => Ok v
      end
  end.

Definition cloneDeepWith := cloneDeepWith_at true.

(** [_toTree (entity)] *)
Definition _toTree (entity : value) : result value :=
  cloneDeepWith _toTreeCustomizer entity.

(** [it.constructor.name] *)
Definition constructor_name (it : value) : result value :=
  match it with
  | VObj c _ => Ok (VStr (cname c))
  | VArr _ => Ok (VStr "Array")
  | VFun _ _ => Ok (VStr "Function")
  | VBool _ => Ok (VStr "Boolean")
  | VNum _ => Ok (VStr "Number")
  | VStr _ => Ok (VStr "String")
  | VDate _ => Ok (VStr "Date")
  | VTimestamp _ => Ok (VStr "Timestamp")
  | VMoment _ => Ok (VStr "Moment")
  | VEnum e _ => Ok (VStr e)
  | VUndefined | VNull => Throw (mkError TypeError_ it)
  end.

(** [_toPeriodDocument (period, context)] *)
Definition _toPeriodDocument (period : value) : result value :=
  type ← constructor_name period;
  let result0 := [("_type", type)] in
  result1 ←
    (if truthy (get period "_begin")
     then b ← _toTimestamp (get period "_begin");
          mret (assign_prop "_begin" b result0)
     else Ok result0);
  result2 ←
    (if truthy (get period "_end")
     then e ← _toTimestamp (get period "_end");
          mret (assign_prop "_end" e result1)
     else Ok result1);
  mret (plain result2).

(** The field filter of [_toFirestoreDocument]:
    [typeof it[k] !== 'function' && it[k] !== undefined]. *)
Definition persistable (v : value) : bool :=
  negb (jstype_eqb (typeof v) TFunction) && negb (is_undefined v).

(** [_toFirestoreDocument (it)].  The object case walks the field table
    itself, which is [Object.keys(it)] paired with [it[k]]; the [reduce]
    with [Object.assign] puts the converted fields into a fresh object in
    that order.  The fields of a moment, a Date or an Enum instance are
    the library's: what walking them comes to is the host's to say. *)
Fixpoint _toFirestoreDocument (it : value) {struct it} : result value :=
  match it with
  | VFun _ _ =>
      Throw (mkError IllegalArgumentError
               (VStr "functions cannot be converted to a Firestore document"))
  | VTimestamp _ => Ok it
  | VArr elems =>
      VArr <$>
        (fix each (l : list value) : result (list value) :=
           match l with
           | [] => Ok []
           | x :: xs =>
               x' ← _toFirestoreDocument x;
               xs' ← each xs;
               mret (x' :: xs')
           end) elems
  | VObj c props =>
      if instanceof it "Period" || instanceof it "DatePeriod"
      then _toPeriodDocument it
      else
        (fun fields => plain (fold_left (fun accum next => assign_prop next.1 next.2 accum) fields []))
        <$>
        (fix each (l : list (string * value)) : result (list (string * value)) :=
           match l with
           | [] => Ok []
           | (k, x) :: xs =>
               if persistable x
               then x' ← _toFirestoreDocument x;
                    xs' ← each xs;
                    mret ((k, x') :: xs')
               else each xs
           end) props
  | VNull => Throw (mkError TypeError_ VNull)
  | VEnum _ _ | VMoment _ | VDate _ => lib_document it
  | VUndefined | VBool _ | VNum _ | VStr _ => Ok it
  end.

(** [_toDocument (entity)] *)
Definition _toDocument (entity : value) : result value :=
  tree ← _toTree entity;
  _toFirestoreDocument tree.

(** [_fromDocument] of the trait itself: abstract. *)
Definition _fromDocument (doc : value) (setterPrefix getterPrefix : string) : result value :=
  Throw (mkError MethodNotImplementedError (VStr "FirestoreRepository#_fromDocument")).

End PureConversions.

(** ** The repository instance and what its methods mutate *)

Definition loc := nat.

(** The function a cached field mapper closes over: one of the trait's own
    arrow functions, or a function value handed in (an enumeration's
    [of]).  [Inherited] is no closure of the trait: it is what the lookup
    [this._mapperCache[name]] answers for a name of [Object.prototype]. *)
Inductive scalar : Type :=
| NoOp                (* it => it *)
| MomentOf            (* it => this._toMoment(it) *)
| Fn (f : value)
| Inherited (found : value).

(** A slot of an array that may be sparse. *)
Inductive slot : Type :=
| Hole
| Elem (v : value).

Record Repo : Type := mkRepo {
  heap : gmap loc object;             (* the objects passed by reference *)
  arrays : gmap loc (list slot);      (* the arrays passed by reference *)
  _mapperCache : gmap string scalar;  (* this._mapperCache *)
  _path : string;                     (* this._path *)
  documents : gmap string value;      (* the documents behind this._db, by path *)
  uuids : nat;                        (* how many identifiers uuid() has handed out *)
}.

Definition with_heap (h : gmap loc object) (r : Repo) : Repo :=
  mkRepo h (arrays r) (_mapperCache r) (_path r) (documents r) (uuids r).
Definition with_arrays (a : gmap loc (list slot)) (r : Repo) : Repo :=
  mkRepo (heap r) a (_mapperCache r) (_path r) (documents r) (uuids r).
Definition with_mapperCache (c : gmap string scalar) (r : Repo) : Repo :=
  mkRepo (heap r) (arrays r) c (_path r) (documents r) (uuids r).
Definition with_documents (d : gmap string value) (r : Repo) : Repo :=
  mkRepo (heap r) (arrays r) (_mapperCache r) (_path r) d (uuids r).
Definition with_uuids (n : nat) (r : Repo) : Repo :=
  mkRepo (heap r) (arrays r) (_mapperCache r) (_path r) (documents r) n.

(** A method body: it runs on the repository state and either returns or
    throws; what it changed before throwing stays changed. *)
Definition M (A : Type) : Type := Repo -> result A * Repo.

#[export] Instance M_ret : MRet M := fun A a σ => (Ok a, σ).
#[export] Instance M_bind : MBind M := fun A B f m σ =>
  match m σ with
  | (Ok a, σ') => f a σ'
  | (Throw e, σ') => (Throw e, σ')
  end.

Definition throw {A} (e : error) : M A := fun σ => (Throw e, σ).
Definition lift {A} (r : result A) : M A := fun σ => (r, σ).
Definition gets {A} (f : Repo -> A) : M A := fun σ => (Ok (f σ), σ).
Definition modify (f : Repo -> Repo) : M unit := fun σ => (Ok tt, f σ).

(** [arr.reduce(callback, init)] with a callback that has effects. *)
Fixpoint reduce {A B} (callback : B -> A -> M B) (arr : list A) (init : B) : M B :=
  match arr with
  | [] => mret init
  | x :: xs => accum ← callback init x; reduce callback xs accum
  end.

(** [{}]: a fresh object. *)
Definition new_object (o : object) : M loc := fun σ =>
  let l := fresh (dom (heap σ)) in
  (Ok l, with_heap (<[l := o]> (heap σ)) σ).

(** The object behind a reference, in a given state (references held by
    callers are live). *)
Definition object_at (σ : Repo) (l : loc) : object := default empty_object (heap σ !! l).

Definition deref (l : loc) : M object :=
  gets (fun σ => object_at σ l).

(** [obj.k = v] for a field of the object's own, as [entity._id] is. *)
Definition set_field (l : loc) (k : string) (v : value) : M unit :=
  modify (fun σ =>
    let o := object_at σ l in
    with_heap (<[l := mkObject (oclass o) (assign_prop k v (ofields o))]> (heap σ)) σ).

(** The pieces a concrete repository and the Firestore client supply. *)
Class Concrete : Type := {
  (** the overriding [_fromDocument({ plain, setterPrefix, getterPrefix })] *)
  fromDocument_override : value -> string -> string -> M value;
  (** [docRef.set(document, options)]: from the stored document, if any,
      the document stored afterwards and the write result *)
  firestore_set : option value -> value -> value -> result (value * value);
}.

(** The arguments of [_mapProps]; [None] is an argument left out. *)
Inductive keysArg : Type :=
| NoKeys
| OneKey (key : string)
| Keys (keys : list string).

Record mapPropsArgs : Type := mkMapPropsArgs {
  a_keys : keysArg;
  a_from : option loc;
  a_to : option loc;
  a_setterPrefix : option string;
  a_getterPrefix : option string;
  a_mappers : value;
}.

(** What [map] is bound to when [_mapProps] calls it: a closure made by
    [_getMapper], or the caller's own function. *)
Inductive converter : Type :=
| Cached (mapper : scalar)
| Custom (f : value).

(** The object that [_mapProps] hands to [map]:
    [{ key, from, getterPrefix, enumeration: e, to }]. *)
Definition converter_argument (key : string) (from : object) (getterPrefix : string)
    (e : value) (to : object) : value :=
  plain [("key", VStr key); ("from", snapshot from); ("getterPrefix", VStr getterPrefix);
         ("enumeration", e); ("to", snapshot to)].

Section Repository.
Context `{Host} `{Concrete}.

Definition ObjectNotFoundError : errClass := errors.ObjectNotFoundError.
Definition ObjectExistsError : errClass := errors.ObjectNotFoundError.

(** A value inside a template literal. *)
Definition interpolate (v : value) : string :=
  match v with
  | VStr s => s
  | _ => ToString v
  end.

(** [obj[k] = v] for a key that the caller supplies.  A field of the
    object's own is overwritten; otherwise a setter that the class defines
    under the name runs, and an accessor without one makes the assignment
    throw (the trait is strict code); otherwise the field is created. *)
Definition set_property (l : loc) (k : string) (v : value) : M unit := fun σ =>
  let o := object_at σ l in
  let store (o' : object) : result unit * Repo :=
    (Ok tt, with_heap (<[l := o']> (heap σ)) σ) in
  let created := mkObject (oclass o) (assign_prop k v (ofields o)) in
  match lookup_prop k (ofields o) with
  | Some _ => store created
  | None =>
      match class_chain (oclass o) k with
      | Some (Accessor _ (Some setter)) =>
          match run_setter setter o v with
          | Ok o' => store o'
          | Throw e => (Throw e, σ)
          end
      | Some (Accessor _ None) => (Throw (mkError TypeError_ (VStr k)), σ)
      | Some (Method _) => store created
      | None =>
          if String.eqb k "__proto__" then store (set_prototype o v) else store created
      end
  end.

(** The value a mapper is as a function. *)
Definition scalar_value (mapper : scalar) : value :=
  match mapper with
  | NoOp => VFun "it => it" [("name", VStr ""); ("length", VNum (NInt 1))]
  | MomentOf => VFun "it => this._toMoment(it)" [("name", VStr ""); ("length", VNum (NInt 1))]
  | Fn v | Inherited v => v
  end.

(** [mapper(arg1, ..., argn)] for the function a cached mapper closes over. *)
Definition call_scalar (mapper : scalar) (args : list value) : result value :=
  match mapper with
  | NoOp => Ok (hd VUndefined args)
  | MomentOf => _toMoment (hd VUndefined args)
  | Fn v | Inherited v => call_function v args
  end.

(** [mapper.name] *)
Definition scalar_name (mapper : scalar) : string :=
  interpolate (get (scalar_value mapper) "name").

(** [_getMapper (mapper, name)]: what [this._mapperCache[name]] holds, or
    else the closure around [mapper], made and stored.  The closure is
    identified with the function it closes over.  The cache is an object
    literal, so a name of [Object.prototype] finds what is inherited under
    it, and nothing is stored. *)
Definition _getMapper (mapper : scalar) (name : string) : M scalar :=
  let name := if String.eqb name "" then scalar_name mapper else name in
  cache ← gets _mapperCache;
  match cache !! name with
  | Some cached => mret cached
  | None =>
      match Object_prototype name with
      | Some found => mret (Inherited found)
      | None =>
          modify (with_mapperCache (<[name := mapper]> cache));;
          mret mapper
      end
  end.

Definition _noOpMapper : M scalar := _getMapper NoOp "noop".
Definition _toMomentMapper : M scalar := _getMapper MomentOf "moment".

(** [_toEnumMapper ({ enumeration })] *)
Definition _toEnumMapper (enumeration : value) : M scalar :=
  _getMapper (Fn (get enumeration "of")) ("enum:" +:+ interpolate (get enumeration "name")).

(** The calls of [value.map(mapper)]: the callback receives the element,
    its index and the array. *)
Fixpoint map_elements (mapper : scalar) (whole : value) (i : Z) (elems : list value)
  : result (list value) :=
  match elems with
  | [] => Ok []
  | x :: xs =>
      y ← call_scalar mapper [x; VNum (NInt i); whole];
      ys ← map_elements mapper whole (i + 1) xs;
      mret (y :: ys)
  end.

(** [value.map(mapper)]: a callback that is no function is refused before
    any element is visited. *)
Definition array_map (mapper : scalar) (whole : value) (i : Z) (elems : list value)
  : result (list value) :=
  match typeof (scalar_value mapper) with
  | TFunction => map_elements mapper whole i elems
  | _ => Throw (mkError TypeError_ (scalar_value mapper))
  end.

(** The closure [_getMapper] returns, applied to [{ key, from, getterPrefix }]. *)
Definition call_cached (mapper : scalar) (key : string) (from : object) (getterPrefix : string)
  : result value :=
  value ← get_property (snapshot from) (getterPrefix +:+ key);
  if is_undefined value then Ok value
  else match value with
       | VArr elems => VArr <$> array_map mapper value 0 elems
       | _ => call_scalar mapper [value]
       end.

(** [map({ key, from, getterPrefix, enumeration: e, to })] *)
Definition call_converter (map : converter) (key : string) (from : loc) (getterPrefix : string)
    (e : value) (to : loc) : M value :=
  from_o ← deref from;
  to_o ← deref to;
  match map with
  | Cached (Inherited found) =>
      lift (call_function found [converter_argument key from_o getterPrefix e to_o])
  | Cached mapper => lift (call_cached mapper key from_o getterPrefix)
  | Custom f => lift (call_function f [converter_argument key from_o getterPrefix e to_o])
  end.

(** [Array.isArray(map?.enumValues) && typeof map?.enumValues[0] === 'object'] *)
Definition is_enum_class (map : value) : bool :=
  match get map "enumValues" with
  | VArr elems => jstype_eqb (typeof (nth 0 elems VUndefined)) TObject
  | _ => false
  end.

(** The first statement of the loop body:
    [(mappers && mappers[key]) || mappers]. *)
Definition candidate (mappers : value) (key : string) : result value :=
  if truthy mappers
  then entry ← get_property mappers key; mret (js_or entry mappers)
  else Ok mappers.

(** The converter the loop body settles on for [key], with the
    enumeration [e] it found, if any. *)
Definition resolve (mappers : value) (key : string) : M (converter * value) :=
  map ← lift (candidate mappers key);
  if is_enum_class map then
    mapper ← _toEnumMapper map;
    mret (Cached mapper, map)
  else if negb (jstype_eqb (typeof map) TFunction) then
    mapper ← _noOpMapper;
    mret (Cached mapper, VUndefined)
  else mret (Custom map, VUndefined).

(** The callback of the [reduce] in [_mapProps]. *)
Definition mapProps_callback (from to : loc) (setterPrefix getterPrefix : string)
    (mappers : value) (accum : loc) (key : string) : M loc :=
  '(map, e) ← resolve mappers key;
  value ← call_converter map key from getterPrefix e to;
  (if negb (is_undefined value) then set_property to (setterPrefix +:+ key) value else mret tt);;
  mret accum.

(** [_mapProps ({ keys, from, to, setterPrefix, getterPrefix, mappers })] *)
Definition _mapProps (a : mapPropsArgs) : M loc :=
  from ← from_option mret (new_object empty_object) (a_from a);
  to ← from_option mret (new_object empty_object) (a_to a);
  let setterPrefix := default "" (a_setterPrefix a) in
  let getterPrefix := default "" (a_getterPrefix a) in
  keys ← match a_keys a with
         | Keys ks => mret ks
         | OneKey k =>
             if String.eqb k "" then from_o ← deref from; mret (List.map fst (ofields from_o))
             else mret [k]
         | NoKeys => from_o ← deref from; mret (List.map fst (ofields from_o))
         end;
  reduce (mapProps_callback from to setterPrefix getterPrefix (a_mappers a)) keys to.
(** [_prop (name, prefix = '')] *)
Definition _prop (name : string) (prefix : option string) : string :=
  default "" prefix +:+ name.

(** *** Arrays of different lengths *)

(** [it.length] of the array behind a reference. *)
Definition array_length (h : gmap loc (list slot)) (l : loc) : nat :=
  length (default [] (h !! l)).

(** [_getLargestArrayAmong (...arrays)]; a missing argument is [None]. *)
Definition _getLargestArrayAmong (arrs : list (option loc)) : M (option loc) :=
  h ← gets arrays;
  mret (fold_left
          (fun accum next =>
             match accum with
             | Some a =>
                 match next with
                 | Some n => if (array_length h n <=? array_length h a)%nat then accum else next
                 | None => accum
                 end
             | None =>
                 match next with
                 | Some _ => next
                 | None => accum
                 end
             end) arrs None).

(** [it.length = n]: cut, or extend with holes. *)
Definition set_length (n : nat) (a : list slot) : list slot :=
  take n a ++ replicate (n - length a) Hole.

(** [it.fill(v, start)]: every slot from [start] on becomes [v]. *)
Definition fill (v : value) (start : nat) (a : list slot) : list slot :=
  take start a ++ replicate (length a - start) (Elem v).

(** What the body of the [forEach] in [_growAllArraysToLargestAmong]
    does to the array [it]:
    [origLength = it.length; it.length = length; it.fill(undefined, origLength)]. *)
Definition grown (len : nat) (it : list slot) : list slot :=
  let origLength := length it in
  fill VUndefined origLength (set_length len it).

(** The body of the [forEach], on the array behind the reference. *)
Definition grow_one (len : nat) (it : option loc) : M unit :=
  match it with
  | None => mret tt
  | Some l =>
      modify (fun σ =>
        match arrays σ !! l with
        | Some a => with_arrays (<[l := grown len a]> (arrays σ)) σ
        | None => σ
        end)
  end.

(** [arr.forEach(callback)] *)
Fixpoint forEach {A} (callback : A -> M unit) (arr : list A) : M unit :=
  match arr with
  | [] => mret tt
  | x :: xs => callback x;; forEach callback xs
  end.

(** [_growAllArraysToLargestAmong (...arrays)] *)
Definition _growAllArraysToLargestAmong (arrs : list (option loc)) : M unit :=
  if (length arrs =? 0)%nat then mret tt
  else
    largest ← _getLargestArrayAmong arrs;
    h ← gets arrays;
    match largest with
    | None => mret tt
    | Some big =>
        let len := array_length h big in
        if (len =? 0)%nat then mret tt
        else forEach (grow_one len) arrs
    end.

(** *** Persistence *)

Definition DEFAULT_SET_OPTIONS : value := plain [("merge", VBool true)].
Definition _setOptions : value := DEFAULT_SET_OPTIONS.

(** [_translateError (e)] *)
Definition _translateError (e : error) : error := e.

(** [_tryAsync (it)] *)
Definition _tryAsync {A} (it : M A) : M A := fun σ =>
  match it σ with
  | (Ok a, σ') => (Ok a, σ')
  | (Throw x, σ') => (Throw (_translateError x), σ')
  end.

(** An element of [arr.join(sep)]. *)
Definition join_element (v : value) : string :=
  match v with
  | VUndefined | VNull => ""
  | _ => interpolate v
  end.

(** [_docpath (...it)] *)
Definition _docpath (it : list value) : M string :=
  path ← gets _path;
  mret (String.concat "/" (path :: List.map join_element it)).

(** [findById (id)] *)
Definition findById (id : value) : M value :=
  if negb (truthy id) then mret VNull
  else
    _tryAsync (
      path ← _docpath [id];
      docs ← gets documents;
      match docs !! path with
      | Some data => fromDocument_override data "_" "_"
      | None => mret (VBool false)
      end).

(** [getById (id)] *)
Definition getById (id : value) : M value :=
  it ← findById id;
  if negb (truthy it)
  then path ← _docpath [id]; throw (mkError ObjectNotFoundError (VStr path))
  else mret VUndefined.

(** [upsert (entity, options)] *)
Definition upsert (entity : loc) (options : value) : M value :=
  e ← deref entity;
  (if negb (truthy (get (snapshot e) "_id"))
   then n ← gets uuids;
        modify (with_uuids (S n));;
        set_field entity "_id" (VStr (uuid n))
   else mret tt);;
  _tryAsync (
    e ← deref entity;
    path ← gets _path;
    let docpath := String.concat "/" [path; join_element (get (snapshot e) "_id")] in
    doc ← lift (_toDocument (snapshot e));
    docs ← gets documents;
    '(stored, written) ← lift (firestore_set (docs !! docpath) doc (js_or options _setOptions));
    modify (with_documents (<[docpath := stored]> docs));;
    mret written).

(** [insert (entity, options)] *)
Definition insert (entity : loc) (options : value) : M value :=
  e ← deref entity;
  found ← findById (get (snapshot e) "id");
  if truthy found
  then
    name ← lift (constructor_name (snapshot e));
    throw (mkError ObjectExistsError
             (VStr (interpolate name +:+ "@" +:+ interpolate (get (snapshot e) "id"))))
  else upsert entity options.

End Repository.

(** The arguments of a call of [_mapProps] that supplies everything. *)
Definition full_call (keys : list string) (from to : loc) (setterPrefix getterPrefix : string)
    (mappers : value) : mapPropsArgs :=
  mkMapPropsArgs (Keys keys) (Some from) (Some to) (Some setterPrefix) (Some getterPrefix) mappers.


(** ** The specification's own wording, for comparison *)

Section Specification.
Context `{Host}.

(** Glossary: "Absent: sentinel meaning field intentionally not present /
    not to be set, distinct from an explicit null." *)
Definition absent (v : value) : bool :=
  match v with VUndefined => true | _ => false end.

(** §9: "a [Converter] sum type with cases [Identity], [Scalar(kind)],
    [Enumeration(enumRef)], [Custom(fn)]".  The scalar kinds are asked for
    by name; [mapProps] itself never resolves to one. *)
Inductive Converter : Type :=
| Identity
| Enumeration (enumRef : value)
| CustomFn (fn : value).

(** §4.4: "looks like an enumeration class (exposes a non-empty list of
    enumeration-value descriptors)"; a descriptor is an object. *)
Definition looks_like_enumeration (v : value) : bool :=
  match own_property v "enumValues" with
  | Some (VArr (descriptor :: _)) => jstype_eqb (typeof descriptor) TObject
  | _ => false
  end.

(** §4.4: "[converters] is a mapping and has an entry for this key". *)
Definition entry (converters : value) (key : string) : option value :=
  match converters with
  | VObj _ entries => lookup_prop key entries
  | _ => None
  end.

(** §4.4: "Resolution order per key: (a) if [converters] is a mapping and
    has an entry for this key AND that entry looks like an enumeration
    class, build an enumeration converter for it; (b) else if the per-key
    entry (or the whole [converters] argument) is a function, use it;
    (c) else fall back to the identity converter", an enumeration class
    given as [converters] being "an implicit per-field enumeration
    converter". *)
Definition resolution (converters : value) (key : string) : Converter :=
  let subject := default converters (entry converters key) in
  if looks_like_enumeration subject then Enumeration subject
  else if jstype_eqb (typeof subject) TFunction then CustomFn subject
  else Identity.

(** §4.2: "read [sourceObject[gettingPrefix + fieldName]]": the field of
    the source, or what the source exposes under the name. *)
Definition raw_value (source : object) (name : string) : result value :=
  match lookup_prop name (ofields source) with
  | Some v => Ok v
  | None =>
      match inherited (snapshot source) name with
      | Some (Accessor (Some getter) _) => call_getter getter (snapshot source)
      | Some (Method m) => Ok m
      | Some (Accessor None _) | None => Ok VUndefined
      end
  end.

(** §4.2: "All element-wise when the raw value is an array: apply the
    underlying scalar conversion to each element and return a new array";
    as with [Array.prototype.map], the conversion is handed the element,
    its index and the array. *)
Fixpoint each_element (conversion : list value -> result value) (whole : value) (i : Z)
    (elems : list value) : result (list value) :=
  match elems with
  | [] => Ok []
  | x :: rest =>
      match conversion [x; VNum (NInt i); whole] with
      | Throw e => Throw e
      | Ok y =>
          match each_element conversion whole (i + 1) rest with
          | Throw e => Throw e
          | Ok ys => Ok (y :: ys)
          end
      end
  end.

(** §3: a custom converter is "a pure function taking (fieldName,
    sourceObject, prefix)".  The three come as one object, under the
    names [key], [from] and [getterPrefix]; with them come the enumeration
    that was resolved, which is none for a function, and the
    destination. *)
Definition converter_input (fieldName : string) (sourceObject : object) (prefix : string)
    (dest : object) : value :=
  VObj Object_class
    [("key", VStr fieldName); ("from", snapshot sourceObject); ("getterPrefix", VStr prefix);
     ("enumeration", VUndefined); ("to", snapshot dest)].

(** §4.2: what the converter of a key returns.  The identity: "if the raw
    value is absent, return absent; otherwise return unchanged", an array
    as an array of the same elements.  The enumeration: "look up the raw
    value in the supplied enumeration's reverse lookup", which is its
    [of]. *)
Definition conversion (c : Converter) (key : string) (source dest : object)
    (gettingPrefix : string) : result value :=
  match c with
  | CustomFn fn => call_function fn [converter_input key source gettingPrefix dest]
  | Identity => raw_value source (gettingPrefix +:+ key)
  | Enumeration enumRef =>
      let lookup := get enumRef "of" in
      match raw_value source (gettingPrefix +:+ key) with
      | Throw e => Throw e
      | Ok raw =>
          if absent raw then Ok raw
          else match raw with
               | VArr elems =>
                   if jstype_eqb (typeof lookup) TFunction
                   then VArr <$> each_element (call_function lookup) raw 0 elems
                   else Throw (mkError TypeError_ lookup)
               | _ => call_function lookup [raw]
               end
      end
  end.

(** §4.4: "destination field assignment goes through whatever mutation
    mechanism [to] exposes for that field name, not direct low-level slot
    assignment": a field the destination has is overwritten; a setter of
    its class runs, and an accessor without a setter refuses; otherwise
    the field is added. *)
Definition assigned (dest : object) (name : string) (r : value) : result object :=
  let added := mkObject (oclass dest) (assign_prop name r (ofields dest)) in
  if bool_decide (name ∈ List.map fst (ofields dest)) then Ok added
  else match class_chain (oclass dest) name with
       | Some (Accessor _ (Some setter)) => run_setter setter dest r
       | Some (Accessor _ None) => Throw (mkError TypeError_ (VStr name))
       | Some (Method _) => Ok added
       | None => Ok (if String.eqb name "__proto__" then set_prototype dest r else added)
       end.

(** §4.4: "For each key in [keys], in order: resolve its converter, invoke
    it with [(key, from, gettingPrefix)]; if the result is not absent, set
    [to[settingPrefix + key] = result].  Absent results leave the
    destination field untouched."  §7: "a failing converter aborts the
    whole mapping call", and what was set stays set.  The outcome is the
    destination as the call leaves it, and the error if it was aborted.
    When the source and the destination are one and the same object
    ([aliased]), the keys that follow read the source as the assignment
    left it. *)
Fixpoint mapped (keys : list string) (aliased : bool) (source dest : object)
    (settingPrefix gettingPrefix : string) (converters : value) : option error * object :=
  match keys with
  | [] => (None, dest)
  | key :: rest =>
      match conversion (resolution converters key) key source dest gettingPrefix with
      | Throw e => (Some e, dest)
      | Ok r =>
          if absent r
          then mapped rest aliased source dest settingPrefix gettingPrefix converters
          else match assigned dest (settingPrefix +:+ key) r with
               | Throw e => (Some e, dest)
               | Ok dest' =>
                   mapped rest aliased (if aliased then dest' else source) dest'
                     settingPrefix gettingPrefix converters
               end
      end
  end.

(** "the largest length among them" *)
Definition largest_length (h : gmap loc (list slot)) (arrs : list (option loc)) : nat :=
  foldr (fun it acc => match it with
                       | Some l => Nat.max (array_length h l) acc
                       | None => acc
                       end) 0%nat arrs.

End Specification.
(** Modelled from the spec: the Period entity classes
    ([src/main/entities/Period.js] and [DatePeriod.js] are not among the
    sources).  "A composite with an optional begin and optional end, each
    an Instant"; the trait reads them as [_begin] and [_end] and the
    variant name as [constructor.name]. *)
Definition Period (c : class) (begin end_ : option moment) : value :=
  VObj c [("_begin", from_option VMoment VUndefined begin);
          ("_end", from_option VMoment VUndefined end_)].

Definition Period_class : class := mkClass "Period" [].
Definition DatePeriod_class : class := mkClass "DatePeriod" [].

(** The timestamp that holds a given count of epoch milliseconds. *)
Definition timestamp_of_millis (z : Z) : timestamp :=
  mkTimestamp (z / 1000) ((z - z / 1000 * 1000) * Timestamp.MS_TO_NANOS).


(** The timestamp of an instant. *)
Definition timestamp_of_moment (m : moment) : timestamp :=
  match Moment.valueOf m with
  | NInt z => timestamp_of_millis z
  | _ => mkTimestamp 0 0
  end.

(** The [begin]/[end] entry of a period document, present only when set. *)
Definition period_entry (k : string) (o : option moment) : list (string * value) :=
  match o with
  | Some m => [(k, VTimestamp (timestamp_of_moment m))]
  | None => []
  end.

Definition instant_valid (o : option moment) : Prop :=
  match o with
  | Some m => Moment.isValid m = true
  | None => True
  end.

(** ** A small concrete runtime, to run the model on examples *)

Module Example.

(** ["boom"] throws, ["upper"] answers a fixed string, ["DayOfWeek.of"]
    looks a day up by ordinal or name; anything else returns its first
    argument. *)
Definition run_fn (f : fid) (args : list value) : result value :=
  if String.eqb f "boom" then Throw (mkError Error_ (VStr "boom"))
  else if String.eqb f "upper" then Ok (VStr "UPPER")
  else if String.eqb f "DayOfWeek.of" then
    match hd VUndefined args with
    | VNum (NInt 2) | VStr "TUESDAY" => Ok (VEnum "DayOfWeek" "TUESDAY")
    | VNum (NInt 1) | VStr "MONDAY" => Ok (VEnum "DayOfWeek" "MONDAY")
    | v => Throw (mkError Error_ v)
    end
  else Ok (hd VUndefined args).

Definition ReadOnlyPeriod_class : class := mkClass "ReadOnlyPeriod" ["Period"].

Definition members (c : class) (k : string) : option member :=
  if String.eqb (cname c) "To" then
    if String.eqb k "string" then Some (Accessor (Some "To.string") (Some "To.string"))
    else if String.eqb k "sealed" then Some (Accessor (Some "To.sealed") None)
    else None
  else if String.eqb (cname c) "ReadOnlyPeriod" then
    if String.eqb k "_begin" then Some (Accessor (Some "ReadOnlyPeriod._begin") None)
    else None
  else None.

Definition getter (g : fid) (this : value) : result value :=
  if String.eqb g "To.string" then Ok (get this "_string") else Ok VUndefined.

Definition setter (s : fid) (this : object) (v : value) : result object :=
  match v with
  | VStr _ => Ok (mkObject (oclass this) (assign_prop "_string" v (ofields this)))
  | _ => Throw (mkError TypeError_ v)
  end.

(** What walking a library object comes to: a moment has fields that are
    [null], a Date has no fields, an Enum instance has its name. *)
Definition walk (v : value) : result value :=
  match v with
  | VMoment _ => Throw (mkError TypeError_ VNull)
  | VEnum _ n => Ok (plain [("name", VStr n)])
  | _ => Ok (plain [])
  end.

Definition host : Host := {|
  apply_fn := run_fn;
  moment_parse := fun _ => NaN;
  ToNumber := fun _ => NaN;
  ToString := fun _ => "[object Object]";
  lib_document := walk;
  uuid := fun n => "uuid-" +:+ pretty n;
  class_member := members;
  run_getter := getter;
  run_setter := setter;
  set_prototype := fun o _ => o;
  enumerable := fun _ k => negb (bool_decide (k ∈ ["name"; "length"; "prototype"; "of"]));
|}.

(** A repository whose [_fromDocument] wraps the stored document in an
    entity, over a client whose [set] overwrites. *)
Definition concrete : Concrete := {|
  fromDocument_override := fun doc _ _ =>
    mret (VObj (mkClass "Fake" []) [("id", get doc "_id"); ("_id", get doc "_id")]);
  firestore_set := fun _ doc _ => Ok (doc, VUndefined);
|}.

Definition DayOfWeek : value :=
  VFun "DayOfWeek"
    [("name", VStr "DayOfWeek");
     ("length", VNum (NInt 0));
     ("enumValues", VArr [VEnum "DayOfWeek" "SUNDAY"; VEnum "DayOfWeek" "MONDAY";
                          VEnum "DayOfWeek" "TUESDAY"]);
     ("of", VFun "DayOfWeek.of" [("name", VStr "of"); ("length", VNum (NInt 1))])].

(** An empty repository at [/fakes]. *)
Definition repo : Repo := mkRepo ∅ ∅ ∅ "/fakes" ∅ 0.

End Example.

Module MapperExample.
Import Example.

(** A source [{ a: 1, b: 2, c: 3 }] at reference 0 and an empty
    destination at reference 1. *)
Definition source : object :=
  mkObject Object_class [("a", VNum (NInt 1)); ("b", VNum (NInt 2)); ("c", VNum (NInt 3))].

Definition start : Repo :=
  with_heap (<[0%nat := source]> (<[1%nat := empty_object]> ∅)) repo.

(** [{ b: boom }]: the converter of [b] throws. *)
Definition failing_mappers : value := plain [("b", VFun "boom" [("name", VStr "b")])].

Definition after_a : Repo :=
  (_mapProps (H := host) (full_call ["a"] 0%nat 1%nat "" "" failing_mappers) start).2.

(** A caller's function passed as the single converter, as in
    [mappers: ({ key, from }) => ...]: it carries its [name] and its
    [length]. *)
Definition single_function : value :=
  VFun "upper" [("name", VStr "mappers"); ("length", VNum (NInt 1))].

(** A source [{ title: "x", name: "alice" }]. *)
Definition person : object :=
  mkObject Object_class [("title", VStr "x"); ("name", VStr "alice")].

Definition person_start : Repo :=
  with_heap (<[0%nat := person]> (<[1%nat := empty_object]> ∅)) repo.




(** The destination after a call, as a value. *)
Definition destination (r : result loc * Repo) : option value :=
  snapshot <$> (heap r.2 !! 1%nat).

End MapperExample.

Module ArrayExample.

(** [a = [1]] at reference 0 and [b = [1, 2]] at reference 1. *)
Definition start : Repo :=
  with_arrays (<[0%nat := [Elem (VNum (NInt 1))]]>
                 (<[1%nat := [Elem (VNum (NInt 1)); Elem (VNum (NInt 2))]]> ∅))
              Example.repo.

End ArrayExample.

Module PersistenceExample.
Import Example.

(** The entity [Fake { id: "42", _id: "42" }] at reference 0, in a
    repository that already stores a document under [/fakes/42]. *)
Definition entity : object :=
  mkObject (mkClass "Fake" []) [("id", VStr "42"); ("_id", VStr "42")].

Definition stored : Repo :=
  with_documents (<["/fakes/42" := plain [("_id", VStr "42")]]> ∅)
    (with_heap (<[0%nat := entity]> ∅) repo).

End PersistenceExample.

(** ** Reading periods back *)

(** Modelled from the spec: what [new Period()] and [new DatePeriod()]
    make ([src/main/entities/Period.js] and [DatePeriod.js] are not among
    the sources).  "Both begin and end are independently optional; a
    period with neither is valid": a new period has neither. *)
Definition new_Period : object := mkObject Period_class [].
Definition new_DatePeriod : object := mkObject DatePeriod_class [].

Section Closures.
Context `{Host} `{Concrete}.

(** The closure that [_getMapper] makes around [mapper], as the function
    value it is when it is passed on as [mappers]: an arrow function of one
    parameter, without a name. *)
Definition closure_fid (mapper : scalar) : fid :=
  match mapper with
  | NoOp => "_getMapper:noop"
  | MomentOf => "_getMapper:moment"
  | Fn (VFun f _) => "_getMapper:" +:+ f
  | Fn _ | Inherited _ => "_getMapper:"
  end.

Definition closure_value (mapper : scalar) : value :=
  match mapper with
  | Inherited found => found
  | _ => VFun (closure_fid mapper) [("name", VStr ""); ("length", VNum (NInt 1))]
  end.

(** The body of that closure, run on its arguments:
    [({ key, from, getterPrefix }) => { const value = from[`${getterPrefix}${key}`]; ... }] *)
Definition closure_body (mapper : scalar) (args : list value) : result value :=
  let arg := hd VUndefined args in
  match arg with
  | VUndefined | VNull => Throw (mkError TypeError_ arg)
  | _ =>
      let key := get arg "key" in
      let from := get arg "from" in
      let getterPrefix := get arg "getterPrefix" in
      value ← get_property from (interpolate getterPrefix +:+ interpolate key);
      if is_undefined value then Ok value
      else match value with
           | VArr elems => VArr <$> array_map mapper value 0 elems
           | _ => call_scalar mapper [value]
           end
  end.

(** The host runs the trait's moment closure as the function it is. *)
Definition runs_moment_closure : Prop :=
  forall args, apply_fn (closure_fid MomentOf) args = closure_body MomentOf args.

(** [_fromPeriodDocument ({ plain, entity = new Period(), context = {}, setterPrefix = '' } = {})] *)
Definition _fromPeriodDocument (doc : option loc) (entity : option loc)
    (setterPrefix : option string) : M loc :=
  entity ← from_option mret (new_object new_Period) entity;
  let setterPrefix := default "" setterPrefix in
  match doc with
  | None => mret entity
  | Some d =>
      mappers ← _toMomentMapper;
      _mapProps (mkMapPropsArgs (Keys ["begin"; "end"]) (Some d) (Some entity)
                   (Some setterPrefix) (Some "_") (closure_value mappers))
  end.

(** [_fromDatePeriodDocument ({ plain, entity = new DatePeriod(), context = {}, setterPrefix = '' } = {})] *)
Definition _fromDatePeriodDocument (doc : option loc) (entity : option loc)
    (setterPrefix : option string) : M loc :=
  entity ← from_option mret (new_object new_DatePeriod) entity;
  _fromPeriodDocument doc (Some entity) (Some (default "" setterPrefix)).

End Closures.

(** An instant that a [Date] can hold. *)
Definition instant_in_range (o : option moment) : Prop :=
  match o with
  | Some m => exists ms, m_valueOf m = NInt ms /\ Z.abs ms <= Moment.MAX_TIME
  | None => True
  end.

(** The instant read back from storage: the same millisecond, in UTC. *)
Definition read_back (o : option moment) (otherwise : value) : value :=
  match o with
  | Some m => VMoment (mkMoment (m_valueOf m) true)
  | None => otherwise
  end.

(** ** Where documents are stored *)

Section Paths.
Context `{Host}.

(** The path of the document [findById] and [upsert] address for an
    identifier. *)
Definition document_path (σ : Repo) (id : value) : string :=
  String.concat "/" [_path σ; join_element id].

(** The state [upsert] works in once the entity has its identifier. *)
Definition identified (entity : loc) (σ : Repo) : Repo :=
  if truthy (get (snapshot (object_at σ entity)) "_id") then σ
  else (set_field entity "_id" (VStr (uuid (uuids σ))) (with_uuids (S (uuids σ)) σ)).2.

End Paths.

(** ** More examples *)

Module MoreExamples.
Import Example.

(** A host that runs the trait's moment closure, and everything else as
    [Example.host] does. *)
Definition closure_host : Host := {|
  apply_fn := fun f args =>
    if String.eqb f (closure_fid MomentOf)
    then closure_body (H := host) MomentOf args
    else run_fn f args;
  moment_parse := fun _ => NaN;
  ToNumber := fun _ => NaN;
  ToString := fun _ => "[object Object]";
  lib_document := walk;
  uuid := fun n => "uuid-" +:+ pretty n;
  class_member := members;
  run_getter := getter;
  run_setter := setter;
  set_prototype := fun o _ => o;
  enumerable := fun _ k => negb (bool_decide (k ∈ ["name"; "length"; "prototype"; "of"]));
|}.

(** The instant 2020-01-01T00:00:00Z and the period that begins then. *)
Definition new_year : moment := mkMoment (NInt 1577836800000) false.
Definition open_period : value := Period Period_class (Some new_year) None.

(** The stored document of that period at reference 0, and a new Period
    at reference 1. *)
Definition period_store : Repo :=
  with_heap
    (<[0%nat := mkObject Object_class
                  [("_type", VStr "Period");
                   ("_begin", VTimestamp (mkTimestamp 1577836800 0))]]>
       (<[1%nat := new_Period]> ∅))
    repo.

(** The same document, and at reference 1 an entity whose class answers
    to [_begin] with a getter alone. *)
Definition read_only_store : Repo :=
  with_heap
    (<[0%nat := mkObject Object_class
                  [("_type", VStr "Period");
                   ("_begin", VTimestamp (mkTimestamp 1577836800 0))]]>
       (<[1%nat := mkObject ReadOnlyPeriod_class []]> ∅))
    repo.

(** An entity with an Enum instance, an instant, a function and an
    [undefined] field. *)
Definition rich_entity : value :=
  VObj (mkClass "Person" [])
    [("name", VStr "Alice");
     ("day", VEnum "DayOfWeek" "TUESDAY");
     ("born", VMoment new_year);
     ("greet", VFun "greet" []);
     ("nick", VUndefined);
     ("tags", VArr [VStr "a"; VDate (NInt 0)])].

Definition rich_document : value :=
  plain [("name", VStr "Alice");
         ("day", VStr "TUESDAY");
         ("born", VTimestamp (mkTimestamp 1577836800 0));
         ("tags", VArr [VStr "a"; VTimestamp (mkTimestamp 0 0)])].

(** Another enumeration that calls itself DayOfWeek. *)
Definition OtherDayOfWeek : value :=
  VFun "OtherDayOfWeek"
    [("name", VStr "DayOfWeek");
     ("enumValues", VArr [VEnum "DayOfWeek" "LUNDI"]);
     ("of", VFun "OtherDayOfWeek.of" [("name", VStr "of")])].

(** [Fake { id: "7" }] at reference 0, not stored yet. *)
Definition unsaved : Repo :=
  with_heap (<[0%nat := mkObject (mkClass "Fake" []) [("id", VStr "7"); ("_id", VStr "7")]]> ∅)
    repo.

(** A source [{ enumeration: 2 }] at reference 0 and an empty destination
    at reference 1. *)
Definition enum_store : Repo :=
  with_heap (<[0%nat := mkObject Object_class [("enumeration", VNum (NInt 2))]]>
               (<[1%nat := empty_object]> ∅))
    repo.

End MoreExamples.

(** ** Trees and documents *)

(** No Enum instance, moment or Date is left anywhere in the arrays and
    the fields of the value. *)
Fixpoint no_domain_values (v : value) : bool :=
  match v with
  | VEnum _ _ | VMoment _ | VDate _ => false
  | VArr elems => forallb no_domain_values elems
  | VObj _ props => forallb (fun '(_, x) => no_domain_values x) props
  | _ => true
  end.

(** A document as Firestore is to store it: primitives and timestamps,
    arrays of documents, and plain objects whose fields, each under a key
    of its own, hold documents and never [undefined] or a function.
    No [null], no function and no class instance occurs in it. *)
Fixpoint is_document (v : value) : bool :=
  match v with
  | VUndefined | VBool _ | VNum _ | VStr _ | VTimestamp _ => true
  | VArr elems => forallb is_document elems
  | VObj c props =>
      bool_decide (c = Object_class)
      && bool_decide (NoDup (List.map fst props))
      && forallb (fun '(_, x) => persistable x && is_document x) props
  | VNull | VFun _ _ | VEnum _ _ | VMoment _ | VDate _ => false
  end.

(** The callback of the [reduce] in [_getLargestArrayAmong]. *)
Definition larger_of (h : gmap loc (list slot)) (accum next : option loc) : option loc :=
  match accum with
  | Some a =>
      match next with
      | Some n => if (array_length h n <=? array_length h a)%nat then accum else next
      | None => accum
      end
  | None => match next with Some _ => next | None => accum end
  end.

(** ** The mapper registry over time *)

(** The names the trait's own mappers are cached under hold the functions
    the trait caches there: the identity under [noop], the instant
    normalizer under [moment].  The constructor's empty cache is such a
    registry. *)
Definition registry_ok (σ : Repo) : Prop :=
  (forall c, _mapperCache σ !! "noop" = Some c -> c = NoOp)
  /\ (forall c, _mapperCache σ !! "moment" = Some c -> c = MomentOf).

(** From one state to a later one: every cached mapper is still cached
    under its name, and nothing but the heap and the cache has changed. *)
Definition registry_grows (σ σ' : Repo) : Prop :=
  (forall name c, _mapperCache σ !! name = Some c -> _mapperCache σ' !! name = Some c)
  /\ arrays σ' = arrays σ
  /\ documents σ' = documents σ
  /\ _path σ' = _path σ
  /\ uuids σ' = uuids σ.

(** A step that keeps the registry growing and in order. *)
Definition orderly (σ σ' : Repo) : Prop :=
  registry_grows σ σ' /\ (registry_ok σ -> registry_ok σ').

(** [Object.keys(from)] *)
Definition own_keys (o : object) : list string := List.map fst (ofields o).



(** ** What a mapping call relies on *)

Section Conditions.
Context `{Host}.

(** A name under which an assignment to the object stores a field: the
    object has the field, or nothing on its prototype chain answers to
    the name with an accessor. *)
Definition data_slot (o : object) (k : string) : bool :=
  match lookup_prop k (ofields o) with
  | Some _ => true
  | None =>
      match class_chain (oclass o) k with
      | Some (Accessor _ _) => false
      | Some (Method _) => true
      | None => negb (String.eqb k "__proto__")
      end
  end.

(** Reading the object under the name returns. *)
Definition readable (o : object) (k : string) : Prop :=
  exists v, get_property (snapshot o) k = Ok v.

(** Reading [converters[key]] finds the entry of the mapping, a converter,
    or else nothing: no property of a function, no inherited method and
    no entry that is [null] or [undefined] comes up under the key. *)
Definition reads_entries (converters : value) (key : string) : Prop :=
  truthy converters = true ->
  exists r, get_property converters key = Ok r
            /\ match entry converters key with
               | Some e => r = e /\ truthy e = true
               | None => truthy r = false
               end.

(** The name an enumeration's mapper is cached under. *)
Definition enum_cache_name (enumeration : value) : string :=
  "enum:" +:+ interpolate (get enumeration "name").

(** The enumerations that the keys resolve to agree with the cache and
    with one another: what is cached under the name of one is the mapper
    of its [of], and two of the same name have the same [of]. *)
Definition enumerations_cached_ok (σ : Repo) (converters : value) (keys : list string) : Prop :=
  forall key enumRef,
    key ∈ keys -> resolution converters key = Enumeration enumRef ->
    (forall c, _mapperCache σ !! enum_cache_name enumRef = Some c -> c = Fn (get enumRef "of"))
    /\ (forall key' enumRef',
          key' ∈ keys -> resolution converters key' = Enumeration enumRef' ->
          enum_cache_name enumRef' = enum_cache_name enumRef ->
          get enumRef' "of" = get enumRef "of").

End Conditions.

(** ** Properties of the time normalizer *)

Section TimeProperties.
Context `{Host}.

Lemma millis_remainder_bounds (z : Z) : 0 <= z - z / 1000 * 1000 <= 999.
Proof.
  pose proof (Z.mod_pos_bound z 1000 ltac:(lia)) as Hb.
  rewrite Z.mod_eq in Hb by lia. lia.
Qed.

Lemma safe_spec (z : Z) : safe z = true <-> Z.abs z < 9007199254740992.
Proof. unfold safe. apply Z.ltb_lt. Qed.

Lemma validateInteger_in_range (z lo hi : Z) :
  safe z = true ->
  lo <= z <= hi ->
  Timestamp.validateInteger (VNum (NInt z)) (Some lo) (Some hi) = Ok z.
Proof.
  intros Hsafe [Hlo Hhi]. unfold Timestamp.validateInteger, integer_value. rewrite Hsafe. simpl.
  destruct (Z.ltb_spec z lo); [lia|].
  destruct (Z.ltb_spec hi z); [lia|]. reflexivity.
Qed.

Lemma validateInteger_unbounded (z : Z) :
  safe z = true -> Timestamp.validateInteger (VNum (NInt z)) None None = Ok z.
Proof.
  intros Hsafe. unfold Timestamp.validateInteger, integer_value. by rewrite Hsafe.
Qed.

(** On an integer within the exact range, [fromMillis] splits it into
    seconds and the nanoseconds of the remaining milliseconds. *)
Lemma fromMillis_int (z : Z) :
  safe z = true ->
  Timestamp.fromMillis (NInt z) = Ok (timestamp_of_millis z).
Proof.
  intros Hsafe. unfold Timestamp.fromMillis, Timestamp.new. rewrite Hsafe.
  pose proof (millis_remainder_bounds z) as Hb.
  apply safe_spec in Hsafe.
  rewrite validateInteger_unbounded by (apply safe_spec; lia).
  cbn [mbind result_bind].
  rewrite validateInteger_in_range.
  - reflexivity.
  - apply safe_spec. unfold Timestamp.MS_TO_NANOS. lia.
  - unfold Timestamp.MS_TO_NANOS. lia.
Qed.

Lemma fromMillis_NaN : Timestamp.fromMillis NaN = Throw (mkError Error_ (VNum NaN)).
Proof. reflexivity. Qed.



(** A number that came out of the arithmetic of doubles is no [NInt]. *)
Lemma of_double_not_NInt (f : Double.double) (z : Z) : of_double f <> NInt z.
Proof. unfold of_double. by destruct (Double.is_nan f). Qed.

(** When [toMillis] answers an integer, it has computed it exactly. *)
Lemma toMillis_NInt_inv (ts : timestamp) (ms : Z) :
  Timestamp.toMillis ts = NInt ms ->
  ms = _seconds ts * 1000 + _nanoseconds ts / Timestamp.MS_TO_NANOS /\ safe ms = true.
Proof.
  unfold Timestamp.toMillis. destruct (Timestamp.exact_millis ts) eqn:Hexact.
  - intros [= <-]. split; [reflexivity|].
    unfold Timestamp.exact_millis in Hexact. by apply andb_prop in Hexact as [_ Hsafe].
  - intros Hf. by apply of_double_not_NInt in Hf.
Qed.

(** The milliseconds of a well-formed timestamp within the range of dates
    are exact. *)
Lemma toMillis_exact (ts : timestamp) :
  Timestamp.wf ts ->
  Z.abs (_seconds ts) <= 8640000000000 ->
  Timestamp.toMillis ts = NInt (_seconds ts * 1000 + _nanoseconds ts / Timestamp.MS_TO_NANOS).
Proof.
  intros Hwf Hrange. unfold Timestamp.toMillis, Timestamp.exact_millis, safe.
  unfold Timestamp.wf in Hwf. unfold Timestamp.MS_TO_NANOS.
  assert (0 <= _nanoseconds ts / 1000000 <= 999) as Hq.
  { split; [apply Z.div_pos; lia|].
    enough (_nanoseconds ts / 1000000 < 1000) by lia. apply Z.div_lt_upper_bound; lia. }
  destruct (Z.ltb_spec (Z.abs (_seconds ts) * 1000) 72057594037927936); [|lia].
  destruct (Z.leb_spec (Z.abs (_nanoseconds ts)) 999999999); [|lia].
  destruct (Z.ltb_spec (Z.abs (_seconds ts * 1000 + _nanoseconds ts / 1000000))
              9007199254740992); [|lia].
  reflexivity.
Qed.

Lemma toMillis_of_millis (z : Z) :
  safe z = true ->
  Timestamp.toMillis (timestamp_of_millis z) = NInt z.
Proof.
  intros Hsafe. apply safe_spec in Hsafe.
  pose proof (millis_remainder_bounds z) as Hb.
  unfold Timestamp.toMillis, Timestamp.exact_millis, safe, timestamp_of_millis,
    Timestamp.MS_TO_NANOS.
  cbn [_seconds _nanoseconds].
  assert ((z - z / 1000 * 1000) * 1000000 / 1000000 = z - z / 1000 * 1000) as ->
    by (apply Z.div_mul; lia).
  replace (z / 1000 * 1000 + (z - z / 1000 * 1000)) with z by lia.
  destruct (Z.ltb_spec (Z.abs (z / 1000) * 1000) 72057594037927936); [|lia].
  destruct (Z.leb_spec (Z.abs ((z - z / 1000 * 1000) * 1000000)) 999999999); [|lia].
  destruct (Z.ltb_spec (Z.abs z) 9007199254740992); [|lia].
  reflexivity.
Qed.

(** What a [Date] keeps of a number is an integer within its range. *)
Lemma TimeClip_NInt_inv (n : number) (z : Z) :
  Moment.TimeClip n = NInt z -> Z.abs z <= Moment.MAX_TIME.
Proof.
  unfold Moment.TimeClip. destruct n as [z'| |f].
  - destruct (Z.leb_spec (Z.abs z') Moment.MAX_TIME); [by intros [= <-] | discriminate].
  - discriminate.
  - destruct (Double.truncate f) as [z'|]; [|discriminate].
    destruct (Z.leb_spec (Z.abs z') Moment.MAX_TIME); [by intros [= <-] | discriminate].
Qed.

Lemma TimeClip_not_NFloat (n : number) (f : Double.double) : Moment.TimeClip n <> NFloat f.
Proof.
  unfold Moment.TimeClip. destruct n as [z'| |f']; [by destruct (_ <=? _) | done |].
  destruct (Double.truncate f') as [z'|]; [by destruct (_ <=? _) | done].
Qed.

Lemma TimeClip_in_range (z : Z) :
  Z.abs z <= Moment.MAX_TIME -> Moment.TimeClip (NInt z) = NInt z.
Proof.
  intros Hrange. unfold Moment.TimeClip.
  destruct (Z.leb_spec (Z.abs z) Moment.MAX_TIME); [reflexivity | lia].
Qed.

Lemma TimeClip_idempotent (n : number) :
  Moment.TimeClip (Moment.TimeClip n) = Moment.TimeClip n.
Proof.
  destruct (Moment.TimeClip n) as [z| |f] eqn:Hclip.
  - apply TimeClip_in_range. by apply (TimeClip_NInt_inv n).
  - reflexivity.
  - by apply TimeClip_not_NFloat in Hclip.
Qed.

Lemma in_range_safe (z : Z) : Z.abs z <= Moment.MAX_TIME -> safe z = true.
Proof. intros Hrange. apply safe_spec. unfold Moment.MAX_TIME in Hrange. lia. Qed.

(** The value of a valid moment is an integer within the range of dates. *)
Lemma isValid_valueOf (m : moment) :
  Moment.isValid m = true ->
  exists z, Moment.valueOf m = NInt z /\ Z.abs z <= Moment.MAX_TIME.
Proof.
  unfold Moment.isValid. destruct (Moment.valueOf m) as [z| |f] eqn:Hv; try discriminate.
  intros _. exists z. split; [reflexivity|]. by apply (TimeClip_NInt_inv (m_valueOf m)).
Qed.

(** Converting a timestamp is rebuilding it from its milliseconds. *)
Lemma _toTimestamp_timestamp (ts : timestamp) (ms : Z) :
  Timestamp.toMillis ts = NInt ms ->
  _toTimestamp (VTimestamp ts) = Ok (VTimestamp (timestamp_of_millis ms)).
Proof.
  intros Hms. destruct (toMillis_NInt_inv ts ms Hms) as [_ Hsafe].
  unfold _toTimestamp. cbn [as_number]. rewrite Hms, fromMillis_int by done. reflexivity.
Qed.

Lemma _toMoment_timestamp (ts : timestamp) :
  _toMoment (VTimestamp ts)
  = let m := moment_utc (VNum (Timestamp.toMillis ts)) in
    if Moment.isValid m then Ok (VMoment m)
    else Throw (mkError IllegalArgumentError (VNum (Timestamp.toMillis ts))).
Proof. reflexivity. Qed.

(** The moment that [moment.utc] makes of an integer within range. *)
Lemma moment_utc_in_range (ms : Z) :
  Z.abs ms <= Moment.MAX_TIME ->
  moment_utc (VNum (NInt ms)) = mkMoment (NInt ms) true
  /\ Moment.isValid (mkMoment (NInt ms) true) = true.
Proof.
  intros Hrange. unfold moment_utc, Moment.isValid, Moment.valueOf. cbn [m_valueOf].
  by rewrite !TimeClip_in_range.
Qed.

(** C3.  Converting an instant to a storage-native timestamp and back
    gives the instant again, at its millisecond value and in UTC: the
    round trip through [_toTimestamp] and [_toMoment] loses nothing at
    millisecond granularity. *)
Theorem toMoment_toTimestamp_roundtrip (t : moment) (ms : Z) :
  m_valueOf t = NInt ms ->
  Z.abs ms <= Moment.MAX_TIME ->
  (stored ← _toTimestamp (VMoment t); _toMoment stored)
  = Ok (VMoment (mkMoment (NInt ms) true)).
Proof.
  intros Hval Hrange.
  unfold _toTimestamp, Moment.valueOf. rewrite Hval, TimeClip_in_range by done.
  cbn [as_number].
  rewrite fromMillis_int by by apply in_range_safe.
  cbn [fmap result_fmap try_catch mbind result_bind].
  rewrite _toMoment_timestamp, toMillis_of_millis by by apply in_range_safe.
  cbn zeta. destruct (moment_utc_in_range ms Hrange) as [-> ->]. reflexivity.
Qed.

(** C4 (as the code has it).  A storage-native timestamp given to
    [_toTimestamp] is rebuilt from its epoch-millisecond value: the
    result has the seconds of the input and its nanoseconds cut down to
    whole milliseconds, hence the same millisecond value, and it is the
    input itself exactly when the input carries no sub-millisecond
    nanoseconds.  The timestamp is one that the constructor accepts,
    with its seconds within the range of dates, where the arithmetic of
    doubles is exact. *)
Theorem toTimestamp_of_timestamp_rebuilds (ts : timestamp) :
  Timestamp.wf ts ->
  Z.abs (_seconds ts) <= 8640000000000 ->
  exists r,
    _toTimestamp (VTimestamp ts) = Ok (VTimestamp r)
    /\ _seconds r = _seconds ts
    /\ _nanoseconds r = _nanoseconds ts / Timestamp.MS_TO_NANOS * Timestamp.MS_TO_NANOS
    /\ Timestamp.toMillis r = Timestamp.toMillis ts
    /\ _nanoseconds r mod Timestamp.MS_TO_NANOS = 0
    /\ (r = ts <-> _nanoseconds ts mod Timestamp.MS_TO_NANOS = 0).
Proof.
  intros Hwf Hrange.
  pose proof (toMillis_exact ts Hwf Hrange) as Hms.
  destruct ts as [s n]. unfold Timestamp.wf in Hwf. cbn [_seconds _nanoseconds] in *.
  unfold Timestamp.MS_TO_NANOS in *.
  set (q := n / 1000000) in *.
  assert (0 <= q <= 999) as Hq.
  { subst q. split; [apply Z.div_pos; lia|].
    enough (n / 1000000 < 1000) by lia. apply Z.div_lt_upper_bound; lia. }
  assert ((s * 1000 + q) / 1000 = s) as Hdiv.
  { symmetry. apply (Z.div_unique _ _ _ q); lia. }
  destruct (toMillis_NInt_inv _ _ Hms) as [_ Hsafe].
  exists (timestamp_of_millis (s * 1000 + q)).
  split; [by apply _toTimestamp_timestamp|].
  unfold timestamp_of_millis, Timestamp.MS_TO_NANOS. cbn [_seconds _nanoseconds].
  rewrite Hdiv. replace (s * 1000 + q - s * 1000) with q by lia.
  split; [reflexivity|]. split; [reflexivity|].
  split.
  { rewrite Hms.
    change (mkTimestamp s (q * 1000000)) with (mkTimestamp s (q * Timestamp.MS_TO_NANOS)).
    replace (mkTimestamp s (q * Timestamp.MS_TO_NANOS))
      with (timestamp_of_millis (s * 1000 + q)).
    - by apply toMillis_of_millis.
    - unfold timestamp_of_millis, Timestamp.MS_TO_NANOS. rewrite Hdiv. f_equal. lia. }
  split; [by rewrite Z.mod_mul|].
  split.
  - intros [= Hn]. rewrite <- Hn. by rewrite Z.mod_mul.
  - intros Hmod. f_equal. subst q.
    rewrite Z.mod_eq in Hmod by lia. lia.
Qed.

(** C5.  For any two numbers [s] and [n], [_toMoment] of the plain
    timestamp-shaped object holding them is [_toMoment] of the real
    timestamp constructed from them (a failing construction fails both
    the same way). *)
Theorem toMoment_timestamp_shaped (s n : number) :
  _toMoment (plain [("_seconds", VNum s); ("_nanoseconds", VNum n)])
  = (ts ← Timestamp.new (VNum s) (VNum n); _toMoment (VTimestamp ts)).
Proof.
  unfold _toMoment at 1.
  change (truthy (plain _)) with true. cbn [negb].
  change (truthy (_isTimestampLike _ _)) with true. cbn iota.
  unfold _fromTimestampDocument. change (truthy (plain _)) with true. cbn iota.
  change (get (plain _) "_seconds") with (VNum s).
  change (get (plain _) "_nanoseconds") with (VNum n).
  destruct (Timestamp.new (VNum s) (VNum n)) as [ts|e]; reflexivity.
Qed.

(** The timestamp of a valid instant is what [fromMillis] makes of its
    value. *)
Lemma fromMillis_valueOf (m : moment) :
  Moment.isValid m = true ->
  Timestamp.fromMillis (Moment.valueOf m) = Ok (timestamp_of_moment m).
Proof.
  intros Hv. destruct (isValid_valueOf m Hv) as (z & Hz & Hrange).
  unfold timestamp_of_moment. rewrite Hz. apply fromMillis_int. by apply in_range_safe.
Qed.

(** What [_toTree] makes of a period: each instant becomes its timestamp. *)
Lemma _toTree_Period (c : class) (b e : option moment) :
  instant_valid b -> instant_valid e ->
  _toTree (Period c b e)
  = Ok (VObj c [("_begin", from_option (fun m => VTimestamp (timestamp_of_moment m)) VUndefined b);
                ("_end", from_option (fun m => VTimestamp (timestamp_of_moment m)) VUndefined e)]).
Proof.
  intros Hb He.
  assert (forall o, instant_valid o ->
            cloneDeepWith_at false _toTreeCustomizer (from_option VMoment VUndefined o)
            = Ok (from_option (fun m => VTimestamp (timestamp_of_moment m)) VUndefined o)) as Hfield.
  { intros [m|] Hv; [|reflexivity]. cbn in Hv.
    cbn [from_option cloneDeepWith_at _toTreeCustomizer].
    by rewrite fromMillis_valueOf. }
  unfold _toTree, cloneDeepWith, Period. cbn [cloneDeepWith_at _toTreeCustomizer].
  rewrite (Hfield b Hb), (Hfield e He). reflexivity.
Qed.

Lemma _toTimestamp_of_moment (m : moment) :
  Moment.isValid m = true ->
  _toTimestamp (VTimestamp (timestamp_of_moment m)) = Ok (VTimestamp (timestamp_of_moment m)).
Proof.
  intros Hv. destruct (isValid_valueOf m Hv) as (z & Hz & Hrange).
  unfold timestamp_of_moment. rewrite Hz.
  apply _toTimestamp_timestamp, toMillis_of_millis. by apply in_range_safe.
Qed.

(** The document of a period. *)
Lemma _toDocument_Period (c : class) (b e : option moment) :
  instanceof (Period c b e) "Period" || instanceof (Period c b e) "DatePeriod" = true ->
  instant_valid b -> instant_valid e ->
  _toDocument (Period c b e)
  = Ok (plain (("_type", VStr (cname c)) :: period_entry "_begin" b ++ period_entry "_end" e)).
Proof.
  intros Hinst Hb He.
  unfold _toDocument. rewrite _toTree_Period by done. cbn [mbind result_bind].
  cbn [_toFirestoreDocument]. unfold Period, instanceof in Hinst. unfold instanceof at 1 2.
  rewrite Hinst. unfold _toPeriodDocument. cbn [constructor_name mbind result_bind].
  set (vb := from_option (fun m => VTimestamp (timestamp_of_moment m)) VUndefined b).
  set (ve := from_option (fun m => VTimestamp (timestamp_of_moment m)) VUndefined e).
  change (get (VObj c [("_begin", vb); ("_end", ve)]) "_begin") with vb.
  change (get (VObj c [("_begin", vb); ("_end", ve)]) "_end") with ve.
  subst vb ve.
  destruct b as [mb|], e as [me|]; cbn in Hb, He; cbn [from_option truthy];
    repeat (rewrite _toTimestamp_of_moment by done); reflexivity.
Qed.

(** C6.  [_toDocument] of a period is the document that holds the
    variant name, then the begin timestamp if begin is set, then the end
    timestamp if end is set: with only begin set there is no end key, and
    with neither set the document is the variant name alone. *)
Theorem toDocument_period (c : class) (b e : option moment) :
  instanceof (Period c b e) "Period" || instanceof (Period c b e) "DatePeriod" = true ->
  instant_valid b -> instant_valid e ->
  _toDocument (Period c b e)
  = Ok (plain (("_type", VStr (cname c)) :: period_entry "_begin" b ++ period_entry "_end" e))
  /\ (e = None ->
      forall doc, _toDocument (Period c b e) = Ok doc -> get doc "_end" = VUndefined
                  /\ forall fields, doc = plain fields -> "_end" ∉ List.map fst fields)
  /\ (b = None -> e = None ->
      _toDocument (Period c b e) = Ok (plain [("_type", VStr (cname c))])).
Proof.
  intros Hinst Hb He.
  pose proof (_toDocument_Period c b e Hinst Hb He) as Hdoc.
  split; [exact Hdoc|]. split.
  - intros -> doc Hd. rewrite Hdoc in Hd. injection Hd as <-.
    split.
    + destruct b; reflexivity.
    + intros fields Hf. injection Hf as <-.
      destruct b; cbn; rewrite !not_elem_of_cons;
        repeat split; try discriminate; apply not_elem_of_nil.
  - intros -> ->. exact Hdoc.
Qed.

End TimeProperties.

(** C3 at 2020-01-01T00:00:00.123Z, read in local mode. *)
Lemma toMoment_toTimestamp_roundtrip_witness :
  (stored ← _toTimestamp (H := Example.host) (VMoment (mkMoment (NInt 1577836800123) false));
   _toMoment (H := Example.host) stored)
  = Ok (VMoment (mkMoment (NInt 1577836800123) true)).
Proof.
  apply (toMoment_toTimestamp_roundtrip (H := Example.host)
           (mkMoment (NInt 1577836800123) false) 1577836800123).
  - reflexivity.
  - unfold Moment.MAX_TIME. lia.
Defined.

(** C4 fails as stated: one nanosecond past the epoch comes back as the
    epoch itself. *)
Lemma toTimestamp_drops_nanoseconds :
  _toTimestamp (H := Example.host) (VTimestamp (mkTimestamp 0 1))
  <> Ok (VTimestamp (mkTimestamp 0 1)).
Proof. vm_compute. discriminate. Qed.

(** The nanoseconds are cut down, not rounded: one nanosecond short of a
    second comes back as 999 milliseconds. *)
Lemma toTimestamp_cuts_down_to_the_millisecond :
  _toTimestamp (H := Example.host) (VTimestamp (mkTimestamp 0 999999999))
  = Ok (VTimestamp (mkTimestamp 0 999000000)).
Proof. vm_compute. reflexivity. Qed.

(** A count of milliseconds with a fraction keeps the fraction as
    nanoseconds. *)
Lemma toTimestamp_of_a_fraction :
  _toTimestamp (H := Example.host)
    (VNum (NFloat (PrimFloat.div (Double.of_Z 3) (Double.of_Z 2))))
  = Ok (VTimestamp (mkTimestamp 0 1500000)).
Proof. vm_compute. reflexivity. Qed.

Lemma toTimestamp_of_timestamp_rebuilds_witness :
  exists r,
    _toTimestamp (H := Example.host) (VTimestamp (mkTimestamp 5 123456789)) = Ok (VTimestamp r)
    /\ _seconds r = 5
    /\ _nanoseconds r = 123456789 / Timestamp.MS_TO_NANOS * Timestamp.MS_TO_NANOS
    /\ Timestamp.toMillis r = Timestamp.toMillis (mkTimestamp 5 123456789)
    /\ _nanoseconds r mod Timestamp.MS_TO_NANOS = 0
    /\ (r = mkTimestamp 5 123456789 <-> 123456789 mod Timestamp.MS_TO_NANOS = 0).
Proof.
  apply (toTimestamp_of_timestamp_rebuilds (H := Example.host) (mkTimestamp 5 123456789)).
  - unfold Timestamp.wf. simpl. lia.
  - simpl. lia.
Defined.

(** C6 at a Period that begins on 2020-01-01 and has no end. *)
Lemma toDocument_period_witness :
  _toDocument (H := Example.host)
    (Period Period_class (Some (mkMoment (NInt 1577836800000) true)) None)
  = Ok (plain [("_type", VStr "Period");
               ("_begin", VTimestamp (mkTimestamp 1577836800 0))]).
Proof.
  apply (toDocument_period (H := Example.host) Period_class
           (Some (mkMoment (NInt 1577836800000) true)) None); simpl; reflexivity.
Defined.

(** ** Properties of the generic property mapper *)

Section MapperProperties.
Context `{Host} `{Concrete}.

Implicit Types (σ : Repo) (keys : list string) (from to : loc) (mappers : value).

Lemma _mapProps_full keys from to sp gp mappers σ :
  _mapProps (full_call keys from to sp gp mappers) σ
  = reduce (mapProps_callback from to sp gp mappers) keys to σ.
Proof. reflexivity. Qed.

(** [reduce] over a list cut in two. *)
Lemma reduce_app {A B} (cb : B -> A -> M B) (l1 l2 : list A) (init : B) σ :
  reduce cb (l1 ++ l2) init σ
  = match reduce cb l1 init σ with
    | (Ok accum, σ') => reduce cb l2 accum σ'
    | (Throw e, σ') => (Throw e, σ')
    end.
Proof.
  revert init σ. induction l1 as [|x xs IH]; intros init σ; [reflexivity|].
  cbn [app reduce]. unfold mbind, M_bind.
  destruct (cb init x σ) as [[accum|e] σ1]; [apply IH | reflexivity].
Qed.

Lemma object_at_heap σ σ' (l : loc) : heap σ' !! l = heap σ !! l -> object_at σ' l = object_at σ l.
Proof. unfold object_at. by intros ->. Qed.

(** *** The names of the cache *)

Lemma Object_prototype_enum (s : string) : Object_prototype ("enum:" +:+ s) = None.
Proof.
  unfold Object_prototype. rewrite bool_decide_eq_false_2; [reflexivity|].
  unfold Object_prototype_names. rewrite !not_elem_of_cons. cbn.
  repeat split; try discriminate. apply not_elem_of_nil.
Qed.

Lemma enum_cache_name_own (enumeration : value) :
  String.eqb (enum_cache_name enumeration) "" = false
  /\ Object_prototype (enum_cache_name enumeration) = None
  /\ enum_cache_name enumeration <> "noop"
  /\ enum_cache_name enumeration <> "moment".
Proof.
  unfold enum_cache_name. split; [reflexivity|]. split; [apply Object_prototype_enum|].
  split; cbn; discriminate.
Qed.

(** Under a name of its own, [_getMapper] answers what is cached, or
    caches the mapper. *)
Lemma _getMapper_named (mapper : scalar) (name : string) σ :
  String.eqb name "" = false -> Object_prototype name = None ->
  _getMapper mapper name σ
  = match _mapperCache σ !! name with
    | Some cached => (Ok cached, σ)
    | None => (Ok mapper, with_mapperCache (<[name := mapper]> (_mapperCache σ)) σ)
    end.
Proof.
  intros Hname Hproto. unfold _getMapper. rewrite Hname.
  unfold mbind, M_bind, gets, modify. cbn.
  destruct (_mapperCache σ !! name); [reflexivity|]. rewrite Hproto. reflexivity.
Qed.

Lemma _getMapper_heap (mapper : scalar) (name : string) σ :
  heap (_getMapper mapper name σ).2 = heap σ.
Proof.
  unfold _getMapper, mbind, M_bind, gets, modify. cbn.
  destruct (_mapperCache σ !! _) as [cached|]; [reflexivity|].
  destruct (Object_prototype _); reflexivity.
Qed.

(** Resolving a converter touches nothing but the mapper cache. *)
Lemma resolve_heap mappers (key : string) σ : heap (resolve mappers key σ).2 = heap σ.
Proof.
  unfold resolve, _toEnumMapper, _noOpMapper, lift. unfold mbind at 1, M_bind at 1.
  destruct (candidate mappers key) as [map|e]; [|reflexivity].
  destruct (is_enum_class map).
  - unfold mbind, M_bind.
    pose proof (_getMapper_heap (Fn (get map "of")) ("enum:" +:+ interpolate (get map "name")) σ)
      as Hh.
    by destruct (_getMapper _ _ σ) as [[m|err] σ1].
  - destruct (negb _); [|reflexivity].
    unfold mbind, M_bind. pose proof (_getMapper_heap NoOp "noop" σ) as Hh.
    by destruct (_getMapper _ _ σ) as [[m|err] σ1].
Qed.

(** Calling a converter leaves the repository as it is. *)
Lemma call_converter_state (map : converter) (key : string) from (gp : string) (e : value) to σ :
  (call_converter map key from gp e to σ).2 = σ.
Proof.
  unfold call_converter, mbind, M_bind, deref, gets, lift. cbn.
  destruct map as [[]|]; reflexivity.
Qed.

(** *** Fields *)

Lemma lookup_assign_prop_eq (k : string) (v : value) (props : list (string * value)) :
  lookup_prop k (assign_prop k v props) = Some v.
Proof.
  induction props as [|[k' v'] rest IH]; cbn.
  - by rewrite String.eqb_refl.
  - destruct (String.eqb_spec k' k) as [->|Hne]; cbn.
    + by rewrite String.eqb_refl.
    + destruct (String.eqb_spec k' k); [done | exact IH].
Qed.

Lemma lookup_assign_prop_ne (k k' : string) (v : value) (props : list (string * value)) :
  k <> k' -> lookup_prop k' (assign_prop k v props) = lookup_prop k' props.
Proof.
  intros Hne. induction props as [|[k0 v0] rest IH]; cbn.
  - destruct (String.eqb_spec k k'); [done | reflexivity].
  - destruct (String.eqb_spec k0 k) as [->|Hk0]; cbn.
    + destruct (String.eqb_spec k k'); [done | reflexivity].
    + destruct (String.eqb_spec k0 k'); [reflexivity | exact IH].
Qed.

Lemma lookup_prop_None (k : string) (props : list (string * value)) :
  lookup_prop k props = None <-> k ∉ List.map fst props.
Proof.
  induction props as [|[k' v'] rest IH]; cbn.
  - split; [intros _; apply not_elem_of_nil | done].
  - rewrite not_elem_of_cons. destruct (String.eqb_spec k' k) as [->|Hne].
    + split; [discriminate | by intros [? _]].
    + rewrite IH. split; [by intros ? | by intros [_ ?]].
Qed.

(** A write to a field of the object's own changes that field of that
    object and nothing else. *)
Lemma set_field_spec (l : loc) (k : string) (v : value) σ :
  (set_field l k v σ).1 = Ok tt
  /\ get (snapshot (object_at (set_field l k v σ).2 l)) k = v
  /\ (forall k', k <> k' ->
        get (snapshot (object_at (set_field l k v σ).2 l)) k'
        = get (snapshot (object_at σ l)) k')
  /\ (forall l', l' <> l -> heap (set_field l k v σ).2 !! l' = heap σ !! l').
Proof.
  unfold set_field, modify, object_at, get. cbn.
  rewrite lookup_insert_eq. cbn.
  split; [reflexivity|]. split; [by rewrite lookup_assign_prop_eq|]. split.
  - intros k' Hne. by rewrite lookup_assign_prop_ne.
  - intros l' Hne. by rewrite lookup_insert_ne.
Qed.

(** The assignment of the loop is the assignment of the specification. *)
Lemma set_property_assigned (l : loc) (k : string) (v : value) σ :
  set_property l k v σ
  = match assigned (object_at σ l) k v with
    | Ok o' => (Ok tt, with_heap (<[l := o']> (heap σ)) σ)
    | Throw e => (Throw e, σ)
    end.
Proof.
  unfold set_property, assigned. cbn zeta.
  destruct (lookup_prop k (ofields (object_at σ l))) as [x|] eqn:Hlook.
  - rewrite bool_decide_eq_true_2; [reflexivity|].
    destruct (decide (k ∈ List.map fst (ofields (object_at σ l)))) as [|Hnin]; [done|].
    apply lookup_prop_None in Hnin. congruence.
  - rewrite bool_decide_eq_false_2 by by apply lookup_prop_None.
    destruct (class_chain _ k) as [[x|g [s|]]|]; try reflexivity.
    by destruct (String.eqb k "__proto__").
Qed.

Lemma set_property_frame (l : loc) (k : string) (v : value) σ (l' : loc) :
  l' <> l -> heap (set_property l k v σ).2 !! l' = heap σ !! l'.
Proof.
  intros Hne. rewrite set_property_assigned.
  destruct (assigned _ k v); cbn; [by rewrite lookup_insert_ne | reflexivity].
Qed.

Lemma set_property_cache (l : loc) (k : string) (v : value) σ :
  _mapperCache (set_property l k v σ).2 = _mapperCache σ.
Proof. rewrite set_property_assigned. by destruct (assigned _ k v). Qed.

(** One turn of the loop changes no object but the destination. *)
Lemma mapProps_callback_frame from to (sp gp : string) mappers (accum : loc) (key : string) σ
    (l : loc) :
  l <> to -> heap (mapProps_callback from to sp gp mappers accum key σ).2 !! l = heap σ !! l.
Proof.
  intros Hne. unfold mapProps_callback. unfold mbind at 1, M_bind at 1.
  pose proof (resolve_heap mappers key σ) as Hh.
  destruct (resolve mappers key σ) as [[[map e]|err] σ1]; cbn [snd] in *; [|by rewrite Hh].
  unfold mbind at 1, M_bind at 1.
  pose proof (call_converter_state map key from gp e to σ1) as Hst.
  destruct (call_converter map key from gp e to σ1) as [[r|err] σ2]; cbn [snd] in *; subst σ2;
    [|by rewrite Hh].
  unfold mbind, M_bind. destruct (negb (is_undefined r)).
  - pose proof (set_property_frame to (sp +:+ key) r σ1 l Hne) as Hframe.
    destruct (set_property to (sp +:+ key) r σ1) as [[[]|err] σ3]; cbn in *; by rewrite Hframe, Hh.
  - cbn. by rewrite Hh.
Qed.

Lemma reduce_frame from to (sp gp : string) mappers keys (accum : loc) σ (l : loc) :
  l <> to ->
  heap (reduce (mapProps_callback from to sp gp mappers) keys accum σ).2 !! l = heap σ !! l.
Proof.
  intros Hne. revert accum σ. induction keys as [|key rest IH]; intros accum σ; [reflexivity|].
  cbn [reduce]. unfold mbind, M_bind.
  pose proof (mapProps_callback_frame from to sp gp mappers accum key σ l Hne) as Hcb.
  destruct (mapProps_callback from to sp gp mappers accum key σ) as [[a|err] σ1]; cbn [snd] in *.
  - by rewrite IH.
  - exact Hcb.
Qed.

(** *** The loop and the specification *)

Lemma raw_value_get_property (o : object) (k : string) :
  raw_value o k = get_property (snapshot o) k.
Proof.
  unfold raw_value, get_property, snapshot. cbn [own_property].
  destruct (lookup_prop k (ofields o)); [reflexivity|].
  by destruct (inherited _ k) as [[x|[g|] s]|].
Qed.

Lemma is_enum_class_looks_like_enumeration (v : value) :
  is_enum_class v = looks_like_enumeration v.
Proof.
  unfold is_enum_class, looks_like_enumeration, get.
  destruct (own_property v "enumValues") as [[]|]; try reflexivity.
  by destruct elems.
Qed.

(** Where the entries are read as they are, the candidate of the loop is
    the entry, or else the whole argument. *)
Lemma candidate_subject mappers (key : string) :
  reads_entries mappers key ->
  candidate mappers key = Ok (default mappers (entry mappers key)).
Proof.
  intros Hreads. unfold candidate.
  destruct (truthy mappers) eqn:Hm.
  - destruct (Hreads Hm) as (r & -> & Hentry). cbn [mbind result_bind mret result_ret].
    unfold js_or. destruct (entry mappers key) as [e|]; cbn [default].
    + destruct Hentry as [-> ->]. reflexivity.
    + by rewrite Hentry.
  - assert (entry mappers key = None) as ->; [|reflexivity].
    by destruct mappers.
Qed.

Lemma map_elements_each (mapper : scalar) (whole : value) (i : Z) (elems : list value) :
  map_elements mapper whole i elems = each_element (call_scalar mapper) whole i elems.
Proof.
  revert i. induction elems as [|x xs IH]; intros i; [reflexivity|].
  cbn [map_elements each_element]. rewrite IH. unfold mbind, result_bind.
  destruct (call_scalar mapper _); [|reflexivity].
  by destruct (each_element _ whole (i + 1) xs).
Qed.

Lemma map_elements_NoOp (whole : value) (i : Z) (elems : list value) :
  map_elements NoOp whole i elems = Ok elems.
Proof.
  revert i. induction elems as [|x xs IH]; intros i; [reflexivity|].
  cbn [map_elements call_scalar hd mbind result_bind]. by rewrite IH.
Qed.

(** The identity mapper hands back the field it reads; an array comes back
    as an array of the same elements. *)
Lemma call_cached_NoOp (key : string) (o : object) (gp : string) :
  call_cached NoOp key o gp = get_property (snapshot o) (gp +:+ key).
Proof.
  unfold call_cached. destruct (get_property _ _) as [v|e]; [|reflexivity].
  cbn [mbind result_bind]. destruct v; try reflexivity.
  cbn [is_undefined]. unfold array_map. cbn [scalar_value typeof].
  by rewrite map_elements_NoOp.
Qed.

Lemma call_cached_Identity (key : string) (source dest : object) (gp : string) :
  call_cached NoOp key source gp = conversion Identity key source dest gp.
Proof. rewrite call_cached_NoOp. unfold conversion. by rewrite raw_value_get_property. Qed.

Lemma call_cached_Enumeration (enumRef : value) (key : string) (source dest : object)
    (gp : string) :
  call_cached (Fn (get enumRef "of")) key source gp
  = conversion (Enumeration enumRef) key source dest gp.
Proof.
  unfold call_cached, conversion. rewrite raw_value_get_property.
  destruct (get_property _ _) as [v|e]; [|reflexivity].
  cbn [mbind result_bind]. change (absent v) with (is_undefined v).
  destruct (is_undefined v); [reflexivity|].
  destruct v; try reflexivity.
  unfold array_map. cbn [scalar_value]. rewrite map_elements_each.
  by destruct (typeof (get enumRef "of")).
Qed.

(** One turn of the loop is one turn of the specification, provided the
    cache holds the mappers that the turn asks it for. *)
Lemma mapProps_callback_mapped from to (sp gp : string) mappers (accum : loc) (key : string) σ :
  reads_entries mappers key ->
  (resolution mappers key = Identity ->
   forall c, _mapperCache σ !! "noop" = Some c -> c = NoOp) ->
  (forall enumRef, resolution mappers key = Enumeration enumRef ->
     forall c, _mapperCache σ !! enum_cache_name enumRef = Some c -> c = Fn (get enumRef "of")) ->
  exists σ1,
    heap σ1 = heap σ
    /\ (forall name c, _mapperCache σ1 !! name = Some c ->
          _mapperCache σ !! name = Some c
          \/ (resolution mappers key = Identity /\ name = "noop" /\ c = NoOp)
          \/ (exists enumRef, resolution mappers key = Enumeration enumRef
                              /\ name = enum_cache_name enumRef /\ c = Fn (get enumRef "of")))
    /\ mapProps_callback from to sp gp mappers accum key σ
       = match conversion (resolution mappers key) key (object_at σ from) (object_at σ to) gp with
         | Throw e => (Throw e, σ1)
         | Ok r =>
             if absent r then (Ok accum, σ1)
             else match assigned (object_at σ to) (sp +:+ key) r with
                  | Throw e => (Throw e, σ1)
                  | Ok d => (Ok accum, with_heap (<[to := d]> (heap σ1)) σ1)
                  end
         end.
Proof.
  intros Hreads Hnoop Henum.
  (* what the turn does once the converter is resolved *)
  assert (forall (conv : converter) (e : value) σ1,
            heap σ1 = heap σ ->
            (call_converter conv key from gp e to σ1).1
            = conversion (resolution mappers key) key (object_at σ from) (object_at σ to) gp ->
            resolve mappers key σ = (Ok (conv, e), σ1) ->
            mapProps_callback from to sp gp mappers accum key σ
            = match conversion (resolution mappers key) key (object_at σ from) (object_at σ to) gp
              with
              | Throw e => (Throw e, σ1)
              | Ok r =>
                  if absent r then (Ok accum, σ1)
                  else match assigned (object_at σ to) (sp +:+ key) r with
                       | Throw e => (Throw e, σ1)
                       | Ok d => (Ok accum, with_heap (<[to := d]> (heap σ1)) σ1)
                       end
              end) as Hturn.
  { intros conv e σ1 Hheap Hcall Hresolve. unfold mapProps_callback.
    unfold mbind at 1, M_bind at 1. rewrite Hresolve. cbn beta iota.
    unfold mbind at 1, M_bind at 1.
    pose proof (call_converter_state conv key from gp e to σ1) as Hst.
    destruct (call_converter conv key from gp e to σ1) as [r σ2]. cbn [fst snd] in *.
    subst σ2 r.
    destruct (conversion _ key _ _ gp) as [r|err]; [|reflexivity].
    change (absent r) with (is_undefined r).
    unfold mbind, M_bind. destruct (is_undefined r); cbn [negb]; [reflexivity|].
    rewrite set_property_assigned.
    rewrite (object_at_heap σ σ1 to) by by rewrite Hheap.
    by destruct (assigned _ _ r). }
  pose proof (candidate_subject mappers key Hreads) as Hcand.
  unfold resolution in *. set (subject := default mappers (entry mappers key)) in *.
  destruct (looks_like_enumeration subject) eqn:Hlooks.
  - (* an enumeration *)
    destruct (enum_cache_name_own subject) as (Hname & Hproto & _ & _).
    pose proof (_getMapper_named (Fn (get subject "of")) (enum_cache_name subject) σ Hname Hproto)
      as Hget.
    assert (exists σ1,
              heap σ1 = heap σ
              /\ resolve mappers key σ = (Ok (Cached (Fn (get subject "of")), subject), σ1)
              /\ forall name c, _mapperCache σ1 !! name = Some c ->
                   _mapperCache σ !! name = Some c
                   \/ (name = enum_cache_name subject /\ c = Fn (get subject "of")))
      as (σ1 & Hheap & Hresolve & Hcache).
    { unfold resolve, lift. unfold mbind at 1, M_bind at 1. rewrite Hcand. cbn beta iota.
      rewrite is_enum_class_looks_like_enumeration, Hlooks.
      unfold _toEnumMapper. fold (enum_cache_name subject).
      unfold mbind, M_bind. rewrite Hget.
      destruct (_mapperCache σ !! enum_cache_name subject) as [c|] eqn:Hc.
      - rewrite (Henum subject eq_refl c Hc). exists σ. by auto.
      - exists (with_mapperCache
                  (<[enum_cache_name subject := Fn (get subject "of")]> (_mapperCache σ)) σ).
        split; [reflexivity|]. split; [reflexivity|].
        intros name c. cbn.
        destruct (decide (enum_cache_name subject = name)) as [<-|Hne].
        + rewrite lookup_insert_eq. intros [= <-]. by right.
        + rewrite lookup_insert_ne by done. by left. }
    exists σ1. split; [exact Hheap|]. split.
    { intros name c Hc. destruct (Hcache name c Hc) as [?|[-> ->]]; [by left|].
      right. right. by exists subject. }
    apply (Hturn (Cached (Fn (get subject "of"))) subject σ1 Hheap); [|exact Hresolve].
    unfold call_converter, mbind, M_bind, deref, gets, lift. cbn.
    rewrite (object_at_heap σ σ1 from) by by rewrite Hheap.
    exact (call_cached_Enumeration subject key (object_at σ from) (object_at σ to) gp).
  - destruct (jstype_eqb (typeof subject) TFunction) eqn:Hfun.
    + (* the caller's function *)
      exists σ. split; [reflexivity|]. split; [by left|].
      apply (Hturn (Custom subject) VUndefined σ eq_refl); [reflexivity|].
      unfold resolve, lift. unfold mbind at 1, M_bind at 1. rewrite Hcand. cbn beta iota.
      by rewrite is_enum_class_looks_like_enumeration, Hlooks, Hfun.
    + (* the identity *)
      pose proof (_getMapper_named NoOp "noop" σ eq_refl eq_refl) as Hget.
      assert (exists σ1,
                heap σ1 = heap σ
                /\ resolve mappers key σ = (Ok (Cached NoOp, VUndefined), σ1)
                /\ forall name c, _mapperCache σ1 !! name = Some c ->
                     _mapperCache σ !! name = Some c \/ (name = "noop" /\ c = NoOp))
        as (σ1 & Hheap & Hresolve & Hcache).
      { unfold resolve, lift. unfold mbind at 1, M_bind at 1. rewrite Hcand. cbn beta iota.
        rewrite is_enum_class_looks_like_enumeration, Hlooks, Hfun. cbn [negb].
        unfold _noOpMapper, mbind, M_bind. rewrite Hget.
        destruct (_mapperCache σ !! "noop") as [c|] eqn:Hc.
        - rewrite (Hnoop eq_refl c eq_refl). exists σ. by auto.
        - exists (with_mapperCache (<["noop" := NoOp]> (_mapperCache σ)) σ).
          split; [reflexivity|]. split; [reflexivity|].
          intros name c. cbn.
          destruct (decide ("noop" = name)) as [<-|Hne].
          + rewrite lookup_insert_eq. intros [= <-]. by right.
          + rewrite lookup_insert_ne by done. by left. }
      exists σ1. split; [exact Hheap|]. split.
      { intros name c Hc. destruct (Hcache name c Hc) as [?|[-> ->]]; [by left|].
        right. by left. }
      apply (Hturn (Cached NoOp) VUndefined σ1 Hheap); [|exact Hresolve].
      unfold call_converter, mbind, M_bind, deref, gets, lift. cbn.
      rewrite (object_at_heap σ σ1 from) by by rewrite Hheap.
      exact (call_cached_Identity key (object_at σ from) (object_at σ to) gp).
Qed.

(** A turn that caches what it resolved keeps the caches in order. *)
Lemma caches_ok_step (all : list string) mappers (key : string) σ σ1 :
  key ∈ all ->
  registry_ok σ ->
  enumerations_cached_ok σ mappers all ->
  (forall name c, _mapperCache σ1 !! name = Some c ->
     _mapperCache σ !! name = Some c
     \/ (resolution mappers key = Identity /\ name = "noop" /\ c = NoOp)
     \/ (exists enumRef, resolution mappers key = Enumeration enumRef
                         /\ name = enum_cache_name enumRef /\ c = Fn (get enumRef "of"))) ->
  registry_ok σ1 /\ enumerations_cached_ok σ1 mappers all.
Proof.
  intros Hkey [Hnoop Hmoment] Henums Hcache. split; [split|].
  - intros c Hc. destruct (Hcache _ _ Hc) as [Hold|[(_ & _ & ->)|(enumRef & _ & Hname & _)]].
    + by apply Hnoop.
    + reflexivity.
    + symmetry in Hname. by apply enum_cache_name_own in Hname.
  - intros c Hc. destruct (Hcache _ _ Hc) as [Held|[(_ & Hname & _)|(enumRef & _ & Hname & _)]].
    + by apply Hmoment.
    + discriminate.
    + symmetry in Hname. by apply enum_cache_name_own in Hname.
  - intros key' enumRef' Hkey' Hres'. destruct (Henums key' enumRef' Hkey' Hres') as [Hc' Hsame].
    split; [|exact Hsame].
    intros c Hc. destruct (Hcache _ _ Hc) as [Hold|[(_ & Hname & _)|(enumRef & Hres & Hname & ->)]].
    + by apply Hc'.
    + by apply enum_cache_name_own in Hname.
    + f_equal. by apply (Hsame key enumRef).
Qed.

(** The loop of [_mapProps] is the mapping of the specification: it
    returns when that is not aborted and throws the error that aborts
    it, and it leaves the destination as that leaves it. *)
Lemma reduce_mapped (all : list string) keys from to (sp gp : string) mappers (accum : loc) σ :
  (forall key, key ∈ keys -> key ∈ all) ->
  registry_ok σ ->
  enumerations_cached_ok σ mappers all ->
  (forall key, key ∈ all -> reads_entries mappers key) ->
  let call := reduce (mapProps_callback from to sp gp mappers) keys accum σ in
  let outcome := mapped keys (bool_decide (from = to)) (object_at σ from) (object_at σ to)
                   sp gp mappers in
  call.1 = match outcome.1 with None => Ok accum | Some e => Throw e end
  /\ object_at call.2 to = outcome.2.
Proof.
  cbn zeta. intros Hall Hok Henums Hreads. revert σ Hok Henums.
  induction keys as [|key rest IH]; intros σ Hok Henums; [done|].
  assert (key ∈ all) as Hkey by (apply Hall, elem_of_cons; by left).
  assert (forall k, k ∈ rest -> k ∈ all) as Hrest
    by (intros k Hk; apply Hall, elem_of_cons; by right).
  destruct (mapProps_callback_mapped from to sp gp mappers accum key σ) as (σ1 & Hheap & Hcache & Hcb).
  { by apply Hreads. }
  { intros _. apply Hok. }
  { intros enumRef Hres. by apply (Henums key enumRef). }
  destruct (caches_ok_step all mappers key σ σ1 Hkey Hok Henums Hcache) as [Hok1 Henums1].
  assert (object_at σ1 to = object_at σ to) as Hto1 by (apply object_at_heap; by rewrite Hheap).
  assert (object_at σ1 from = object_at σ from) as Hfrom1
    by (apply object_at_heap; by rewrite Hheap).
  cbn [reduce mapped]. unfold mbind, M_bind. rewrite Hcb.
  destruct (conversion _ key _ _ gp) as [r|err]; [|by rewrite <- Hto1].
  destruct (absent r).
  - rewrite <- Hto1, <- Hfrom1. by apply (IH Hrest).
  - destruct (assigned (object_at σ to) (sp +:+ key) r) as [d|err]; [|by rewrite <- Hto1].
    set (σ2 := with_heap (<[to := d]> (heap σ1)) σ1).
    assert (object_at σ2 to = d) as Hto2.
    { unfold object_at, σ2. cbn. by rewrite lookup_insert_eq. }
    assert (object_at σ2 from = if bool_decide (from = to) then d else object_at σ from)
      as Hfrom2.
    { destruct (decide (from = to)) as [->|Hne].
      - by rewrite bool_decide_eq_true_2.
      - rewrite bool_decide_eq_false_2 by done.
        rewrite <- Hfrom1. apply object_at_heap. unfold σ2. cbn. by rewrite lookup_insert_ne. }
    destruct (IH Hrest σ2) as [IHcall IHto]; [done | done |].
    rewrite Hfrom2, Hto2 in IHcall, IHto. by split.
Qed.

(** The caches of a registry without enumerations. *)
Lemma enumerations_cached_ok_none σ mappers keys :
  (forall key enumRef, key ∈ keys -> resolution mappers key <> Enumeration enumRef) ->
  enumerations_cached_ok σ mappers keys.
Proof. intros Hnone key enumRef Hkey Hres. by apply Hnone in Hres. Qed.


(** C7.  When the converter of the key at some position throws, the call
    throws that very error, and the heap is the one that mapping the keys
    before that position had produced: what was set stays set, and
    nothing is set for that key or any later one. *)
Theorem mapProps_failing_converter_aborts
    (before after : list string) (key : string) from to (sp gp : string) mappers
    σ σ1 σ2 σ3 (r : loc) (conv : converter) (e : value) (err : error) :
  _mapProps (full_call before from to sp gp mappers) σ = (Ok r, σ1) ->
  resolve mappers key σ1 = (Ok (conv, e), σ2) ->
  call_converter conv key from gp e to σ2 = (Throw err, σ3) ->
  _mapProps (full_call (before ++ key :: after) from to sp gp mappers) σ = (Throw err, σ3)
  /\ heap σ3 = heap σ1.
Proof.
  intros Hbefore Hresolve Hcall.
  rewrite _mapProps_full in *. rewrite reduce_app, Hbefore.
  cbn [reduce]. unfold mapProps_callback, mbind, M_bind.
  rewrite Hresolve, Hcall. split; [reflexivity|].
  pose proof (call_converter_state conv key from gp e to σ2) as Hst.
  rewrite Hcall in Hst. cbn in Hst. subst σ3.
  pose proof (resolve_heap mappers key σ1) as Hh.
  rewrite Hresolve in Hh. exact Hh.
Qed.

End MapperProperties.


Lemma mapProps_failing_converter_aborts_witness :
  _mapProps (H := Example.host)
    (full_call ["a"; "b"; "c"] 0%nat 1%nat "" "" MapperExample.failing_mappers)
    MapperExample.start
  = (Throw (mkError Error_ (VStr "boom")), MapperExample.after_a)
  /\ heap MapperExample.after_a = heap MapperExample.after_a
  /\ MapperExample.destination (Throw (mkError Error_ (VStr "boom")), MapperExample.after_a)
     = Some (plain [("a", VNum (NInt 1))]).
Proof.
  pose proof (mapProps_failing_converter_aborts (H := Example.host)
                ["a"] ["c"] "b" 0%nat 1%nat "" "" MapperExample.failing_mappers
                MapperExample.start MapperExample.after_a MapperExample.after_a
                MapperExample.after_a 1%nat
                (Custom (VFun "boom" [("name", VStr "b")])) VUndefined
                (mkError Error_ (VStr "boom"))) as Hthm.
  destruct Hthm as [Hthrow Hheap]; [vm_compute; reflexivity ..|].
  split; [exact Hthrow|]. split; [exact Hheap|]. vm_compute. reflexivity.
Defined.

(** ** Properties of the array utilities *)

Section ArrayProperties.
Context `{Host}.

Implicit Types (h : gmap loc (list slot)) (arrs : list (option loc)) (a : list slot).

Lemma grown_padded (len : nat) a :
  (length a <= len)%nat ->
  grown len a = a ++ replicate (len - length a) (Elem VUndefined).
Proof.
  intros Hle. unfold grown, fill, set_length.
  rewrite (take_ge a len) by lia.
  rewrite take_app_length.
  rewrite length_app, length_replicate.
  f_equal. f_equal. lia.
Qed.

Lemma grown_length (len : nat) a : (length a <= len)%nat -> length (grown len a) = len.
Proof.
  intros Hle. rewrite grown_padded by done.
  rewrite length_app, length_replicate. lia.
Qed.

Lemma grown_idempotent (len : nat) a :
  (length a <= len)%nat -> grown len (grown len a) = grown len a.
Proof.
  intros Hle. rewrite (grown_padded len (grown len a)); rewrite grown_length by done; [|lia].
  rewrite Nat.sub_diag. cbn. by rewrite app_nil_r.
Qed.

Lemma largest_length_bound h arrs (l : loc) :
  Some l ∈ arrs -> (array_length h l <= largest_length h arrs)%nat.
Proof.
  unfold largest_length.
  induction arrs as [|it rest IH]; intros Hin.
  - by apply elem_of_nil in Hin.
  - apply elem_of_cons in Hin as [<-|Hin]; cbn [foldr].
    + lia.
    + specialize (IH Hin). destruct it; lia.
Qed.

(** [_getLargestArrayAmong] does find an array of the largest length. *)
Lemma _getLargestArrayAmong_largest arrs σ :
  exists o, _getLargestArrayAmong arrs σ = (Ok o, σ)
            /\ from_option (array_length (arrays σ)) 0%nat o = largest_length (arrays σ) arrs.
Proof.
  unfold _getLargestArrayAmong, mbind, M_bind, gets. cbn.
  eexists. split; [reflexivity|].
  set (h := arrays σ).
  enough (forall accum,
            from_option (array_length h) 0%nat
              (fold_left
                 (fun accum next =>
                    match accum with
                    | Some a0 =>
                        match next with
                        | Some n => if (array_length h n <=? array_length h a0)%nat
                                    then accum else next
                        | None => accum
                        end
                    | None => match next with Some _ => next | None => accum end
                    end) arrs accum)
            = Nat.max (from_option (array_length h) 0%nat accum) (largest_length h arrs)) as Hgen.
  { rewrite Hgen. cbn. lia. }
  induction arrs as [|it rest IH]; intros accum; cbn [fold_left largest_length foldr].
  - lia.
  - rewrite IH. fold (largest_length h rest).
    destruct accum as [a0|], it as [n|]; cbn [from_option]; try lia.
    destruct (Nat.leb_spec (array_length h n) (array_length h a0)); cbn [from_option]; lia.
Qed.

Lemma grow_one_arrays (len : nat) (it : option loc) σ (l : loc) :
  (grow_one len it σ).1 = Ok tt
  /\ arrays (grow_one len it σ).2 !! l
     = if decide (it = Some l) then grown len <$> (arrays σ !! l) else arrays σ !! l.
Proof.
  destruct it as [l'|]; cbn.
  - split; [reflexivity|].
    destruct (arrays σ !! l') as [a'|] eqn:Hl'; cbn.
    + destruct (decide (Some l' = Some l)) as [[= ->]|Hne].
      * rewrite lookup_insert_eq, Hl'. reflexivity.
      * rewrite lookup_insert_ne by congruence. reflexivity.
    + destruct (decide (Some l' = Some l)) as [[= ->]|Hne]; [by rewrite Hl'|reflexivity].
  - split; [reflexivity|]. by destruct (decide _).
Qed.

(** The [forEach]: every array named in the arguments is grown, once. *)
Lemma forEach_grow_arrays (len : nat) arrs σ (l : loc) :
  (forall a, Some l ∈ arrs -> arrays σ !! l = Some a -> (length a <= len)%nat) ->
  (forEach (grow_one len) arrs σ).1 = Ok tt
  /\ arrays (forEach (grow_one len) arrs σ).2 !! l
     = if decide (Some l ∈ arrs) then grown len <$> (arrays σ !! l) else arrays σ !! l.
Proof.
  revert σ. induction arrs as [|it rest IH]; intros σ Hlen.
  - split; [reflexivity|]. cbn. destruct (decide _) as [Hin|]; [by apply elem_of_nil in Hin|done].
  - cbn [forEach]. unfold mbind, M_bind.
    destruct (grow_one_arrays len it σ l) as [Hok Hone].
    destruct (grow_one len it σ) as [[[]|err] σ1]; cbn in Hok, Hone; [|discriminate].
    destruct (IH σ1) as [IHok IHl].
    { intros a Hin Ha. rewrite Hone in Ha.
      destruct (decide (it = Some l)) as [->|Hne].
      - destruct (arrays σ !! l) as [a0|] eqn:Ha0; [|discriminate].
        cbn in Ha. injection Ha as <-. rewrite grown_length; [lia|].
        apply (Hlen a0); [apply elem_of_cons; by left | done].
      - apply (Hlen a); [apply elem_of_cons; by right | done]. }
    split; [exact IHok|]. rewrite IHl, Hone. clear IHl IHok Hone IH.
    destruct (decide (Some l ∈ it :: rest)) as [Hc|Hc];
      destruct (decide (Some l ∈ rest)) as [Hin|Hnin];
      destruct (decide (it = Some l)) as [->|Hne]; try reflexivity.
    + destruct (arrays σ !! l) as [a0|] eqn:Ha0; [|reflexivity].
      cbn. f_equal. apply grown_idempotent. by apply (Hlen a0).
    + apply elem_of_cons in Hc as [Heq|Hc]; [by subst it | done].
    + exfalso. apply Hc, elem_of_cons. by right.
    + exfalso. apply Hc, elem_of_cons. by right.
    + exfalso. apply Hc, elem_of_cons. by left.
Qed.

(** C8.  After [_growAllArraysToLargestAmong], every array among the
    arguments has the largest of their lengths: it is the array it was,
    followed by as many explicit [undefined] elements as it was short;
    every element it had is where it was, and nothing has been cut. *)
Theorem growAllArraysToLargestAmong_pads arrs σ (l : loc) a :
  Some l ∈ arrs ->
  arrays σ !! l = Some a ->
  let σ' := (_growAllArraysToLargestAmong arrs σ).2 in
  let largest := largest_length (arrays σ) arrs in
  (_growAllArraysToLargestAmong arrs σ).1 = Ok tt
  /\ exists a',
       arrays σ' !! l = Some a'
       /\ a' = a ++ replicate (largest - length a) (Elem VUndefined)
       /\ length a' = largest
       /\ (forall i, (i < length a)%nat -> a' !! i = a !! i)
       /\ (forall i, (length a <= i < largest)%nat -> a' !! i = Some (Elem VUndefined)).
Proof.
  intros Hin Ha. cbn zeta.
  pose proof (largest_length_bound (arrays σ) arrs l Hin) as Hbound.
  unfold array_length in Hbound. rewrite Ha in Hbound. cbn in Hbound.
  set (largest := largest_length (arrays σ) arrs) in *.
  assert (forall a', a' = a ++ replicate (largest - length a) (Elem VUndefined) ->
            length a' = largest
            /\ (forall i, (i < length a)%nat -> a' !! i = a !! i)
            /\ (forall i, (length a <= i < largest)%nat -> a' !! i = Some (Elem VUndefined)))
    as Hshape.
  { intros a' ->. split; [|split].
    - rewrite length_app, length_replicate. lia.
    - intros i Hi. by rewrite lookup_app_l.
    - intros i Hi. rewrite lookup_app_r by lia. apply lookup_replicate_2. lia. }
  assert (largest = 0%nat ->
          a = a ++ replicate (largest - length a) (Elem VUndefined)) as Hzero.
  { intros Hz. rewrite Hz. cbn. by rewrite app_nil_r. }
  unfold _growAllArraysToLargestAmong.
  destruct (Nat.eqb_spec (length arrs) 0) as [Hnil|_].
  { destruct arrs; [by apply elem_of_nil in Hin | discriminate]. }
  unfold mbind, M_bind.
  destruct (_getLargestArrayAmong_largest arrs σ) as [o [-> Ho]].
  fold largest in Ho. cbn [gets].
  destruct o as [big|]; cbn [from_option] in Ho.
  - destruct (Nat.eqb_spec (array_length (arrays σ) big) 0) as [Hz|_].
    + cbn. split; [reflexivity|]. exists a. rewrite Ho in Hz.
      split; [done|]. split; [by apply Hzero|]. apply Hshape. by apply Hzero.
    + rewrite Ho.
      destruct (forEach_grow_arrays largest arrs σ l) as [Hok Hl].
      { intros a0 _ Ha0. rewrite Ha in Ha0. by injection Ha0 as <-. }
      split; [exact Hok|].
      rewrite decide_True in Hl by done. rewrite Ha in Hl. cbn in Hl.
      exists (grown largest a). split; [exact Hl|].
      split; [by apply grown_padded|]. apply Hshape. by apply grown_padded.
  - cbn. split; [reflexivity|]. exists a.
    split; [done|]. split; [by apply Hzero|]. apply Hshape. by apply Hzero.
Qed.

End ArrayProperties.

Lemma growAllArraysToLargestAmong_pads_witness :
  arrays (_growAllArraysToLargestAmong [Some 0%nat; Some 1%nat] ArrayExample.start).2 !! 0%nat
  = Some [Elem (VNum (NInt 1)); Elem VUndefined].
Proof.
  destruct (growAllArraysToLargestAmong_pads [Some 0%nat; Some 1%nat] ArrayExample.start
              0%nat [Elem (VNum (NInt 1))]) as [_ [a' [Hl [-> _]]]].
  - apply elem_of_cons. by left.
  - vm_compute. reflexivity.
  - exact Hl.
Defined.

(** ** Properties of the persistence methods *)

Section PersistenceProperties.
Context `{Host} `{Concrete}.

(** What [insert] does when the identifier is taken. *)
Lemma insert_existing (entity : loc) (options found : value) σ σ' :
  let e := snapshot (object_at σ entity) in
  findById (get e "id") σ = (Ok found, σ') ->
  truthy found = true ->
  exists msg, insert entity options σ = (Throw (mkError ObjectExistsError (VStr msg)), σ').
Proof.
  cbn zeta. intros Hfind Htruthy.
  unfold insert, mbind, M_bind, deref, gets. lazy beta iota.
  rewrite Hfind, Htruthy. cbn. eauto.
Qed.

(** C10.  Whatever [findById] returns for an identifier, [getById]
    returns [undefined] when that is an entity and throws the not-found
    error when it is nothing; it throws in no other case. *)
Theorem getById_returns_undefined_or_throws (id found : value) σ σ' :
  findById id σ = (Ok found, σ') ->
  (truthy found = true -> getById id σ = (Ok VUndefined, σ'))
  /\ (truthy found = false ->
      exists path, getById id σ = (Throw (mkError ObjectNotFoundError (VStr path)), σ'))
  /\ ((exists err σ'', getById id σ = (Throw err, σ'')) <-> truthy found = false).
Proof.
  intros Hfind.
  assert (truthy found = true -> getById id σ = (Ok VUndefined, σ')) as Hfound.
  { intros Ht. unfold getById, mbind, M_bind. rewrite Hfind, Ht. reflexivity. }
  assert (truthy found = false ->
          exists path, getById id σ = (Throw (mkError ObjectNotFoundError (VStr path)), σ'))
    as Hmissing.
  { intros Ht. unfold getById, mbind, M_bind. rewrite Hfind, Ht. cbn. eauto. }
  split; [exact Hfound|]. split; [exact Hmissing|]. split.
  - intros (err & σ'' & Hthrow).
    destruct (truthy found) eqn:Ht; [|reflexivity].
    rewrite Hfound in Hthrow by done. discriminate.
  - intros Ht. destruct (Hmissing Ht) as [path Hp]. eauto.
Qed.

End PersistenceProperties.

Lemma getById_returns_undefined_or_throws_witness :
  getById (H := Example.host) (H0 := Example.concrete) (VStr "42") PersistenceExample.stored
  = (Ok VUndefined, PersistenceExample.stored).
Proof.
  refine (proj1 (getById_returns_undefined_or_throws (H := Example.host) (H0 := Example.concrete)
                   (VStr "42") (snapshot PersistenceExample.entity)
                   PersistenceExample.stored PersistenceExample.stored _) _);
    vm_compute; reflexivity.
Defined.

(** C9 on the code.  Inserting an entity whose identifier is taken throws
    an error of the class [ObjectNotFoundError], the class of the error
    that [getById] throws for an identifier that has no document: the
    constant [ObjectExistsError] of the trait is bound to that class. *)
Theorem insert_existing_throws_the_not_found_class :
  (insert (H := Example.host) (H0 := Example.concrete) 0%nat VUndefined PersistenceExample.stored).1
  = Throw (mkError errors.ObjectNotFoundError (VStr "Fake@42"))
  /\ (getById (H := Example.host) (H0 := Example.concrete) (VStr "7") PersistenceExample.stored).1
     = Throw (mkError errors.ObjectNotFoundError (VStr "/fakes/7"))
  /\ ObjectExistsError = ObjectNotFoundError
  /\ ObjectExistsError <> errors.ObjectExistsError.
Proof.
  split; [vm_compute; reflexivity|].
  split; [vm_compute; reflexivity|].
  split; [reflexivity|]. discriminate.
Qed.

(** C2 on the code.  A function passed as the single converter is not the
    converter of a key that names one of the function's own properties:
    for the key [name] the candidate is the function's name, a string, and
    the identity mapper is used; for the key [title] the function is
    used. *)
Theorem mapProps_single_function_skipped_for_own_property :
  (resolve (H := Example.host) MapperExample.single_function "name" MapperExample.person_start).1
  = Ok (Cached NoOp, VUndefined)
  /\ (resolve (H := Example.host) MapperExample.single_function "title" MapperExample.person_start).1
     = Ok (Custom MapperExample.single_function, VUndefined)
  /\ MapperExample.destination
       (_mapProps (H := Example.host)
          (full_call ["title"; "name"] 0%nat 1%nat "" "" MapperExample.single_function)
          MapperExample.person_start)
     = Some (plain [("title", VStr "UPPER"); ("name", VStr "alice")]).
Proof. repeat split; vm_compute; reflexivity. Qed.

(** ** Further properties of the time normalizer *)

Section TimeInvariants.
Context `{Host}.


(** A timestamp of whole milliseconds is rebuilt from its milliseconds. *)
Lemma timestamp_of_millis_toMillis (ts : timestamp) (ms : Z) :
  Timestamp.wf ts ->
  _nanoseconds ts mod Timestamp.MS_TO_NANOS = 0 ->
  Timestamp.toMillis ts = NInt ms ->
  timestamp_of_millis ms = ts.
Proof.
  intros Hwf Hmod Hms. destruct (toMillis_NInt_inv ts ms Hms) as [-> _].
  destruct ts as [s n]. unfold Timestamp.wf, Timestamp.MS_TO_NANOS in *.
  cbn [_seconds _nanoseconds] in *.
  apply Z.mod_divide in Hmod; [|lia]. destruct Hmod as [k ->].
  rewrite Z.div_mul by lia.
  unfold timestamp_of_millis, Timestamp.MS_TO_NANOS.
  assert ((s * 1000 + k) / 1000 = s) as ->.
  { symmetry. apply (Z.div_unique _ _ _ k); lia. }
  f_equal; lia.
Qed.

Lemma jstype_eqb_eq (a b : jstype) : jstype_eqb a b = true -> a = b.
Proof. by destruct a, b. Qed.

(** The constructor's validation throws the built-in [Error]. *)
Lemma Timestamp_new_error (seconds nanoseconds : value) (e : error) :
  Timestamp.new seconds nanoseconds = Throw e -> eclass e = Error_.
Proof.
  assert (forall v lo hi e', Timestamp.validateInteger v lo hi = Throw e' -> eclass e' = Error_)
    as Hvalidate.
  { intros v lo hi e'. unfold Timestamp.validateInteger.
    destruct v; try by intros [= <-].
    destruct (integer_value n); [|by intros [= <-]].
    destruct (_ || _)%bool; [by intros [= <-] | discriminate]. }
  unfold Timestamp.new.
  destruct (Timestamp.validateInteger seconds None None) as [s|e'] eqn:Hs; cbn.
  - destruct (Timestamp.validateInteger nanoseconds _ _) as [n|e'] eqn:Hn; cbn; [discriminate|].
    intros [= <-]. by apply Hvalidate in Hn.
  - intros [= <-]. by apply Hvalidate in Hs.
Qed.


(** A successful [_toMoment] either returned a falsy argument or built a
    valid moment with [moment.utc]. *)
Lemma _toMoment_Ok_inv (it v : value) :
  _toMoment it = Ok v ->
  (truthy it = false /\ v = it)
  \/ (truthy it = true
      /\ exists parsed, v = VMoment (moment_utc parsed)
                        /\ Moment.isValid (moment_utc parsed) = true).
Proof.
  unfold _toMoment. destruct (truthy it) eqn:Ht; cbn [negb].
  - intros Hm. right. split; [reflexivity|].
    destruct (if truthy (_isTimestampLike it (VBool false)) then _ else _) as [it1|e];
      cbn [mbind result_bind] in Hm; [|discriminate].
    destruct (Moment.isValid _) eqn:Hv; [|discriminate].
    injection Hm as <-. eauto.
  - intros [= <-]. by left.
Qed.

(** X2.  What [_toMoment] returns is its argument when that is falsy, and
    otherwise a valid moment in UTC mode. *)
Theorem toMoment_returns_valid_utc_moment (it v : value) :
  _toMoment it = Ok v ->
  (truthy it = false /\ v = it)
  \/ (truthy it = true
      /\ exists m, v = VMoment m /\ Moment.isValid m = true /\ m_isUTC m = true).
Proof.
  intros Hm. destruct (_toMoment_Ok_inv it v Hm) as [Hfalsy | [Ht (parsed & -> & Hv)]].
  - by left.
  - right. split; [exact Ht|]. exists (moment_utc parsed). by repeat split.
Qed.

(** [moment.utc] of a moment that [moment.utc] made is that moment. *)
Lemma moment_utc_idempotent (parsed : value) :
  moment_utc (VMoment (moment_utc parsed)) = moment_utc parsed.
Proof. unfold moment_utc. cbn [m_valueOf]. by rewrite TimeClip_idempotent. Qed.

(** X3.  Normalizing is idempotent: what [_toMoment] returned, [_toMoment]
    returns again. *)
Theorem toMoment_idempotent (it v : value) :
  _toMoment it = Ok v -> _toMoment v = Ok v.
Proof.
  intros Hm. destruct (_toMoment_Ok_inv it v Hm) as [[Hf ->] | [_ (parsed & -> & Hv)]];
    [exact Hm|].
  unfold _toMoment.
  cbn [truthy negb _isTimestampLike isTimestamp get own_property default typeof jstype_eqb andb].
  cbn [mbind result_bind].
  by rewrite moment_utc_idempotent, Hv.
Qed.

(** X4.  [_toMoment] throws an [IllegalArgumentError] that carries the
    value when the value does not parse to a valid instant: a value that
    is neither a [Timestamp] nor shaped like one, and a [Timestamp] by its
    milliseconds.  Any [IllegalArgumentError] it throws carries a value
    that does not make a valid instant; the one other error it lets
    through is the [Error] of the [Timestamp] constructor, and only for a
    value that is not a [Timestamp] but carries numbers as [_seconds] and
    [_nanoseconds]. *)
Theorem toMoment_errors (it : value) :
  truthy it = true ->
  (truthy (_isTimestampLike it (VBool true)) = false ->
   Moment.isValid (moment_utc it) = false ->
   _toMoment it = Throw (mkError errors.IllegalArgumentError it))
  /\ (forall ts, it = VTimestamp ts ->
        Moment.isValid (moment_utc (VNum (Timestamp.toMillis ts))) = false ->
        _toMoment it
        = Throw (mkError errors.IllegalArgumentError (VNum (Timestamp.toMillis ts))))
  /\ (forall e, _toMoment it = Throw e ->
        (eclass e = errors.IllegalArgumentError
         /\ Moment.isValid (moment_utc (earg e)) = false)
        \/ (eclass e = Error_
            /\ isTimestamp it = false
            /\ typeof (get it "_seconds") = TNumber
            /\ typeof (get it "_nanoseconds") = TNumber)).
Proof.
  intros Ht. split; [|split].
  - intros Hshape Hinvalid. unfold _toMoment. rewrite Ht. cbn [negb].
    unfold _isTimestampLike in *. destruct (isTimestamp it) eqn:Hts; [discriminate|].
    rewrite Hshape. cbn [mbind result_bind].
    assert (match it with VTimestamp ts => VNum (Timestamp.toMillis ts) | _ => it end = it) as ->
      by by destruct it.
    by rewrite Hinvalid.
  - intros ts -> Hinvalid. rewrite _toMoment_timestamp. cbn zeta. by rewrite Hinvalid.
  - intros e. unfold _toMoment. rewrite Ht. cbn [negb].
    destruct (if truthy (_isTimestampLike it (VBool false)) then _ else _) as [it1|e'] eqn:HX;
      cbn [mbind result_bind]; intros Hm.
    + left. destruct (Moment.isValid _) eqn:Hv; [discriminate|]. by injection Hm as <-.
    + right. injection Hm as <-. unfold _isTimestampLike in HX.
      destruct (isTimestamp it) eqn:Hts; cbn [truthy] in HX; [discriminate|].
      destruct (jstype_eqb (typeof (get it "_seconds")) TNumber) eqn:Hs;
        destruct (jstype_eqb (typeof (get it "_nanoseconds")) TNumber) eqn:Hn;
        cbn [andb] in HX; try discriminate.
      split; [|split; [reflexivity|split; by apply jstype_eqb_eq]].
      unfold _fromTimestampDocument in HX. rewrite Ht in HX.
      destruct (Timestamp.new _ _) as [ts|e''] eqn:Hnew; [discriminate|].
      injection HX as <-. by apply Timestamp_new_error in Hnew.
Qed.

(** X5.  A well-formed timestamp of whole milliseconds, within the range
    of dates, survives the way to an instant and back unchanged. *)
Theorem toTimestamp_toMoment_roundtrip (ts : timestamp) (ms : Z) :
  Timestamp.wf ts ->
  _nanoseconds ts mod Timestamp.MS_TO_NANOS = 0 ->
  Timestamp.toMillis ts = NInt ms ->
  Z.abs ms <= Moment.MAX_TIME ->
  (instant ← _toMoment (VTimestamp ts); _toTimestamp instant) = Ok (VTimestamp ts).
Proof.
  intros Hwf Hmod Hms Hrange.
  rewrite _toMoment_timestamp, Hms. cbn zeta.
  destruct (moment_utc_in_range ms Hrange) as [-> Hvalid]. rewrite Hvalid.
  cbn [mbind result_bind]. unfold _toTimestamp, Moment.valueOf. cbn [m_valueOf as_number].
  rewrite TimeClip_in_range by done. cbn [as_number].
  rewrite fromMillis_int by by apply in_range_safe.
  cbn. by rewrite (timestamp_of_millis_toMillis ts ms).
Qed.

End TimeInvariants.


Lemma toMoment_returns_valid_utc_moment_witness :
  (truthy (VNum (NInt 1577836800000)) = false
   /\ VMoment (mkMoment (NInt 1577836800000) true) = VNum (NInt 1577836800000))
  \/ (truthy (VNum (NInt 1577836800000)) = true
      /\ exists m, VMoment (mkMoment (NInt 1577836800000) true) = VMoment m
                   /\ Moment.isValid m = true /\ m_isUTC m = true).
Proof.
  apply (toMoment_returns_valid_utc_moment (H := Example.host) (VNum (NInt 1577836800000))).
  reflexivity.
Defined.

Lemma toMoment_idempotent_witness :
  _toMoment (H := Example.host) (VMoment (mkMoment (NInt 1577836800000) true))
  = Ok (VMoment (mkMoment (NInt 1577836800000) true)).
Proof.
  apply (toMoment_idempotent (H := Example.host) (VNum (NInt 1577836800000))).
  reflexivity.
Defined.

(** A string that the parser makes nothing of. *)
Lemma toMoment_errors_witness :
  _toMoment (H := Example.host) (VStr "the day after")
  = Throw (mkError errors.IllegalArgumentError (VStr "the day after")).
Proof.
  refine (proj1 (toMoment_errors (H := Example.host) (VStr "the day after") _) _ _);
    reflexivity.
Defined.

Lemma toTimestamp_toMoment_roundtrip_witness :
  (instant ← _toMoment (H := Example.host) (VTimestamp (mkTimestamp 1577836800 123000000));
   _toTimestamp (H := Example.host) instant)
  = Ok (VTimestamp (mkTimestamp 1577836800 123000000)).
Proof.
  apply (toTimestamp_toMoment_roundtrip (H := Example.host)
           (mkTimestamp 1577836800 123000000) 1577836800123).
  - unfold Timestamp.wf. simpl. lia.
  - reflexivity.
  - reflexivity.
  - unfold Moment.MAX_TIME. lia.
Defined.

(** ** Properties of the tree and document converter *)

Section value_induction.
Variable P : value -> Prop.
Hypothesis Hleaf : forall v,
  match v with VFun _ _ | VArr _ | VObj _ _ => False | _ => True end -> P v.
Hypothesis Hfun : forall f props, Forall (fun kv => P kv.2) props -> P (VFun f props).
Hypothesis Harr : forall elems, Forall P elems -> P (VArr elems).
Hypothesis Hobj : forall c props, Forall (fun kv => P kv.2) props -> P (VObj c props).

(** Induction on a value, with the property at hand for every element and
    every field. *)
Fixpoint value_ind_nested (v : value) : P v :=
  let fields :=
    fix fields (l : list (string * value)) : Forall (fun kv => P kv.2) l :=
      match l with
      | [] => Forall_nil_2 _
      | (k, x) :: rest =>
          Forall_cons_2 (fun kv => P kv.2) (k, x) rest (value_ind_nested x) (fields rest)
      end in
  match v with
  | VFun f props => Hfun f props (fields props)
  | VArr elems =>
      Harr elems
        ((fix each (l : list value) : Forall P l :=
            match l with
            | [] => Forall_nil_2 _
            | x :: rest => Forall_cons_2 P x rest (value_ind_nested x) (each rest)
            end) elems)
  | VObj c props => Hobj c props (fields props)
  | VUndefined => Hleaf VUndefined I
  | VNull => Hleaf VNull I
  | VBool b => Hleaf (VBool b) I
  | VNum n => Hleaf (VNum n) I
  | VStr s => Hleaf (VStr s) I
  | VEnum e n => Hleaf (VEnum e n) I
  | VMoment m => Hleaf (VMoment m) I
  | VDate t => Hleaf (VDate t) I
  | VTimestamp ts => Hleaf (VTimestamp ts) I
  end.

End value_induction.

Section DocumentProperties.
Context `{Host}.

Lemma fmap_Ok_inv {A B} (f : A -> B) (r : result A) (b : B) :
  f <$> r = Ok b -> exists a, r = Ok a /\ b = f a.
Proof. destruct r as [a|e]; cbn; [intros [= <-]; eauto | discriminate]. Qed.

Lemma bind_Ok_inv {A B} (r : result A) (k : A -> result B) (b : B) :
  r ≫= k = Ok b -> exists a, r = Ok a /\ k a = Ok b.
Proof. destruct r as [a|e]; cbn; [eauto | discriminate]. Qed.

(** Cloning with the trait's customizer leaves no Enum instance, moment or
    Date behind, at the root or below it. *)
Lemma cloneDeepWith_at_no_domain_values (v : value) :
  forall root t,
    cloneDeepWith_at root _toTreeCustomizer v = Ok t -> no_domain_values t = true.
Proof.
  induction v as [v Hv|f props IH|elems IH|c props IH] using value_ind_nested;
    intros root t Hc.
  - destruct v; try contradiction; cbn in Hc;
      try (injection Hc as <-; reflexivity);
      apply fmap_Ok_inv in Hc as (ts & _ & ->); reflexivity.
  - cbn [cloneDeepWith_at _toTreeCustomizer] in Hc. destruct root; [|by injection Hc as <-].
    apply fmap_Ok_inv in Hc as (l' & Heach & ->). unfold plain. cbn [no_domain_values].
    revert l' Heach. induction IH as [|[k x] xs Hx _ IHxs]; intros l' Heach.
    + injection Heach as <-. reflexivity.
    + destruct (enumerable f k); [|by apply IHxs].
      apply bind_Ok_inv in Heach as (x' & Hx' & Heach).
      apply bind_Ok_inv in Heach as (xs' & Hxs' & Heach).
      injection Heach as <-. cbn [forallb].
      cbn in Hx. rewrite (Hx false x' Hx'), (IHxs xs' Hxs'). reflexivity.
  - cbn [cloneDeepWith_at _toTreeCustomizer] in Hc.
    apply fmap_Ok_inv in Hc as (l' & Heach & ->). cbn [no_domain_values].
    revert l' Heach. induction IH as [|x xs Hx _ IHxs]; intros l' Heach.
    + injection Heach as <-. reflexivity.
    + apply bind_Ok_inv in Heach as (x' & Hx' & Heach).
      apply bind_Ok_inv in Heach as (xs' & Hxs' & Heach).
      injection Heach as <-. cbn [forallb].
      rewrite (Hx false x' Hx'), (IHxs xs' Hxs'). reflexivity.
  - cbn [cloneDeepWith_at _toTreeCustomizer] in Hc.
    apply fmap_Ok_inv in Hc as (l' & Heach & ->). cbn [no_domain_values].
    revert l' Heach. induction IH as [|[k x] xs Hx _ IHxs]; intros l' Heach.
    + injection Heach as <-. reflexivity.
    + apply bind_Ok_inv in Heach as (x' & Hx' & Heach).
      apply bind_Ok_inv in Heach as (xs' & Hxs' & Heach).
      injection Heach as <-. cbn [forallb].
      cbn in Hx. rewrite (Hx false x' Hx'), (IHxs xs' Hxs'). reflexivity.
Qed.

(** X6.  The tree that [_toTree] makes of an entity graph holds no Enum
    instance, no moment and no Date any more, however deep they were. *)
Theorem toTree_replaces_domain_values (entity tree : value) :
  _toTree entity = Ok tree -> no_domain_values tree = true.
Proof.
  unfold _toTree, cloneDeepWith. intros Hc.
  by apply (cloneDeepWith_at_no_domain_values entity true).
Qed.

Lemma assign_prop_fresh (k : string) (v : value) (props : list (string * value)) :
  k ∉ List.map fst props -> assign_prop k v props = props ++ [(k, v)].
Proof.
  induction props as [|[k' v'] rest IH]; intros Hk; [reflexivity|]. cbn in Hk |- *.
  apply not_elem_of_cons in Hk as [Hne Hk].
  destruct (String.eqb_spec k' k) as [->|_]; [done|]. by rewrite IH.
Qed.

Lemma assign_prop_keys (k : string) (v : value) (props : list (string * value)) :
  k ∈ List.map fst props -> List.map fst (assign_prop k v props) = List.map fst props.
Proof.
  induction props as [|[k' v'] rest IH]; intros Hk; cbn in Hk |- *.
  - by apply elem_of_nil in Hk.
  - destruct (String.eqb_spec k' k) as [->|Hne]; [reflexivity|]. cbn.
    apply elem_of_cons in Hk as [->|Hk]; [done|]. by rewrite IH.
Qed.

Lemma assign_prop_NoDup (k : string) (v : value) (props : list (string * value)) :
  NoDup (List.map fst props) -> NoDup (List.map fst (assign_prop k v props)).
Proof.
  intros Hnd. destruct (decide (k ∈ List.map fst props)) as [Hin|Hnin].
  - by rewrite assign_prop_keys.
  - rewrite assign_prop_fresh by done. rewrite List.map_app. cbn.
    apply NoDup_app. split; [done|]. split; [|apply NoDup_singleton].
    intros x Hx Hx'. apply list_elem_of_singleton in Hx'. by subst x.
Qed.

Lemma assign_prop_Forall (Q : value -> Prop) (k : string) (v : value)
    (props : list (string * value)) :
  Forall (fun kv => Q kv.2) props -> Q v -> Forall (fun kv => Q kv.2) (assign_prop k v props).
Proof.
  intros Hall Hv. induction Hall as [|[k' v'] rest Hx Hrest IH]; cbn.
  - by constructor.
  - destruct (String.eqb k' k); constructor; done.
Qed.

(** What the [reduce] with [Object.assign] builds: an object with one
    field per key, holding values of the fields it was given. *)
Lemma fold_assign_invariant (Q : value -> Prop) (fields accum : list (string * value)) :
  NoDup (List.map fst accum) ->
  Forall (fun kv => Q kv.2) accum ->
  Forall (fun kv => Q kv.2) fields ->
  let r := fold_left (fun accum next => assign_prop next.1 next.2 accum) fields accum in
  NoDup (List.map fst r) /\ Forall (fun kv => Q kv.2) r.
Proof.
  cbn zeta. revert accum. induction fields as [|[k v] rest IH]; intros accum Hnd Hacc Hall.
  - done.
  - cbn [fold_left]. apply Forall_cons in Hall as [Hv Hrest]. apply IH.
    + by apply assign_prop_NoDup.
    + by apply assign_prop_Forall.
    + done.
Qed.

(** Fields with keys of their own are assigned one after the other. *)
Lemma fold_assign_distinct (fields accum : list (string * value)) :
  NoDup (List.map fst accum ++ List.map fst fields) ->
  fold_left (fun accum next => assign_prop next.1 next.2 accum) fields accum = accum ++ fields.
Proof.
  revert accum. induction fields as [|[k v] rest IH]; intros accum Hnd.
  - by rewrite app_nil_r.
  - cbn [fold_left]. cbn in Hnd.
    apply NoDup_app in Hnd as (Hacc & Hdisj & Hfields).
    apply NoDup_cons in Hfields as [Hk Hrest].
    rewrite assign_prop_fresh.
    2:{ intros Hin. apply (Hdisj k Hin). apply elem_of_cons. by left. }
    rewrite IH.
    + by rewrite <- app_assoc.
    + rewrite List.map_app. cbn. rewrite <- app_assoc. cbn.
      apply NoDup_app. split; [done|]. split; [|by apply NoDup_cons].
      intros x Hx. apply Hdisj in Hx. done.
Qed.

Lemma _toTimestamp_Ok_timestamp (it v : value) :
  _toTimestamp it = Ok v -> exists ts, v = VTimestamp ts.
Proof.
  unfold _toTimestamp.
  destruct (Timestamp.fromMillis _) as [ts|e]; cbn; [intros [= <-]; eauto | discriminate].
Qed.

(** Taking a successful computation apart. *)
Ltac invert_ok :=
  repeat match goal with
         | H : _ ≫= _ = Ok _ |- _ =>
             let a := fresh "a" in
             let Ha := fresh "Ha" in
             apply bind_Ok_inv in H as (a & Ha & H); cbn beta in H
         | H : _toTimestamp _ = Ok _ |- _ =>
             apply _toTimestamp_Ok_timestamp in H as [? ->]
         | H : mret _ = Ok _ |- _ => injection H as <-
         | H : Ok _ = Ok _ |- _ => injection H as <-
         end.

(** A period document is a document. *)
Lemma _toPeriodDocument_is_document (period d : value) :
  _toPeriodDocument period = Ok d -> is_document d = true.
Proof.
  unfold _toPeriodDocument. intros Hd.
  apply bind_Ok_inv in Hd as (type & Htype & Hd).
  assert (exists s, type = VStr s) as [s ->].
  { destruct period; cbn in Htype; try discriminate; injection Htype as <-; eauto. }
  destruct (truthy (get period "_begin")); destruct (truthy (get period "_end"));
    invert_ok; reflexivity.
Qed.

(** A field that is kept stays a field that is kept once converted. *)
Lemma _toFirestoreDocument_persistable (x x' : value) :
  persistable x = true -> no_domain_values x = true ->
  _toFirestoreDocument x = Ok x' -> persistable x' = true.
Proof.
  intros Hp Hnd Hx. destruct x; cbn in Hp, Hnd, Hx; try discriminate;
    try (injection Hx as <-; reflexivity).
  - apply fmap_Ok_inv in Hx as (l & _ & ->). reflexivity.
  - destruct (_ || _)%bool.
    + unfold _toPeriodDocument in Hx.
      repeat (apply bind_Ok_inv in Hx as (? & _ & Hx)).
      injection Hx as <-. reflexivity.
    + apply fmap_Ok_inv in Hx as (l & _ & ->). reflexivity.
Qed.

(** Converting a tree without Enum instances, moments and Dates gives a
    document. *)
Lemma _toFirestoreDocument_is_document (v : value) :
  forall d,
    no_domain_values v = true -> _toFirestoreDocument v = Ok d -> is_document d = true.
Proof.
  induction v as [v Hv|f props IH|elems IH|c props IH] using value_ind_nested;
    intros d Hnd Hd.
  - destruct v; try contradiction; cbn in Hnd, Hd; try discriminate;
      injection Hd as <-; reflexivity.
  - discriminate.
  - cbn [_toFirestoreDocument] in Hd. cbn [no_domain_values] in Hnd.
    apply fmap_Ok_inv in Hd as (l' & Heach & ->). cbn [is_document].
    revert l' Heach. induction IH as [|x xs Hx _ IHxs]; intros l' Heach.
    + injection Heach as <-. reflexivity.
    + cbn [forallb] in Hnd. apply andb_prop in Hnd as [Hndx Hndxs].
      apply bind_Ok_inv in Heach as (x' & Hx' & Heach).
      apply bind_Ok_inv in Heach as (xs' & Hxs' & Heach).
      injection Heach as <-. cbn [forallb].
      rewrite (Hx x' Hndx Hx'), (IHxs Hndxs xs' Hxs'). reflexivity.
  - cbn [_toFirestoreDocument] in Hd. cbn [no_domain_values] in Hnd.
    destruct (_ || _)%bool; [by apply _toPeriodDocument_is_document in Hd|].
    apply fmap_Ok_inv in Hd as (fields & Heach & ->).
    assert (Forall (fun kv => persistable kv.2 = true /\ is_document kv.2 = true) fields)
      as Hfields.
    { revert fields Heach. induction IH as [|[k x] xs Hx _ IHxs]; intros fields Heach.
      - injection Heach as <-. constructor.
      - cbn [forallb] in Hnd. apply andb_prop in Hnd as [Hndx Hndxs].
        destruct (persistable x) eqn:Hp.
        + apply bind_Ok_inv in Heach as (x' & Hx' & Heach).
          apply bind_Ok_inv in Heach as (xs' & Hxs' & Heach).
          injection Heach as <-. constructor.
          * cbn. split; [by eapply _toFirestoreDocument_persistable | by apply Hx].
          * by apply IHxs.
        + by apply IHxs. }
    destruct (fold_assign_invariant
                (fun x => persistable x = true /\ is_document x = true) fields [])
      as [Hnodup Hall]; [constructor | constructor | done |].
    unfold plain. cbn [is_document].
    rewrite bool_decide_eq_true_2 by reflexivity.
    rewrite bool_decide_eq_true_2 by done. cbn [andb].
    apply forallb_forall. intros [k x] Hin.
    rewrite Forall_forall in Hall.
    destruct (Hall (k, x)) as [Hp Hdoc]; [by apply list_elem_of_In|].
    cbn in Hp, Hdoc. by rewrite Hp, Hdoc.
Qed.

(** X7.  Whatever entity [_toDocument] converts, what it returns is a
    document: below the root there is no function, no [null], no Enum
    instance, moment or Date and no instance of a class, every object is a
    plain one, and no field of an object is [undefined]. *)
Theorem toDocument_returns_a_document (entity doc : value) :
  _toDocument entity = Ok doc -> is_document doc = true.
Proof.
  unfold _toDocument. intros Hd.
  apply bind_Ok_inv in Hd as (tree & Htree & Hd).
  apply (_toFirestoreDocument_is_document tree); [|exact Hd].
  unfold _toTree, cloneDeepWith in Htree.
  by apply (cloneDeepWith_at_no_domain_values entity true).
Qed.

(** X8.  A document is a fixed point: [_toFirestoreDocument] returns it as
    it is, timestamps with their nanoseconds included. *)
Theorem toFirestoreDocument_fixes_documents (doc : value) :
  is_document doc = true -> _toFirestoreDocument doc = Ok doc.
Proof.
  induction doc as [v Hv|f props IH|elems IH|c props IH] using value_ind_nested; intros Hd.
  - destruct v; try contradiction; cbn in Hd; try discriminate; reflexivity.
  - discriminate.
  - cbn [_toFirestoreDocument]. cbn [is_document] in Hd.
    enough ((fix each (l : list value) : result (list value) :=
               match l with
               | [] => Ok []
               | x :: xs => x' ← _toFirestoreDocument x; xs' ← each xs; mret (x' :: xs')
               end) elems = Ok elems) as -> by reflexivity.
    induction IH as [|x xs Hx _ IHxs]; [reflexivity|].
    cbn [forallb] in Hd. apply andb_prop in Hd as [Hdx Hdxs].
    rewrite (Hx Hdx). cbn [mbind result_bind]. rewrite (IHxs Hdxs). reflexivity.
  - cbn [is_document] in Hd.
    apply andb_prop in Hd as [Hd Hfields]. apply andb_prop in Hd as [Hc Hnodup].
    apply bool_decide_eq_true_1 in Hc. apply bool_decide_eq_true_1 in Hnodup. subst c.
    cbn [_toFirestoreDocument].
    change (instanceof (VObj Object_class props) "Period"
            || instanceof (VObj Object_class props) "DatePeriod") with false.
    cbn iota.
    enough ((fix each (l : list (string * value)) : result (list (string * value)) :=
               match l with
               | [] => Ok []
               | (k, x) :: xs =>
                   if persistable x
                   then x' ← _toFirestoreDocument x; xs' ← each xs; mret ((k, x') :: xs')
                   else each xs
               end) props = Ok props) as ->.
    { cbn [fmap result_fmap]. rewrite fold_assign_distinct by done. reflexivity. }
    clear Hnodup. induction IH as [|[k x] xs Hx _ IHxs]; [reflexivity|].
    cbn [forallb] in Hfields. apply andb_prop in Hfields as [Hx' Hxs].
    apply andb_prop in Hx' as [Hp Hdx].
    rewrite Hp. cbn in Hx. rewrite (Hx Hdx). cbn [mbind result_bind].
    rewrite (IHxs Hxs). reflexivity.
Qed.

End DocumentProperties.

(** ** Properties of the mapper registry *)

Section RegistryProperties.
Context `{Host} `{Concrete}.

Implicit Types (σ : Repo).

Lemma orderly_refl σ : orderly σ σ.
Proof. unfold orderly, registry_grows. split; [repeat split; auto | auto]. Qed.

Lemma orderly_trans σ1 σ2 σ3 : orderly σ1 σ2 -> orderly σ2 σ3 -> orderly σ1 σ3.
Proof.
  intros [(Hc1 & Ha1 & Hd1 & Hp1 & Hu1) Hok1] [(Hc2 & Ha2 & Hd2 & Hp2 & Hu2) Hok2].
  split; [|by auto].
  repeat split; [intros; by apply Hc2, Hc1 | congruence ..].
Qed.

Lemma orderly_bind {A B} (m : M A) (k : A -> M B) σ :
  orderly σ (m σ).2 ->
  (forall a σ1, orderly σ1 (k a σ1).2) ->
  orderly σ ((m ≫= k) σ).2.
Proof.
  intros Hm Hk. unfold mbind, M_bind.
  destruct (m σ) as [[a|e] σ1]; cbn [snd] in *; [|done].
  eapply orderly_trans; [exact Hm | apply Hk].
Qed.

Lemma orderly_with_heap (h : gmap loc object) σ : orderly σ (with_heap h σ).
Proof. unfold orderly, registry_grows. split; [repeat split; auto | auto]. Qed.

(** Caching a mapper under a name other than [noop] and [moment], or the
    trait's own mapper under its own name. *)
Lemma _getMapper_orderly (mapper : scalar) (name : string) σ :
  name <> "" ->
  (name = "noop" -> mapper = NoOp) ->
  (name = "moment" -> mapper = MomentOf) ->
  orderly σ (_getMapper mapper name σ).2.
Proof.
  intros Hname Hnoop Hmoment. unfold _getMapper.
  destruct (String.eqb_spec name "") as [->|_]; [done|].
  unfold mbind, M_bind, gets, modify. cbn.
  destruct (_mapperCache σ !! name) as [cached|] eqn:Hc; cbn; [apply orderly_refl|].
  destruct (Object_prototype name) as [found|]; cbn; [apply orderly_refl|].
  split.
  - repeat split. intros name' c Hc'. cbn.
    destruct (decide (name = name')) as [<-|Hne]; [congruence|].
    by rewrite lookup_insert_ne.
  - intros [Hn Hm]. split; intros c; cbn.
    + destruct (decide (name = "noop")) as [->|Hne].
      * rewrite lookup_insert_eq. intros [= <-]. by apply Hnoop.
      * rewrite lookup_insert_ne by done. apply Hn.
    + destruct (decide (name = "moment")) as [->|Hne].
      * rewrite lookup_insert_eq. intros [= <-]. by apply Hmoment.
      * rewrite lookup_insert_ne by done. apply Hm.
Qed.

Lemma _toEnumMapper_orderly (enumeration : value) σ :
  orderly σ (_toEnumMapper enumeration σ).2.
Proof. unfold _toEnumMapper. apply _getMapper_orderly; cbn; discriminate. Qed.

Lemma _noOpMapper_orderly σ : orderly σ (_noOpMapper σ).2.
Proof. apply _getMapper_orderly; [discriminate | done | discriminate]. Qed.

Lemma resolve_orderly (mappers : value) (key : string) σ :
  orderly σ (resolve mappers key σ).2.
Proof.
  unfold resolve. apply orderly_bind.
  { unfold lift. destruct (candidate mappers key); apply orderly_refl. }
  intros map σ1. destruct (is_enum_class _).
  - apply orderly_bind; [apply _toEnumMapper_orderly | intros; apply orderly_refl].
  - destruct (negb _); [|apply orderly_refl].
    apply orderly_bind; [apply _noOpMapper_orderly | intros; apply orderly_refl].
Qed.

Lemma mapProps_callback_orderly (from to : loc) (sp gp : string) (mappers : value)
    (accum : loc) (key : string) σ :
  orderly σ (mapProps_callback from to sp gp mappers accum key σ).2.
Proof.
  unfold mapProps_callback.
  apply orderly_bind; [apply resolve_orderly|]. intros [map e] σ1.
  apply orderly_bind; [rewrite call_converter_state; apply orderly_refl|]. intros value σ2.
  apply orderly_bind; [|intros; apply orderly_refl].
  destruct (negb _); [|apply orderly_refl].
  rewrite set_property_assigned. destruct (assigned _ _ _);
    [apply orderly_with_heap | apply orderly_refl].
Qed.

Lemma reduce_orderly {A B} (cb : B -> A -> M B) (arr : list A) (init : B) σ :
  (forall accum x σ1, orderly σ1 (cb accum x σ1).2) ->
  orderly σ (reduce cb arr init σ).2.
Proof.
  intros Hcb. revert init σ. induction arr as [|x xs IH]; intros init σ; [apply orderly_refl|].
  cbn [reduce]. apply orderly_bind; [apply Hcb | intros; apply IH].
Qed.

Lemma _mapProps_orderly (a : mapPropsArgs) σ : orderly σ (_mapProps a σ).2.
Proof.
  unfold _mapProps.
  apply orderly_bind.
  { destruct (a_from a); [apply orderly_refl | apply orderly_with_heap]. }
  intros from σ1. apply orderly_bind.
  { destruct (a_to a); [apply orderly_refl | apply orderly_with_heap]. }
  intros to σ2. apply orderly_bind.
  { destruct (a_keys a) as [|k|ks]; try apply orderly_refl.
    destruct (String.eqb k ""); apply orderly_refl. }
  intros keys σ3. apply reduce_orderly. intros. apply mapProps_callback_orderly.
Qed.

(** X9.  The registry never evicts: through any call of [_mapProps],
    whether it returns or throws, every mapper cached before is cached
    under the same name after, and the call changes nothing of the
    repository but the heap and the cache. *)
Theorem mapProps_never_evicts (a : mapPropsArgs) σ :
  let σ' := (_mapProps a σ).2 in
  (forall name c, _mapperCache σ !! name = Some c -> _mapperCache σ' !! name = Some c)
  /\ arrays σ' = arrays σ
  /\ documents σ' = documents σ
  /\ _path σ' = _path σ
  /\ uuids σ' = uuids σ.
Proof. cbn zeta. destruct (_mapProps_orderly a σ) as [Hgrows _]. exact Hgrows. Qed.

(** X10.  A registry whose names [noop] and [moment] hold the trait's own
    mappers still does after any call of [_mapProps], whatever converters
    and enumerations the call brought. *)
Theorem mapProps_keeps_registry_in_order (a : mapPropsArgs) σ :
  registry_ok σ -> registry_ok (_mapProps a σ).2.
Proof. intros Hok. destruct (_mapProps_orderly a σ) as [_ Hkeeps]. by apply Hkeeps. Qed.

(** X11.  Enumeration mappers are cached by the name of the class alone:
    once the mapper of one enumeration is cached, an enumeration of the
    same name is given that mapper, the [of] of the first, and not its
    own. *)
Theorem toEnumMapper_is_shared_by_name (first second : value) σ :
  get first "name" = get second "name" ->
  _mapperCache σ !! ("enum:" +:+ interpolate (get first "name")) = None ->
  (m1 ← _toEnumMapper first; m2 ← _toEnumMapper second; mret (m1, m2)) σ
  = (Ok (Fn (get first "of"), Fn (get first "of")),
     with_mapperCache (<["enum:" +:+ interpolate (get first "name") := Fn (get first "of")]>
                         (_mapperCache σ)) σ).
Proof.
  intros Hname Hfresh.
  unfold _toEnumMapper, _getMapper. rewrite <- Hname.
  change (String.eqb ("enum:" +:+ interpolate (get first "name")) "") with false.
  unfold mbind, M_bind, gets, modify. cbn.
  rewrite Hfresh, Object_prototype_enum. cbn. rewrite lookup_insert_eq. reflexivity.
Qed.

End RegistryProperties.

(** ** The default mapping *)

Section DefaultMapping.
Context `{Host} `{Concrete}.

Implicit Types (σ : Repo) (from to : loc).

Lemma absent_is_undefined (v : value) : absent v = is_undefined v.
Proof. by destruct v. Qed.

(** Assigning under a name that stores a field stores the field. *)
Lemma assigned_data_slot (dest : object) (k : string) (r : value) :
  data_slot dest k = true ->
  assigned dest k r = Ok (mkObject (oclass dest) (assign_prop k r (ofields dest))).
Proof.
  unfold data_slot, assigned.
  destruct (lookup_prop k (ofields dest)) as [x|] eqn:Hlook.
  - intros _. rewrite bool_decide_eq_true_2; [reflexivity|].
    destruct (decide (k ∈ List.map fst (ofields dest))) as [|Hnin]; [done|].
    apply lookup_prop_None in Hnin. congruence.
  - rewrite bool_decide_eq_false_2 by by apply lookup_prop_None.
    destruct (class_chain _ k) as [[x|g s]|]; [reflexivity | discriminate |].
    by destruct (String.eqb k "__proto__").
Qed.

Lemma data_slot_added (dest : object) (k k' : string) (r : value) :
  data_slot dest k' = true ->
  data_slot (mkObject (oclass dest) (assign_prop k r (ofields dest))) k' = true.
Proof.
  unfold data_slot. cbn [ofields oclass].
  destruct (decide (k = k')) as [<-|Hne]; [by rewrite lookup_assign_prop_eq|].
  by rewrite lookup_assign_prop_ne.
Qed.

Lemma get_property_added_eq (dest : object) (k : string) (r : value) :
  get_property (snapshot (mkObject (oclass dest) (assign_prop k r (ofields dest)))) k = Ok r.
Proof.
  unfold get_property, snapshot. cbn [own_property ofields oclass].
  by rewrite lookup_assign_prop_eq.
Qed.

Lemma get_property_added_ne (dest : object) (k k' : string) (r : value) :
  k <> k' ->
  data_slot dest k' = true ->
  get_property (snapshot (mkObject (oclass dest) (assign_prop k r (ofields dest)))) k'
  = get_property (snapshot dest) k'.
Proof.
  intros Hne. unfold data_slot, get_property, snapshot, inherited.
  cbn [own_property ofields oclass class_of].
  rewrite lookup_assign_prop_ne by done.
  destruct (lookup_prop k' (ofields dest)); [reflexivity|].
  destruct (class_chain _ k') as [[x|g s]|]; [reflexivity | discriminate |].
  intros _. by destruct (Object_prototype k').
Qed.

Lemma resolution_without_converters (key : string) : resolution VUndefined key = Identity.
Proof. reflexivity. Qed.

(** Without converters, the keys that follow leave a field of another
    name as it reads. *)
Lemma mapped_default_frame (keys : list string) (source dest : object) (sp gp name : string) :
  (forall key, key ∈ keys -> sp +:+ key <> name) ->
  (forall key, key ∈ keys -> data_slot dest (sp +:+ key) = true) ->
  data_slot dest name = true ->
  get_property (snapshot (mapped keys false source dest sp gp VUndefined).2) name
  = get_property (snapshot dest) name.
Proof.
  revert dest. induction keys as [|k rest IH]; intros dest Hfresh Hslots Hname; [reflexivity|].
  cbn [mapped]. rewrite resolution_without_converters.
  assert (forall key, key ∈ rest -> sp +:+ key <> name) as Hfresh'
    by (intros key Hin; apply Hfresh; by apply elem_of_cons; right).
  assert (forall key, key ∈ rest -> data_slot dest (sp +:+ key) = true) as Hslots'
    by (intros key Hin; apply Hslots; by apply elem_of_cons; right).
  destruct (conversion Identity k source dest gp) as [r|e]; [|reflexivity].
  destruct (absent r); [by apply IH|].
  rewrite assigned_data_slot by (apply Hslots; apply elem_of_cons; by left).
  rewrite IH.
  - apply get_property_added_ne; [|done]. apply Hfresh. apply elem_of_cons. by left.
  - done.
  - intros key Hin. by apply data_slot_added, Hslots'.
  - by apply data_slot_added.
Qed.

(** The mapping of the specification without converters: each key's field
    of the destination ends as the source's field when that is defined,
    and as it was otherwise. *)
Lemma mapped_default (keys : list string) (source dest : object) (sp gp : string) :
  NoDup keys ->
  (forall key, key ∈ keys -> readable source (gp +:+ key)) ->
  (forall key, key ∈ keys -> data_slot dest (sp +:+ key) = true) ->
  let outcome := mapped keys false source dest sp gp VUndefined in
  outcome.1 = None
  /\ forall key v, key ∈ keys ->
       get_property (snapshot source) (gp +:+ key) = Ok v ->
       get_property (snapshot outcome.2) (sp +:+ key)
       = if is_undefined v then get_property (snapshot dest) (sp +:+ key) else Ok v.
Proof.
  cbn zeta. revert dest. induction keys as [|k rest IH]; intros dest Hnd Hread Hslots.
  - split; [reflexivity|]. intros key v Hin. by apply elem_of_nil in Hin.
  - apply NoDup_cons in Hnd as [Hk Hrest].
    assert (forall key, key ∈ rest -> readable source (gp +:+ key)) as Hread'
      by (intros key Hin; apply Hread; by apply elem_of_cons; right).
    assert (forall key, key ∈ rest -> data_slot dest (sp +:+ key) = true) as Hslots'
      by (intros key Hin; apply Hslots; by apply elem_of_cons; right).
    assert (data_slot dest (sp +:+ k) = true) as Hslot
      by (apply Hslots; apply elem_of_cons; by left).
    assert (forall key, key ∈ rest -> sp +:+ key <> sp +:+ k) as Hfresh.
    { intros key Hin Heq. apply (inj (String.app sp)) in Heq. by subst key. }
    destruct (Hread k) as [r Hr]; [apply elem_of_cons; by left|].
    cbn [mapped]. rewrite resolution_without_converters. cbn [conversion].
    rewrite raw_value_get_property, Hr, absent_is_undefined.
    destruct (is_undefined r) eqn:Hundef.
    + destruct (IH dest Hrest Hread' Hslots') as [IHok IHkeys].
      split; [exact IHok|]. intros key v Hin Hv.
      apply elem_of_cons in Hin as [->|Hin]; [|by apply IHkeys].
      rewrite Hr in Hv. injection Hv as <-. rewrite Hundef.
      by apply mapped_default_frame.
    + rewrite assigned_data_slot by done.
      set (dest' := mkObject (oclass dest) (assign_prop (sp +:+ k) r (ofields dest))).
      destruct (IH dest' Hrest Hread') as [IHok IHkeys].
      { intros key Hin. by apply data_slot_added, Hslots'. }
      split; [exact IHok|]. intros key v Hin Hv.
      apply elem_of_cons in Hin as [->|Hin].
      * rewrite Hr in Hv. injection Hv as <-. rewrite Hundef.
        rewrite mapped_default_frame.
        -- apply get_property_added_eq.
        -- done.
        -- intros key Hin. by apply data_slot_added, Hslots'.
        -- by apply data_slot_added.
      * rewrite (IHkeys key v Hin Hv). destruct (is_undefined v); [|reflexivity].
        apply get_property_added_ne; [|by apply Hslots'].
        intros Heq. by apply (Hfresh key Hin).
Qed.

(** The loop without converters does as the specification's mapping. *)
Lemma default_loop from to (sp gp : string) (keys : list string) σ :
  registry_ok σ -> from <> to ->
  let call := reduce (mapProps_callback from to sp gp VUndefined) keys to σ in
  let outcome := mapped keys false (object_at σ from) (object_at σ to) sp gp VUndefined in
  call.1 = match outcome.1 with None => Ok to | Some e => Throw e end
  /\ object_at call.2 to = outcome.2.
Proof.
  intros Hok Hne. rewrite <- (bool_decide_eq_false_2 (from = to) Hne).
  apply (reduce_mapped keys); [done | done | |].
  - apply enumerations_cached_ok_none. intros key enumRef _. discriminate.
  - intros key _ Htruthy. discriminate.
Qed.

(** X12.  Without converters, with distinct keys and a destination other
    than the source, where the source can be read under every
    [getterPrefix + key] and the destination stores a field under every
    [setterPrefix + key], [_mapProps] returns the destination: it leaves
    the source as it was, and for every key, reading
    [to[setterPrefix + key]] afterwards gives what
    [from[getterPrefix + key]] gave when that is defined, and what it gave
    before the call when that is [undefined]. *)
Theorem mapProps_without_converters_copies
    (keys : list string) from to (sp gp : string) σ :
  registry_ok σ -> from <> to -> NoDup keys ->
  (forall key, key ∈ keys -> readable (object_at σ from) (gp +:+ key)) ->
  (forall key, key ∈ keys -> data_slot (object_at σ to) (sp +:+ key) = true) ->
  let call := _mapProps (full_call keys from to sp gp VUndefined) σ in
  call.1 = Ok to
  /\ object_at call.2 from = object_at σ from
  /\ forall key v, key ∈ keys ->
       get_property (snapshot (object_at σ from)) (gp +:+ key) = Ok v ->
       get_property (snapshot (object_at call.2 to)) (sp +:+ key)
       = if is_undefined v then get_property (snapshot (object_at σ to)) (sp +:+ key)
         else Ok v.
Proof.
  cbn zeta. intros Hok Hne Hnd Hread Hslots.
  rewrite _mapProps_full.
  destruct (default_loop from to sp gp keys σ Hok Hne) as [Hcall Hto].
  destruct (mapped_default keys (object_at σ from) (object_at σ to) sp gp Hnd Hread Hslots)
    as [Hnone Hkeys].
  rewrite Hnone in Hcall. split; [exact Hcall|]. split.
  - apply object_at_heap. by apply reduce_frame.
  - rewrite Hto. exact Hkeys.
Qed.

Lemma lookup_prop_NoDup (k : string) (v : value) (props : list (string * value)) :
  NoDup (List.map fst props) -> (k, v) ∈ props -> lookup_prop k props = Some v.
Proof.
  induction props as [|[k' v'] rest IH]; intros Hnd Hin; cbn in *.
  - by apply elem_of_nil in Hin.
  - apply NoDup_cons in Hnd as [Hk' Hrest].
    apply elem_of_cons in Hin as [[= -> ->]|Hin].
    + by rewrite String.eqb_refl.
    + destruct (String.eqb_spec k' k) as [->|_]; [|by apply IH].
      exfalso. apply Hk'. apply list_elem_of_fmap. by exists (k, v).
Qed.

(** X13.  Called with a source and a destination and nothing else,
    [_mapProps] maps the source's own keys with empty prefixes: where the
    destination stores a field under each of them, every field of the
    source that is not [undefined] is read from the destination
    afterwards, under the same name and with the same value. *)
Theorem mapProps_defaults_copy_own_fields from to σ :
  registry_ok σ -> from <> to -> NoDup (own_keys (object_at σ from)) ->
  (forall key, key ∈ own_keys (object_at σ from) -> data_slot (object_at σ to) key = true) ->
  let call := _mapProps (mkMapPropsArgs NoKeys (Some from) (Some to) None None VUndefined) σ in
  call.1 = Ok to
  /\ forall key v, (key, v) ∈ ofields (object_at σ from) -> v <> VUndefined ->
       get_property (snapshot (object_at call.2 to)) key = Ok v.
Proof.
  cbn zeta. intros Hok Hne Hnd Hslots.
  change (_mapProps (mkMapPropsArgs NoKeys (Some from) (Some to) None None VUndefined) σ)
    with (reduce (mapProps_callback from to "" "" VUndefined)
            (own_keys (object_at σ from)) to σ).
  destruct (default_loop from to "" "" (own_keys (object_at σ from)) σ Hok Hne)
    as [Hcall Hto].
  assert (forall key v, (key, v) ∈ ofields (object_at σ from) ->
            get_property (snapshot (object_at σ from)) key = Ok v) as Hown.
  { intros key v Hin. unfold get_property, snapshot. cbn [own_property].
    by rewrite (lookup_prop_NoDup key v). }
  destruct (mapped_default (own_keys (object_at σ from)) (object_at σ from) (object_at σ to)
              "" "" Hnd) as [Hnone Hkeys].
  { intros key Hin. apply list_elem_of_fmap in Hin as [[k v] [-> Hin]].
    exists v. by apply Hown. }
  { exact Hslots. }
  rewrite Hnone in Hcall. split; [exact Hcall|]. intros key v Hin Hv.
  rewrite Hto.
  assert (key ∈ own_keys (object_at σ from)) as Hkey.
  { apply list_elem_of_fmap. by exists (key, v). }
  pose proof (Hkeys key v Hkey (Hown key v Hin)) as Hread.
  change ("" +:+ key) with key in Hread. rewrite Hread. by destruct v.
Qed.

(** The loop hands back the accumulator it was started with. *)
Lemma reduce_returns_accum from to (sp gp : string) mappers keys (accum : loc) σ (r : loc) :
  (reduce (mapProps_callback from to sp gp mappers) keys accum σ).1 = Ok r -> r = accum.
Proof.
  revert σ. induction keys as [|key rest IH]; intros σ; [by intros [= <-]|].
  cbn [reduce]. unfold mbind at 1, M_bind at 1.
  assert (forall a σ1, mapProps_callback from to sp gp mappers accum key σ = (Ok a, σ1) ->
            a = accum) as Hcb.
  { intros a σ1. unfold mapProps_callback, mbind, M_bind, mret, M_ret.
    destruct (resolve mappers key σ) as [[[map e]|err] σ2]; [|discriminate].
    destruct (call_converter map key from gp e to σ2) as [[v|err] σ3]; [|discriminate].
    destruct (_ σ3) as [[[]|err] σ4]; [by intros [= <- _] | discriminate]. }
  destruct (mapProps_callback from to sp gp mappers accum key σ) as [[a|err] σ1];
    [|discriminate].
  rewrite (Hcb a σ1 eq_refl). apply IH.
Qed.

(** X14.  Called without a destination, [_mapProps] makes one: the
    reference it returns was not in use before the call, and every object
    that existed before the call is afterwards as it was, whatever the
    converters did. *)
Theorem mapProps_makes_a_fresh_destination (a : mapPropsArgs) σ σ' (r : loc) :
  a_to a = None ->
  _mapProps a σ = (Ok r, σ') ->
  (r ∉ dom (heap σ))
  /\ (forall l, l ∈ dom (heap σ) -> heap σ' !! l = heap σ !! l).
Proof.
  intros Hto. unfold _mapProps. rewrite Hto. cbn [from_option].
  unfold mbind at 1, M_bind at 1.
  assert (exists from σ1,
            from_option mret (new_object empty_object) (a_from a) σ = (Ok from, σ1)
            /\ dom (heap σ) ⊆ dom (heap σ1)
            /\ forall l, l ∈ dom (heap σ) -> heap σ1 !! l = heap σ !! l)
    as (from & σ1 & -> & Hdom1 & Hsame1).
  { destruct (a_from a) as [f|]; cbn [from_option].
    - exists f, σ. by repeat split.
    - eexists _, _. split; [reflexivity|]. cbn. split.
      + rewrite dom_insert_L. set_solver.
      + intros l Hl. rewrite lookup_insert_ne; [done|].
        intros <-. by apply is_fresh in Hl. }
  unfold mbind at 1, M_bind at 1. unfold new_object at 1.
  set (to := fresh (dom (heap σ1))).
  set (σ2 := with_heap (<[to := empty_object]> (heap σ1)) σ1).
  set (setterPrefix := default "" (a_setterPrefix a)).
  set (getterPrefix := default "" (a_getterPrefix a)).
  assert (exists keys,
            match a_keys a with
            | Keys ks => mret ks
            | OneKey k =>
                if String.eqb k ""
                then from_o ← deref from; mret (List.map fst (ofields from_o))
                else mret [k]
            | NoKeys => from_o ← deref from; mret (List.map fst (ofields from_o))
            end σ2 = (Ok keys, σ2)) as [keys Hkeys].
  { destruct (a_keys a) as [|k|ks]; [eexists; reflexivity | | eexists; reflexivity].
    destruct (String.eqb k ""); eexists; reflexivity. }
  unfold mbind at 1, M_bind at 1. rewrite Hkeys.
  intros Hcall.
  pose proof (fun l => reduce_frame from to setterPrefix getterPrefix (a_mappers a) keys to σ2 l)
    as Hlocs.
  rewrite Hcall in Hlocs. cbn [snd] in Hlocs.
  pose proof (reduce_returns_accum from to setterPrefix getterPrefix (a_mappers a)
                keys to σ2 r) as Hr.
  rewrite Hcall in Hr. specialize (Hr eq_refl). subst r.
  assert (to ∉ dom (heap σ1)) as Hfresh by apply is_fresh.
  split; [set_solver|].
  intros l Hl.
  assert (l <> to) as Hne by set_solver.
  rewrite (Hlocs l Hne). subst σ2. cbn.
  rewrite lookup_insert_ne by done. by apply Hsame1.
Qed.

End DefaultMapping.

(** ** Periods, written and read back *)

Section PeriodRoundTrip.
Context `{Host} `{Concrete}.

Implicit Types (σ : Repo) (from to : loc).

Lemma instant_in_range_valid (o : option moment) : instant_in_range o -> instant_valid o.
Proof.
  destruct o as [m|]; [|done]. intros (ms & Hms & Hrange). cbn.
  unfold Moment.isValid, Moment.valueOf. by rewrite Hms, TimeClip_in_range.
Qed.

(** A stored timestamp of an instant reads back as that instant in UTC. *)
Lemma _toMoment_timestamp_of_moment (m : moment) :
  instant_in_range (Some m) ->
  _toMoment (VTimestamp (timestamp_of_moment m)) = Ok (VMoment (mkMoment (m_valueOf m) true)).
Proof.
  intros (ms & Hms & Hrange). unfold timestamp_of_moment, Moment.valueOf.
  rewrite Hms, TimeClip_in_range by done.
  rewrite _toMoment_timestamp, toMillis_of_millis by by apply in_range_safe.
  cbn zeta. destruct (moment_utc_in_range ms Hrange) as [-> Hvalid]. by rewrite Hvalid.
Qed.

(** The moment mapper of a registry in order. *)
Lemma _toMomentMapper_in_order σ :
  registry_ok σ ->
  exists σ1, _toMomentMapper σ = (Ok MomentOf, σ1) /\ heap σ1 = heap σ /\ registry_ok σ1.
Proof.
  intros [Hnoop Hmoment]. unfold _toMomentMapper, _getMapper.
  change (String.eqb "moment" "") with false. cbn iota.
  unfold mbind, M_bind, gets, modify. cbn beta iota.
  destruct (_mapperCache σ !! "moment") as [c|] eqn:Hc.
  - rewrite (Hmoment c eq_refl). exists σ. split; [reflexivity|]. split; [reflexivity|].
    split; [exact Hnoop|]. intros c'. rewrite Hc. intros [= <-]. by apply Hmoment.
  - change (Object_prototype "moment") with (@None value). cbn.
    exists (with_mapperCache (<["moment" := MomentOf]> (_mapperCache σ)) σ).
    split; [reflexivity|]. split; [reflexivity|]. split; intros c; cbn.
    + rewrite lookup_insert_ne by discriminate. apply Hnoop.
    + rewrite lookup_insert_eq. by intros [= <-].
Qed.

(** What the moment closure makes of [_begin] or [_end] of a period
    document. *)
Lemma moment_closure_conversion (key : string) (source dest : object) (stored : option moment) :
  runs_moment_closure ->
  instant_in_range stored ->
  get_property (snapshot source) ("_" +:+ key)
  = Ok (from_option (fun m => VTimestamp (timestamp_of_moment m)) VUndefined stored) ->
  conversion (resolution (closure_value MomentOf) key) key source dest "_"
  = Ok (from_option (fun m => VMoment (mkMoment (m_valueOf m) true)) VUndefined stored).
Proof.
  intros Hruns Hrange Hget.
  change (resolution (closure_value MomentOf) key) with (CustomFn (closure_value MomentOf)).
  cbn [conversion]. unfold closure_value at 1. cbn [call_function]. rewrite Hruns.
  unfold closure_body, converter_input. cbn [hd].
  change (get (VObj Object_class _) "key") with (VStr key).
  change (get (VObj Object_class _) "from") with (snapshot source).
  change (get (VObj Object_class _) "getterPrefix") with (VStr "_").
  cbn [interpolate]. rewrite Hget. cbn [mbind result_bind].
  destruct stored as [m|]; cbn [from_option is_undefined call_scalar hd]; [|reflexivity].
  by apply _toMoment_timestamp_of_moment.
Qed.

(** The specification's mapping of a period document with the moment
    closure. *)
Lemma mapped_period_document (c : class) (b e : option moment) (dest : object) :
  runs_moment_closure ->
  instant_in_range b -> instant_in_range e ->
  data_slot dest "_begin" = true -> data_slot dest "_end" = true ->
  let doc := mkObject Object_class
               (("_type", VStr (cname c)) :: period_entry "_begin" b ++ period_entry "_end" e) in
  let outcome := mapped ["begin"; "end"] false doc dest "_" "_" (closure_value MomentOf) in
  outcome.1 = None
  /\ get (snapshot outcome.2) "_begin" = read_back b (get (snapshot dest) "_begin")
  /\ get (snapshot outcome.2) "_end" = read_back e (get (snapshot dest) "_end").
Proof.
  intros Hruns Hb He Hsb Hse doc outcome. subst outcome.
  assert (forall k v fields, get (VObj (oclass dest) (assign_prop k v fields)) k = v) as Hsame.
  { intros k v fields. unfold get. cbn [own_property]. by rewrite lookup_assign_prop_eq. }
  assert (forall k k' v fields, k <> k' ->
            get (VObj (oclass dest) (assign_prop k v fields)) k' = get (VObj (oclass dest) fields) k')
    as Hother.
  { intros k k' v fields Hne. unfold get. cbn [own_property].
    by rewrite lookup_assign_prop_ne. }
  cbn [mapped].
  rewrite (moment_closure_conversion "begin" doc dest b Hruns Hb)
    by (subst doc; by destruct b, e).
  destruct b as [mb|]; cbn [from_option absent read_back].
  - rewrite assigned_data_slot by done.
    rewrite (moment_closure_conversion "end" doc _ e Hruns He)
      by (subst doc; by destruct e).
    destruct e as [me|]; cbn [from_option absent read_back].
    + rewrite assigned_data_slot by by apply data_slot_added.
      cbn [fst snd]. unfold snapshot. cbn [oclass ofields].
      change ("_" +:+ "begin") with "_begin". change ("_" +:+ "end") with "_end".
      split; [reflexivity|]. split; [|apply Hsame].
      rewrite Hother by discriminate. apply Hsame.
    + cbn [fst snd]. unfold snapshot. cbn [oclass ofields]. change ("_" +:+ "begin") with "_begin".
      split; [reflexivity|]. split; [apply Hsame|].
      by rewrite Hother by discriminate.
  - rewrite (moment_closure_conversion "end" doc _ e Hruns He)
      by (subst doc; by destruct e).
    destruct e as [me|]; cbn [from_option absent read_back].
    + rewrite assigned_data_slot by done.
      cbn [fst snd]. unfold snapshot. cbn [oclass ofields]. change ("_" +:+ "end") with "_end".
      split; [reflexivity|]. split; [|apply Hsame].
      by rewrite Hother by discriminate.
    + done.
Qed.

(** X15.  A period written by [_toDocument] and read back by
    [_fromPeriodDocument] with the setter prefix [_] comes back: the
    entity's [_begin] and [_end] are the period's instants, at the same
    millisecond and in UTC, and a side that was not set leaves the entity's
    field as it was.  The entity keeps [_begin] and [_end] as fields: no
    accessor of its class answers to these names. *)
Theorem period_document_roundtrip
    (c : class) (b e : option moment) (d entity : loc) (o : object) σ :
  runs_moment_closure ->
  registry_ok σ ->
  instanceof (Period c b e) "Period" || instanceof (Period c b e) "DatePeriod" = true ->
  instant_in_range b -> instant_in_range e ->
  heap σ !! d = Some o ->
  _toDocument (Period c b e) = Ok (snapshot o) ->
  d <> entity ->
  data_slot (object_at σ entity) "_begin" = true ->
  data_slot (object_at σ entity) "_end" = true ->
  let call := _fromPeriodDocument (Some d) (Some entity) (Some "_") σ in
  call.1 = Ok entity
  /\ get (snapshot (object_at call.2 entity)) "_begin"
     = read_back b (get (snapshot (object_at σ entity)) "_begin")
  /\ get (snapshot (object_at call.2 entity)) "_end"
     = read_back e (get (snapshot (object_at σ entity)) "_end").
Proof.
  cbn zeta. intros Hruns Hok Hinst Hb He Hd Hdoc Hne Hsb Hse.
  rewrite _toDocument_Period in Hdoc by (done || by apply instant_in_range_valid).
  destruct o as [oc fields]. injection Hdoc as Hclass Hfields.
  cbn [oclass ofields] in Hclass, Hfields. subst oc fields.
  destruct (_toMomentMapper_in_order σ Hok) as (σ1 & Hmapper & Hheap1 & Hok1).
  assert (object_at σ1 d
          = mkObject Object_class
              (("_type", VStr (cname c)) :: period_entry "_begin" b ++ period_entry "_end" e))
    as Hat1.
  { unfold object_at. by rewrite Hheap1, Hd. }
  assert (object_at σ1 entity = object_at σ entity) as Hentity1.
  { unfold object_at. by rewrite Hheap1. }
  assert (_fromPeriodDocument (Some d) (Some entity) (Some "_") σ
          = reduce (mapProps_callback d entity "_" "_" (closure_value MomentOf))
              ["begin"; "end"] entity σ1) as ->.
  { unfold _fromPeriodDocument. cbn [from_option default].
    unfold mbind at 1, M_bind at 1. unfold mret at 1, M_ret at 1. cbn beta iota.
    unfold mbind at 1, M_bind at 1. rewrite Hmapper. cbn beta iota.
    change (_mapProps _ σ1)
      with (_mapProps (full_call ["begin"; "end"] d entity "_" "_" (closure_value MomentOf)) σ1).
    by rewrite _mapProps_full. }
  destruct (reduce_mapped ["begin"; "end"] ["begin"; "end"] d entity "_" "_"
              (closure_value MomentOf) entity σ1) as [Hcall Hto]; [done | done | | |].
  { apply enumerations_cached_ok_none. intros key enumRef _. discriminate. }
  { intros key Hin _. exists VUndefined. split; [|reflexivity].
    apply elem_of_cons in Hin as [->|Hin]; [reflexivity|].
    apply list_elem_of_singleton in Hin as ->. reflexivity. }
  rewrite (bool_decide_eq_false_2 (d = entity) Hne), Hat1, Hentity1 in Hcall, Hto.
  destruct (mapped_period_document c b e (object_at σ entity) Hruns Hb He Hsb Hse)
    as (Hnone & Hbegin & Hend).
  rewrite Hnone in Hcall. rewrite Hto. by repeat split.
Qed.

End PeriodRoundTrip.

(** ** Further properties of the array utilities *)

Section ArrayInvariants.
Context `{Host}.

Implicit Types (h : gmap loc (list slot)) (arrs : list (option loc)) (σ : Repo).

Lemma fold_larger_of h arrs (accum : option loc) :
  let o := fold_left (larger_of h) arrs accum in
  (o = None <-> accum = None /\ forall it, it ∈ arrs -> it = None)
  /\ forall l, o = Some l ->
       (accum = Some l \/ Some l ∈ arrs)
       /\ (forall a, accum = Some a -> (array_length h a <= array_length h l)%nat)
       /\ (forall l', Some l' ∈ arrs -> (array_length h l' <= array_length h l)%nat).
Proof.
  cbn zeta. revert accum. induction arrs as [|it rest IH]; intros accum; cbn [fold_left].
  - split.
    + split; [intros ->; split; [done|] | by intros [-> _]].
      intros it Hin. by apply elem_of_nil in Hin.
    + intros l ->. split; [by left|]. split.
      * by intros a [= ->].
      * intros l' Hin. by apply elem_of_nil in Hin.
  - destruct (IH (larger_of h accum it)) as [Hnone Hsome]. split.
    + rewrite Hnone. split.
      * intros [Hacc Hrest]. destruct accum as [a|], it as [n|]; cbn in Hacc; try discriminate.
        -- destruct (_ <=? _)%nat; discriminate.
        -- split; [done|]. intros it Hin.
           apply elem_of_cons in Hin as [->|Hin]; [done | by apply Hrest].
      * intros [-> Hall]. rewrite (Hall it) by (apply elem_of_cons; by left). cbn.
        split; [done|]. intros it' Hin. apply Hall, elem_of_cons. by right.
    + intros l Hl. destruct (Hsome l Hl) as (Hfrom & Hacc & Hrest).
      assert (forall n, it = Some n -> (array_length h n <= array_length h l)%nat) as Hit.
      { intros n ->. destruct accum as [a|]; cbn in Hacc, Hfrom.
        - destruct (Nat.leb_spec (array_length h n) (array_length h a)).
          + specialize (Hacc a eq_refl). lia.
          + by apply (Hacc n).
        - by apply (Hacc n). }
      split; [|split].
      * destruct Hfrom as [Hfrom|Hfrom]; [|right; apply elem_of_cons; by right].
        destruct accum as [a|], it as [n|]; cbn in Hfrom; try discriminate.
        -- destruct (_ <=? _)%nat; injection Hfrom as ->;
             [by left | right; apply elem_of_cons; by left].
        -- by left.
        -- right. rewrite Hfrom. apply elem_of_cons. by left.
      * intros a ->. destruct it as [n|]; cbn in Hacc.
        -- destruct (Nat.leb_spec (array_length h n) (array_length h a)).
           ++ by apply Hacc.
           ++ specialize (Hacc n eq_refl). lia.
        -- by apply Hacc.
      * intros l' Hin. apply elem_of_cons in Hin as [Heq|Hin]; [|by apply Hrest].
        by apply Hit.
Qed.

(** X16.  [_getLargestArrayAmong] changes nothing and returns [undefined]
    exactly when no array was given; otherwise what it returns is one of
    the arrays given, and none of them is longer. *)
Theorem getLargestArrayAmong_returns_a_longest arrs σ :
  exists o,
    _getLargestArrayAmong arrs σ = (Ok o, σ)
    /\ (o = None <-> forall it, it ∈ arrs -> it = None)
    /\ forall l, o = Some l ->
         Some l ∈ arrs
         /\ forall l', Some l' ∈ arrs ->
              (array_length (arrays σ) l' <= array_length (arrays σ) l)%nat.
Proof.
  eexists. split; [reflexivity|].
  destruct (fold_larger_of (arrays σ) arrs None) as [Hnone Hsome].
  split.
  - etransitivity; [exact Hnone|]. split; [by intros [_ Hall] | by split].
  - intros l Hl. destruct (Hsome l Hl) as ([Hacc|Hin] & _ & Hrest); [discriminate|].
    by split.
Qed.

(** The [forEach] changes the arrays and nothing else. *)
Lemma forEach_grow_only_arrays (len : nat) arrs σ :
  (forEach (grow_one len) arrs σ).2
  = with_arrays (arrays (forEach (grow_one len) arrs σ).2) σ.
Proof.
  revert σ. induction arrs as [|it rest IH]; intros σ.
  - by destruct σ.
  - cbn [forEach]. unfold mbind, M_bind.
    destruct (grow_one_arrays len it σ 0%nat) as [Hok _].
    assert ((grow_one len it σ).2 = with_arrays (arrays (grow_one len it σ).2) σ) as Hone.
    { destruct it as [l|]; cbn; [|by destruct σ].
      destruct (arrays σ !! l); [reflexivity | by destruct σ]. }
    destruct (grow_one len it σ) as [[[]|err] σ1]; cbn [fst snd] in *; [|discriminate].
    rewrite IH. rewrite Hone at 2. reflexivity.
Qed.

Lemma growAll_only_arrays arrs σ :
  (_growAllArraysToLargestAmong arrs σ).2
  = with_arrays (arrays (_growAllArraysToLargestAmong arrs σ).2) σ.
Proof.
  unfold _growAllArraysToLargestAmong.
  destruct (length arrs =? 0)%nat; [by destruct σ|].
  destruct (_getLargestArrayAmong_largest arrs σ) as [o [Hlargest _]].
  unfold mbind, M_bind. rewrite Hlargest. cbn [gets].
  destruct o as [big|]; [|by destruct σ].
  destruct (array_length (arrays σ) big =? 0)%nat; [by destruct σ|].
  apply forEach_grow_only_arrays.
Qed.

(** X17.  [_growAllArraysToLargestAmong] touches the arrays it is given
    and nothing else: an array that is not among the arguments is as it
    was, and so are the heap, the mapper cache and the documents. *)
Theorem growAllArraysToLargestAmong_touches_only_its_arguments arrs σ :
  let σ' := (_growAllArraysToLargestAmong arrs σ).2 in
  (forall l, Some l ∉ arrs -> arrays σ' !! l = arrays σ !! l)
  /\ heap σ' = heap σ
  /\ _mapperCache σ' = _mapperCache σ
  /\ documents σ' = documents σ.
Proof.
  cbn zeta. split.
  - intros l Hnot. unfold _growAllArraysToLargestAmong.
    destruct (length arrs =? 0)%nat; [reflexivity|].
    destruct (_getLargestArrayAmong_largest arrs σ) as [o [Hlargest _]].
    unfold mbind, M_bind. rewrite Hlargest. cbn [gets].
    destruct o as [big|]; [|reflexivity].
    destruct (array_length (arrays σ) big =? 0)%nat; [reflexivity|].
    destruct (forEach_grow_arrays (array_length (arrays σ) big) arrs σ l) as [_ Hl].
    { intros a Hin. done. }
    rewrite Hl. by rewrite decide_False.
  - rewrite growAll_only_arrays. by repeat split.
Qed.

(** Every array among the arguments is grown to the largest length, and
    no other array is touched. *)
Lemma growAll_arrays arrs σ (l : loc) :
  arrays (_growAllArraysToLargestAmong arrs σ).2 !! l
  = if decide (Some l ∈ arrs)
    then grown (largest_length (arrays σ) arrs) <$> (arrays σ !! l)
    else arrays σ !! l.
Proof.
  assert (Some l ∈ arrs -> largest_length (arrays σ) arrs = 0%nat ->
          grown (largest_length (arrays σ) arrs) <$> (arrays σ !! l) = arrays σ !! l) as Hzero.
  { intros Hin Hz. pose proof (largest_length_bound (arrays σ) arrs l Hin) as Hb.
    unfold array_length in Hb. destruct (arrays σ !! l) as [a|]; [|reflexivity].
    cbn in Hb |- *. rewrite grown_padded by lia.
    replace (largest_length (arrays σ) arrs - length a)%nat with 0%nat by lia.
    cbn. by rewrite app_nil_r. }
  unfold _growAllArraysToLargestAmong.
  destruct (Nat.eqb_spec (length arrs) 0) as [Hnil|_].
  { destruct arrs; [|discriminate]. cbn. rewrite decide_False; [done|].
    intros Hin. by apply elem_of_nil in Hin. }
  destruct (_getLargestArrayAmong_largest arrs σ) as [o [Hlargest Ho]].
  unfold mbind, M_bind. rewrite Hlargest. cbn [gets].
  destruct o as [big|]; cbn [from_option] in Ho.
  - destruct (Nat.eqb_spec (array_length (arrays σ) big) 0) as [Hz|_].
    + cbn. destruct (decide (Some l ∈ arrs)); [|reflexivity].
      symmetry. apply Hzero; [done | by rewrite <- Ho].
    + rewrite Ho.
      destruct (forEach_grow_arrays (largest_length (arrays σ) arrs) arrs σ l) as [_ Hl];
        [|exact Hl].
      intros a Hin Ha. pose proof (largest_length_bound (arrays σ) arrs l Hin) as Hb.
      unfold array_length in Hb. by rewrite Ha in Hb.
  - cbn. destruct (decide (Some l ∈ arrs)); [|reflexivity].
    symmetry. by apply Hzero.
Qed.

(** The largest length is a bound that is met, unless it is zero. *)
Lemma largest_length_unique h arrs (len : nat) :
  (forall l, Some l ∈ arrs -> (array_length h l <= len)%nat) ->
  (len = 0%nat \/ exists l, Some l ∈ arrs /\ array_length h l = len) ->
  largest_length h arrs = len.
Proof.
  intros Hbound Hmet.
  assert (largest_length h arrs <= len)%nat as Hle.
  { clear Hmet. unfold largest_length. induction arrs as [|it rest IH]; cbn [foldr]; [lia|].
    assert (foldr (fun it acc => match it with
                                 | Some l => Nat.max (array_length h l) acc
                                 | None => acc
                                 end) 0%nat rest <= len)%nat as Hrest.
    { apply IH. intros l Hin. apply Hbound, elem_of_cons. by right. }
    destruct it as [l|]; [|exact Hrest].
    specialize (Hbound l ltac:(apply elem_of_cons; by left)). lia. }
  destruct Hmet as [->|(l & Hin & <-)]; [lia|].
  pose proof (largest_length_bound h arrs l Hin). lia.
Qed.

Lemma largest_length_met h arrs :
  largest_length h arrs = 0%nat
  \/ exists l, Some l ∈ arrs /\ array_length h l = largest_length h arrs.
Proof.
  unfold largest_length. induction arrs as [|it rest IH]; cbn [foldr]; [by left|].
  destruct it as [l|].
  - destruct (Nat.max_spec (array_length h l)
                (foldr (fun it acc => match it with
                                      | Some l => Nat.max (array_length h l) acc
                                      | None => acc
                                      end) 0%nat rest)) as [[Hlt ->]|[Hle ->]].
    + destruct IH as [Hz|(l' & Hin & Hl')]; [left; exact Hz|].
      right. exists l'. split; [apply elem_of_cons; by right | exact Hl'].
    + right. exists l. split; [apply elem_of_cons; by left | reflexivity].
  - destruct IH as [Hz|(l' & Hin & Hl')]; [by left|].
    right. exists l'. split; [apply elem_of_cons; by right | exact Hl'].
Qed.

(** X18.  Growing is idempotent: a second call with the same arguments
    changes nothing any more. *)
Theorem growAllArraysToLargestAmong_idempotent arrs σ :
  let σ1 := (_growAllArraysToLargestAmong arrs σ).2 in
  (_growAllArraysToLargestAmong arrs σ1).2 = σ1.
Proof.
  cbn zeta. set (σ1 := (_growAllArraysToLargestAmong arrs σ).2).
  set (len := largest_length (arrays σ) arrs).
  assert (forall l a, Some l ∈ arrs -> arrays σ !! l = Some a -> (length a <= len)%nat)
    as Hbound.
  { intros l a Hin Ha. pose proof (largest_length_bound (arrays σ) arrs l Hin) as Hb.
    unfold array_length in Hb. by rewrite Ha in Hb. }
  assert (forall l, Some l ∈ arrs ->
            array_length (arrays σ1) l
            = match arrays σ !! l with Some _ => len | None => 0%nat end) as Hlen1.
  { intros l Hin. unfold array_length. subst σ1. rewrite growAll_arrays.
    rewrite decide_True by done. fold len.
    destruct (arrays σ !! l) as [a|] eqn:Ha; [|reflexivity].
    cbn. apply grown_length. by apply (Hbound l). }
  assert (largest_length (arrays σ1) arrs = len) as Hlargest1.
  { apply largest_length_unique.
    - intros l Hin. rewrite (Hlen1 l Hin). destruct (arrays σ !! l); lia.
    - destruct (largest_length_met (arrays σ) arrs) as [Hz|(l & Hin & Hl)]; [by left|].
      fold len in Hl. destruct (decide (len = 0%nat)) as [Hz|Hnz]; [by left|].
      right. exists l. split; [done|]. rewrite (Hlen1 l Hin).
      unfold array_length in Hl. destruct (arrays σ !! l); [reflexivity|]. cbn in Hl. lia. }
  rewrite growAll_only_arrays.
  assert (arrays (_growAllArraysToLargestAmong arrs σ1).2 = arrays σ1) as ->.
  { apply map_eq. intros l. rewrite growAll_arrays, Hlargest1.
    destruct (decide (Some l ∈ arrs)) as [Hin|]; [|reflexivity].
    subst σ1. rewrite growAll_arrays. rewrite decide_True by done. fold len.
    destruct (arrays σ !! l) as [a|] eqn:Ha; [|reflexivity].
    cbn. f_equal. apply grown_idempotent. by apply (Hbound l). }
  by destruct σ1.
Qed.

End ArrayInvariants.

(** ** Further properties of the persistence methods *)

Section PersistenceInvariants.
Context `{Host} `{Concrete}.

Implicit Types (σ : Repo) (entity : loc).

(** Errors pass [_tryAsync] untranslated. *)
Lemma _tryAsync_transparent {A} (it : M A) σ : _tryAsync it σ = it σ.
Proof. unfold _tryAsync, _translateError. by destruct (it σ) as [[a|e] σ']. Qed.

Lemma _docpath_one (id : value) σ : _docpath [id] σ = (Ok (document_path σ id), σ).
Proof. reflexivity. Qed.

(** [findById] on an identifier that is not falsy: the stored document, if
    there is one, goes to the repository's [_fromDocument]. *)
Lemma findById_truthy (id : value) σ :
  truthy id = true ->
  findById id σ
  = match documents σ !! document_path σ id with
    | Some data => fromDocument_override data "_" "_" σ
    | None => (Ok (VBool false), σ)
    end.
Proof.
  intros Ht. unfold findById. rewrite Ht. cbn [negb]. rewrite _tryAsync_transparent.
  unfold mbind, M_bind. rewrite _docpath_one. unfold gets. cbn beta iota.
  by destruct (documents σ !! document_path σ id).
Qed.

(** X19.  For a falsy identifier, and for an identifier under whose path
    no document is stored, [getById] throws an [ObjectNotFoundError] that
    names the path, and changes nothing. *)
Theorem getById_without_document_throws (id : value) σ :
  truthy id = false \/ documents σ !! document_path σ id = None ->
  getById id σ
  = (Throw (mkError errors.ObjectNotFoundError (VStr (document_path σ id))), σ).
Proof.
  intros Hmissing. unfold getById, mbind, M_bind.
  assert (exists found, findById id σ = (Ok found, σ) /\ truthy found = false)
    as (found & -> & ->).
  { destruct (truthy id) eqn:Ht.
    - destruct Hmissing as [|Hnone]; [discriminate|].
      rewrite findById_truthy, Hnone by done. by exists (VBool false).
    - unfold findById. rewrite Ht. by exists VNull. }
  reflexivity.
Qed.

(** [upsert], step by step. *)
Lemma upsert_steps entity (options : value) σ :
  upsert entity options σ
  = let σa := identified entity σ in
    let id := get (snapshot (object_at σa entity)) "_id" in
    match _toDocument (snapshot (object_at σa entity)) with
    | Throw x => (Throw x, σa)
    | Ok doc =>
        match firestore_set (documents σa !! document_path σa id) doc
                (js_or options _setOptions) with
        | Throw x => (Throw x, σa)
        | Ok (stored, written) =>
            (Ok written,
             with_documents (<[document_path σa id := stored]> (documents σa)) σa)
        end
    end.
Proof.
  cbn zeta. unfold upsert, identified.
  unfold mbind at 1, M_bind at 1, deref at 1, gets at 1. cbn beta iota.
  unfold mbind at 1, M_bind at 1.
  destruct (truthy (get (snapshot (object_at σ entity)) "_id")); cbn [negb].
  - unfold mret at 1, M_ret at 1. cbn beta iota. rewrite _tryAsync_transparent.
    unfold mbind, M_bind, deref, gets, lift, modify. cbn beta iota.
    unfold document_path.
    destruct (_toDocument _) as [doc|x]; [|reflexivity].
    destruct (firestore_set _ _ _) as [[stored written]|x]; reflexivity.
  - unfold mbind at 1 2, M_bind at 1 2, gets at 1, modify at 1. cbn beta iota.
    set (σa := (set_field entity "_id" (VStr (uuid (uuids σ))) (with_uuids (S (uuids σ)) σ)).2).
    change (set_field entity "_id" (VStr (uuid (uuids σ))) (with_uuids (S (uuids σ)) σ))
      with (Ok tt, σa).
    cbn beta iota. rewrite _tryAsync_transparent.
    unfold mbind, M_bind, deref, gets, lift, modify. cbn beta iota.
    unfold document_path.
    destruct (_toDocument _) as [doc|x]; [|reflexivity].
    destruct (firestore_set _ _ _) as [[stored written]|x]; reflexivity.
Qed.

(** X20.  [upsert] gives an entity that has no identifier the next one
    that [uuid()] hands out and leaves an identifier that is there alone;
    this holds whether the write then succeeds or throws. *)
Theorem upsert_assigns_missing_identifier entity (options : value) σ :
  let σ' := (upsert entity options σ).2 in
  let id := get (snapshot (object_at σ entity)) "_id" in
  if truthy id
  then get (snapshot (object_at σ' entity)) "_id" = id /\ uuids σ' = uuids σ
  else get (snapshot (object_at σ' entity)) "_id" = VStr (uuid (uuids σ))
       /\ uuids σ' = S (uuids σ).
Proof.
  cbn zeta. rewrite upsert_steps. cbn zeta.
  assert (forall r : result value * Repo,
            (r = (r.1, identified entity σ)
             \/ exists d, r = (r.1, with_documents d (identified entity σ))) ->
            object_at r.2 entity = object_at (identified entity σ) entity
            /\ uuids r.2 = uuids (identified entity σ)) as Hsame.
  { intros r [->|[d ->]]; by split. }
  match goal with
  | |- context [object_at (?r).2 entity] => destruct (Hsame r) as [-> ->]
  end.
  { destruct (_toDocument _) as [doc|x]; [|by left].
    destruct (firestore_set _ _ _) as [[stored written]|x]; [right; eauto | by left]. }
  unfold identified.
  destruct (truthy (get (snapshot (object_at σ entity)) "_id")); [done|].
  pose proof (set_field_spec entity "_id" (VStr (uuid (uuids σ))) (with_uuids (S (uuids σ)) σ))
    as (_ & Hread & _ & _).
  split; [exact Hread | reflexivity].
Qed.

(** X21.  What [upsert] has written, [findById] finds: after a successful
    [upsert] a document is stored under the path of the entity's
    identifier, and [findById] of that identifier hands that document to
    the repository's [_fromDocument]. *)
Theorem upsert_then_findById entity (options written : value) σ σ' :
  upsert entity options σ = (Ok written, σ') ->
  let id := get (snapshot (object_at σ' entity)) "_id" in
  exists stored,
    documents σ' !! document_path σ' id = Some stored
    /\ (truthy id = true -> findById id σ' = fromDocument_override stored "_" "_" σ').
Proof.
  rewrite upsert_steps. cbn zeta. set (σa := identified entity σ).
  destruct (_toDocument _) as [doc|x]; [|discriminate].
  destruct (firestore_set _ _ _) as [[stored w]|x]; [|discriminate].
  intros [= -> <-].
  match goal with
  | |- context [object_at (with_documents ?d ?s) entity] => set (σ'' := with_documents d s)
  end.
  set (id := get (snapshot (object_at σ'' entity)) "_id").
  exists stored.
  assert (documents σ'' !! document_path σ'' id = Some stored) as Hstored.
  { subst σ'' id. apply lookup_insert_eq. }
  split; [exact Hstored|].
  intros Ht. rewrite findById_truthy by done. by rewrite Hstored.
Qed.

End PersistenceInvariants.

(** ** Enumerations as converters, and what conversion can throw *)

Section EnumerationsAndErrors.
Context `{Host} `{Concrete}.

Implicit Types (σ : Repo) (from to : loc).

(** X23.  An enumeration class given as [mappers] converts a key under
    which the class itself has nothing truthy, its own or inherited.
    Provided the registry holds nothing else under the class's name and
    the destination stores a field under [setterPrefix + key], the call
    does what the specification's enumeration converter says: the field
    is read from the source and looked up with the class's [of], element
    by element when it is an array; a result that is not [undefined] is
    then read from the destination, which otherwise reads as before; an
    error of the lookup is the error of the call, and then the destination
    is as it was. *)
Theorem mapProps_enumeration_class_converts
    (enumeration : value) (key : string) from to (sp gp : string) σ :
  is_enum_class enumeration = true ->
  truthy enumeration = true ->
  (exists entry, get_property enumeration key = Ok entry /\ truthy entry = false) ->
  (forall c, _mapperCache σ !! enum_cache_name enumeration = Some c ->
             c = Fn (get enumeration "of")) ->
  data_slot (object_at σ to) (sp +:+ key) = true ->
  let call := _mapProps (full_call [key] from to sp gp enumeration) σ in
  match conversion (Enumeration enumeration) key (object_at σ from) (object_at σ to) gp with
  | Ok r =>
      call.1 = Ok to
      /\ get_property (snapshot (object_at call.2 to)) (sp +:+ key)
         = (if is_undefined r then get_property (snapshot (object_at σ to)) (sp +:+ key)
            else Ok r)
  | Throw err =>
      call.1 = Throw err /\ object_at call.2 to = object_at σ to
  end.
Proof.
  cbn zeta. intros Henum Htruthy (r0 & Hread & Hfalsy) Hcache Hslot.
  rewrite _mapProps_full. cbn [reduce]. unfold mapProps_callback.
  assert (candidate enumeration key = Ok enumeration) as Hcand.
  { unfold candidate. rewrite Htruthy, Hread. cbn [mbind result_bind].
    unfold js_or. by rewrite Hfalsy. }
  destruct (enum_cache_name_own enumeration) as (Hname & Hproto & _ & _).
  pose proof (_getMapper_named (Fn (get enumeration "of")) (enum_cache_name enumeration) σ
                Hname Hproto) as Hget.
  assert (exists σ1, resolve enumeration key σ
                     = (Ok (Cached (Fn (get enumeration "of")), enumeration), σ1)
                     /\ heap σ1 = heap σ) as (σ1 & Hres & Hheap1).
  { unfold resolve, lift. unfold mbind at 1, M_bind at 1. rewrite Hcand. cbn beta iota.
    rewrite Henum. unfold _toEnumMapper. fold (enum_cache_name enumeration).
    unfold mbind, M_bind. rewrite Hget.
    destruct (_mapperCache σ !! enum_cache_name enumeration) as [c|] eqn:Hc.
    - rewrite (Hcache c eq_refl). by exists σ.
    - by exists (with_mapperCache
                   (<[enum_cache_name enumeration := Fn (get enumeration "of")]>
                      (_mapperCache σ)) σ). }
  unfold mbind, M_bind. rewrite Hres. cbn beta iota.
  unfold call_converter, mbind, M_bind, deref, gets, lift. cbn beta iota.
  rewrite (object_at_heap σ σ1 from) by by rewrite Hheap1.
  rewrite (call_cached_Enumeration enumeration key (object_at σ from) (object_at σ to) gp).
  assert (object_at σ1 to = object_at σ to) as Hto by (apply object_at_heap; by rewrite Hheap1).
  destruct (conversion _ key (object_at σ from) (object_at σ to) gp) as [r|err]; cbn [fst snd].
  - destruct (is_undefined r); cbn [negb].
    + unfold mret, M_ret. cbn beta iota. cbn [fst snd]. by rewrite Hto.
    + rewrite set_property_assigned, Hto, assigned_data_slot by done.
      unfold mret, M_ret. cbn beta iota. cbn [fst snd].
      split; [reflexivity|]. unfold object_at. cbn [heap with_heap].
      rewrite lookup_insert_eq. cbn [default]. apply get_property_added_eq.
  - by rewrite Hto.
Qed.

Lemma bind_Throw_inv {A B} (r : result A) (k : A -> result B) (e : error) :
  r ≫= k = Throw e -> r = Throw e \/ exists a, r = Ok a /\ k a = Throw e.
Proof. destruct r as [a|e']; cbn; [eauto | intros [= ->]; by left]. Qed.

Lemma fmap_Throw_inv {A B} (f : A -> B) (r : result A) (e : error) :
  f <$> r = Throw e -> r = Throw e.
Proof. destruct r as [a|e']; cbn; [discriminate | by intros [= ->]]. Qed.

Lemma fromMillis_error (n : number) (e : error) :
  Timestamp.fromMillis n = Throw e -> eclass e = Error_.
Proof.
  unfold Timestamp.fromMillis, Timestamp.fromMillis_double.
  destruct n as [z| |f]; [destruct (safe z)|..]; apply Timestamp_new_error.
Qed.

Lemma _toTimestamp_error (it : value) (e : error) :
  _toTimestamp it = Throw e -> eclass e = IllegalArgumentError_.
Proof.
  unfold _toTimestamp.
  destruct (Timestamp.fromMillis _); cbn; [discriminate | by intros [= <-]].
Qed.

(** Cloning fails only where the [Timestamp] constructor refuses an
    invalid moment or Date. *)
Lemma cloneDeepWith_at_error (v : value) :
  forall root e, cloneDeepWith_at root _toTreeCustomizer v = Throw e -> eclass e = Error_.
Proof.
  induction v as [v Hv|f props IH|elems IH|c props IH] using value_ind_nested;
    intros root e Hc.
  - destruct v; try contradiction; cbn in Hc; try discriminate;
      apply fmap_Throw_inv in Hc; by apply fromMillis_error in Hc.
  - cbn [cloneDeepWith_at _toTreeCustomizer] in Hc. destruct root; [|discriminate].
    apply fmap_Throw_inv in Hc.
    induction IH as [|[k x] xs Hx _ IHxs]; [discriminate|].
    destruct (enumerable f k); [|by apply IHxs].
    apply bind_Throw_inv in Hc as [Hc|(x' & _ & Hc)]; [by apply (Hx false)|].
    apply bind_Throw_inv in Hc as [Hc|(xs' & _ & Hc)]; [by apply IHxs | discriminate].
  - cbn [cloneDeepWith_at _toTreeCustomizer] in Hc. apply fmap_Throw_inv in Hc.
    induction IH as [|x xs Hx _ IHxs]; [discriminate|].
    apply bind_Throw_inv in Hc as [Hc|(x' & _ & Hc)]; [by apply (Hx false)|].
    apply bind_Throw_inv in Hc as [Hc|(xs' & _ & Hc)]; [by apply IHxs | discriminate].
  - cbn [cloneDeepWith_at _toTreeCustomizer] in Hc. apply fmap_Throw_inv in Hc.
    induction IH as [|[k x] xs Hx _ IHxs]; [discriminate|].
    apply bind_Throw_inv in Hc as [Hc|(x' & _ & Hc)]; [by apply (Hx false)|].
    apply bind_Throw_inv in Hc as [Hc|(xs' & _ & Hc)]; [by apply IHxs | discriminate].
Qed.

Lemma _toPeriodDocument_error (c : class) (props : list (string * value)) (e : error) :
  _toPeriodDocument (VObj c props) = Throw e -> eclass e = IllegalArgumentError_.
Proof.
  unfold _toPeriodDocument. cbn [constructor_name mbind result_bind]. intros He.
  apply bind_Throw_inv in He as [He|(r1 & _ & He)].
  - destruct (truthy _); [|discriminate].
    apply bind_Throw_inv in He as [He|(b & _ & He)]; [|discriminate].
    by apply _toTimestamp_error in He.
  - apply bind_Throw_inv in He as [He|(r2 & _ & He)]; [|discriminate].
    destruct (truthy _); [|discriminate].
    apply bind_Throw_inv in He as [He|(b & _ & He)]; [|discriminate].
    by apply _toTimestamp_error in He.
Qed.

(** Converting a tree without Enum instances, moments and Dates fails
    for a function, a period side that is no time, or a [null]. *)
Lemma _toFirestoreDocument_error (v : value) :
  forall e, no_domain_values v = true -> _toFirestoreDocument v = Throw e ->
            eclass e = IllegalArgumentError_ \/ eclass e = TypeError_.
Proof.
  induction v as [v Hv|f props IH|elems IH|c props IH] using value_ind_nested;
    intros e Hnd He.
  - destruct v; try contradiction; cbn in Hnd, He; try discriminate.
    injection He as <-. by right.
  - cbn in He. injection He as <-. by left.
  - cbn [_toFirestoreDocument] in He. cbn [no_domain_values] in Hnd.
    apply fmap_Throw_inv in He.
    induction IH as [|x xs Hx _ IHxs]; [discriminate|].
    cbn [forallb] in Hnd. apply andb_prop in Hnd as [Hndx Hndxs].
    apply bind_Throw_inv in He as [He|(x' & _ & He)]; [by apply Hx|].
    apply bind_Throw_inv in He as [He|(xs' & _ & He)]; [by apply IHxs | discriminate].
  - cbn [_toFirestoreDocument] in He. cbn [no_domain_values] in Hnd.
    destruct (_ || _)%bool; [left; by apply _toPeriodDocument_error in He|].
    apply fmap_Throw_inv in He.
    induction IH as [|[k x] xs Hx _ IHxs]; [discriminate|].
    cbn [forallb] in Hnd. apply andb_prop in Hnd as [Hndx Hndxs].
    destruct (persistable x); [|by apply IHxs].
    apply bind_Throw_inv in He as [He|(x' & _ & He)]; [by apply Hx|].
    apply bind_Throw_inv in He as [He|(xs' & _ & He)]; [by apply IHxs | discriminate].
Qed.

(** X24.  [_toDocument] fails in three ways only: with the [Error] of the
    [Timestamp] constructor, for an invalid moment or Date in the entity;
    with an [IllegalArgumentError], for a function among the elements of
    an array or a period side that is no time; with a [TypeError], for a
    [null]. *)
Theorem toDocument_errors (entity : value) (e : error) :
  _toDocument entity = Throw e ->
  eclass e = Error_ \/ eclass e = errors.IllegalArgumentError \/ eclass e = TypeError_.
Proof.
  unfold _toDocument. intros He.
  apply bind_Throw_inv in He as [He|(tree & Htree & He)].
  - left. unfold _toTree, cloneDeepWith in He. by apply cloneDeepWith_at_error in He.
  - right. apply (_toFirestoreDocument_error tree); [|exact He].
    unfold _toTree, cloneDeepWith in Htree.
    by apply (cloneDeepWith_at_no_domain_values entity true).
Qed.

End EnumerationsAndErrors.

(** ** The further properties, on examples *)

Lemma toTree_replaces_domain_values_witness :
  no_domain_values
    (VObj (mkClass "Person" [])
       [("name", VStr "Alice");
        ("day", VStr "TUESDAY");
        ("born", VTimestamp (mkTimestamp 1577836800 0));
        ("greet", VFun "greet" []);
        ("nick", VUndefined);
        ("tags", VArr [VStr "a"; VTimestamp (mkTimestamp 0 0)])]) = true.
Proof.
  apply (toTree_replaces_domain_values (H := Example.host) MoreExamples.rich_entity).
  vm_compute. reflexivity.
Defined.

Lemma toDocument_returns_a_document_witness :
  is_document MoreExamples.rich_document = true.
Proof.
  apply (toDocument_returns_a_document (H := Example.host) MoreExamples.rich_entity).
  vm_compute. reflexivity.
Defined.

Lemma toFirestoreDocument_fixes_documents_witness :
  _toFirestoreDocument (H := Example.host) MoreExamples.rich_document
  = Ok MoreExamples.rich_document.
Proof.
  apply (toFirestoreDocument_fixes_documents (H := Example.host)).
  vm_compute. reflexivity.
Defined.

Lemma mapProps_keeps_registry_in_order_witness :
  registry_ok
    (_mapProps (H := Example.host)
       (full_call ["a"; "b"; "c"] 0%nat 1%nat "" "" MapperExample.failing_mappers)
       MapperExample.start).2.
Proof.
  apply (mapProps_keeps_registry_in_order (H := Example.host)).
  split; intros c Hc; vm_compute in Hc; discriminate.
Defined.

Lemma toEnumMapper_is_shared_by_name_witness :
  (m1 ← _toEnumMapper (H := Example.host) Example.DayOfWeek;
   m2 ← _toEnumMapper (H := Example.host) MoreExamples.OtherDayOfWeek;
   mret (m1, m2)) Example.repo
  = (Ok (Fn (get Example.DayOfWeek "of"), Fn (get Example.DayOfWeek "of")),
     with_mapperCache
       (<["enum:" +:+ interpolate (H := Example.host) (get Example.DayOfWeek "name")
          := Fn (get Example.DayOfWeek "of")]> (_mapperCache Example.repo))
       Example.repo).
Proof.
  apply (toEnumMapper_is_shared_by_name (H := Example.host)
           Example.DayOfWeek MoreExamples.OtherDayOfWeek Example.repo).
  - reflexivity.
  - vm_compute. reflexivity.
Defined.

Lemma mapProps_without_converters_copies_witness :
  get_property (H := Example.host)
    (snapshot
       (object_at
          (_mapProps (H := Example.host)
             (full_call ["a"; "b"] 0%nat 1%nat "_" "" VUndefined) MapperExample.start).2
          1%nat))
    ("_" +:+ "b")
  = Ok (VNum (NInt 2)).
Proof.
  destruct (mapProps_without_converters_copies (H := Example.host)
              ["a"; "b"] 0%nat 1%nat "_" "" MapperExample.start) as (_ & _ & Hkeys).
  - split; intros c Hc; vm_compute in Hc; discriminate.
  - discriminate.
  - apply (bool_decide_unpack _). vm_compute. reflexivity.
  - intros key Hin. unfold readable.
    repeat (apply elem_of_cons in Hin as [->|Hin]); [| |by apply elem_of_nil in Hin].
    + exists (VNum (NInt 1)). vm_compute. reflexivity.
    + exists (VNum (NInt 2)). vm_compute. reflexivity.
  - intros key Hin.
    repeat (apply elem_of_cons in Hin as [->|Hin]); [| |by apply elem_of_nil in Hin];
      vm_compute; reflexivity.
  - rewrite (Hkeys "b" (VNum (NInt 2))); [reflexivity| |vm_compute; reflexivity].
    apply elem_of_cons. right. apply elem_of_cons. by left.
Defined.

Lemma mapProps_defaults_copy_own_fields_witness :
  get_property (H := Example.host)
    (snapshot
       (object_at
          (_mapProps (H := Example.host)
             (mkMapPropsArgs NoKeys (Some 0%nat) (Some 1%nat) None None VUndefined)
             MapperExample.start).2
          1%nat))
    "c"
  = Ok (VNum (NInt 3)).
Proof.
  destruct (mapProps_defaults_copy_own_fields (H := Example.host)
              0%nat 1%nat MapperExample.start) as [_ Hfields].
  - split; intros c Hc; vm_compute in Hc; discriminate.
  - discriminate.
  - apply (bool_decide_unpack _). vm_compute. reflexivity.
  - intros key Hin.
    change (own_keys (object_at MapperExample.start 0%nat))
      with (List.map fst (ofields MapperExample.source)) in Hin. cbn in Hin.
    repeat (apply elem_of_cons in Hin as [->|Hin]); try (by apply elem_of_nil in Hin);
      vm_compute; reflexivity.
  - apply Hfields; [|discriminate].
    assert (("c", VNum (NInt 3)) ∈ ofields MapperExample.source) as Hin.
    { cbn. rewrite !elem_of_cons. auto. }
    exact Hin.
Defined.

Lemma mapProps_makes_a_fresh_destination_witness :
  (2%nat ∉ dom (heap MapperExample.start))
  /\ (forall l, l ∈ dom (heap MapperExample.start) ->
        heap (_mapProps (H := Example.host)
                (mkMapPropsArgs NoKeys (Some 0%nat) None None None VUndefined)
                MapperExample.start).2 !! l
        = heap MapperExample.start !! l).
Proof.
  apply (mapProps_makes_a_fresh_destination (H := Example.host)
           (mkMapPropsArgs NoKeys (Some 0%nat) None None None VUndefined)
           MapperExample.start
           (_mapProps (H := Example.host)
              (mkMapPropsArgs NoKeys (Some 0%nat) None None None VUndefined)
              MapperExample.start).2
           2%nat).
  - reflexivity.
  - vm_compute. reflexivity.
Defined.

Lemma array_map_MomentOf_closure_host (whole : value) (i : Z) (elems : list value) :
  array_map (H := MoreExamples.closure_host) MomentOf whole i elems
  = array_map (H := Example.host) MomentOf whole i elems.
Proof.
  unfold array_map. cbn [scalar_value typeof].
  revert i. induction elems as [|x xs IH]; intros i; [reflexivity|].
  cbn [map_elements]. rewrite IH. reflexivity.
Qed.

(** [MoreExamples.closure_host] does run the moment closure. *)
Lemma closure_host_runs_moment_closure :
  runs_moment_closure (H := MoreExamples.closure_host).
Proof.
  intros args.
  change (apply_fn (closure_fid MomentOf) args)
    with (closure_body (H := Example.host) MomentOf args).
  unfold closure_body.
  change (@get_property MoreExamples.closure_host) with (@get_property Example.host).
  change (@interpolate MoreExamples.closure_host) with (@interpolate Example.host).
  destruct (hd VUndefined args); try reflexivity;
    (destruct (get_property _ _) as [v|e]; [|reflexivity];
     cbn [mbind result_bind]; destruct v; try reflexivity;
     by rewrite array_map_MomentOf_closure_host).
Qed.

Lemma period_document_roundtrip_witness :
  get (snapshot
         (object_at
            (_fromPeriodDocument (H := MoreExamples.closure_host)
               (Some 0%nat) (Some 1%nat) (Some "_") MoreExamples.period_store).2
            1%nat))
      "_begin"
  = VMoment (mkMoment (NInt 1577836800000) true).
Proof.
  destruct (period_document_roundtrip (H := MoreExamples.closure_host)
              Period_class (Some MoreExamples.new_year) None 0%nat 1%nat
              (mkObject Object_class
                 [("_type", VStr "Period");
                  ("_begin", VTimestamp (mkTimestamp 1577836800 0))])
              MoreExamples.period_store) as (_ & Hbegin & _).
  - exact closure_host_runs_moment_closure.
  - split; intros c Hc; vm_compute in Hc; discriminate.
  - reflexivity.
  - exists 1577836800000. split; [reflexivity|]. unfold Moment.MAX_TIME. lia.
  - exact I.
  - vm_compute. reflexivity.
  - vm_compute. reflexivity.
  - discriminate.
  - vm_compute. reflexivity.
  - vm_compute. reflexivity.
  - exact Hbegin.
Defined.

(** Where the entity's class answers to [_begin] with a getter alone,
    the assignment is refused and nothing is read back. *)
Lemma fromPeriodDocument_refused_by_accessor :
  (_fromPeriodDocument (H := MoreExamples.closure_host)
     (Some 0%nat) (Some 1%nat) (Some "_") MoreExamples.read_only_store).1
  = Throw (mkError TypeError_ (VStr "_begin")).
Proof. vm_compute. reflexivity. Qed.

Lemma getById_without_document_throws_witness :
  getById (H := Example.host) (H0 := Example.concrete) (VStr "7") PersistenceExample.stored
  = (Throw (mkError errors.ObjectNotFoundError
              (VStr (document_path (H := Example.host) PersistenceExample.stored (VStr "7")))),
     PersistenceExample.stored).
Proof.
  apply (getById_without_document_throws (H := Example.host) (H0 := Example.concrete)).
  right. vm_compute. reflexivity.
Defined.

Lemma upsert_then_findById_witness :
  exists stored,
    documents (upsert (H := Example.host) (H0 := Example.concrete) 0%nat VUndefined
                 MoreExamples.unsaved).2
    !! "/fakes/7" = Some stored
    /\ findById (H := Example.host) (H0 := Example.concrete) (VStr "7")
         (upsert (H := Example.host) (H0 := Example.concrete) 0%nat VUndefined
            MoreExamples.unsaved).2
       = fromDocument_override (Concrete := Example.concrete) stored "_" "_"
           (upsert (H := Example.host) (H0 := Example.concrete) 0%nat VUndefined
              MoreExamples.unsaved).2.
Proof.
  destruct (upsert_then_findById (H := Example.host) (H0 := Example.concrete)
              0%nat VUndefined VUndefined MoreExamples.unsaved
              (upsert (H := Example.host) (H0 := Example.concrete) 0%nat VUndefined
                 MoreExamples.unsaved).2) as (stored & Hstored & Hfind).
  - vm_compute. reflexivity.
  - exists stored. split; [exact Hstored|]. apply Hfind. reflexivity.
Defined.

Lemma mapProps_enumeration_class_converts_witness :
  get_property (H := Example.host)
    (snapshot
       (object_at
          (_mapProps (H := Example.host)
             (full_call ["enumeration"] 0%nat 1%nat "" "" Example.DayOfWeek)
             MoreExamples.enum_store).2
          1%nat))
    ("" +:+ "enumeration")
  = Ok (VEnum "DayOfWeek" "TUESDAY").
Proof.
  pose proof (mapProps_enumeration_class_converts (H := Example.host)
                Example.DayOfWeek "enumeration" 0%nat 1%nat "" "" MoreExamples.enum_store)
    as Hthm.
  cbn zeta in Hthm.
  assert (conversion (H := Example.host) (Enumeration Example.DayOfWeek) "enumeration"
            (object_at MoreExamples.enum_store 0%nat) (object_at MoreExamples.enum_store 1%nat)
            ""
          = Ok (VEnum "DayOfWeek" "TUESDAY")) as Hof by (vm_compute; reflexivity).
  rewrite Hof in Hthm. cbn [is_undefined] in Hthm.
  apply Hthm.
  - reflexivity.
  - reflexivity.
  - exists VUndefined. split; vm_compute; reflexivity.
  - intros c Hc. vm_compute in Hc. discriminate.
  - vm_compute. reflexivity.
Defined.

Lemma toDocument_errors_witness :
  TypeError_ = Error_ \/ TypeError_ = errors.IllegalArgumentError \/ TypeError_ = TypeError_.
Proof.
  apply (toDocument_errors (H := Example.host)
           (plain [("name", VStr "Alice"); ("nick", VNull)]) (mkError TypeError_ VNull)).
  vm_compute. reflexivity.
Defined.

